(** * Carbon projection engine of the calculator page

    A shallow embedding of [src/pages/CarbonCalculator.tsx]: the helpers
    [defaultAllometryBiomassKg], [kgBiomassToTonsCO2e], [densityFromSpacing],
    [clamp] and [evalBiomassExpr], the form validation [validate] and the
    projection [calculate].

    Numbers are ECMAScript Numbers, that is IEEE 754 binary64 values: they
    are modelled by Rocq's primitive floats, whose [+], [-], [*], [/] and
    comparisons are the IEEE operations JavaScript uses. Strings are lists
    of UTF-16 code units. Calendar years, numbers of years and loop
    counters, which the source obtains from [parseInt], are whole Numbers:
    they are modelled by [Whole.t], and by [Z] where they are finite, with
    the rounding to 53 significant bits written out, so that the sums of
    years are those of the page above 2^53 as well. The loop over the years
    pushes a record per round onto an array, which holds 2^32 - 1 elements
    at most: the loop is completed or [push] throws, within a number of
    rounds that is known beforehand ([runLoop_ends]). Memory is taken to
    suffice. *)

From Stdlib Require Import ZArith NArith List Bool Lia String Ascii.
From Stdlib Require Import Uint63.
From Stdlib Require Import Floats.
From stdpp Require Import base list.

Local Open Scope Z_scope.
Set Warnings "-inexact-float".

(** ** ECMAScript numbers *)

Module Num.

Definition zero : float := 0%float.
Definition NaN : float := nan.
Definition Infinity : float := infinity.

(** [isNaN(x)] and [isFinite(x)] on a Number. *)
Definition isNaN (x : float) : bool := is_nan x.
Definition isFinite (x : float) : bool := is_finite x.

(** ToBoolean on a Number: [+0], [-0] and NaN are falsy. *)
Definition truthy (x : float) : bool := negb (is_nan x || is_zero x).

(** [x || y] on Numbers. *)
Definition or_else (x y : float) : float := if truthy x then x else y.

(** The relational operators; each is false when an operand is NaN. *)
Definition lt (x y : float) : bool := (x <? y)%float.
Definition le (x y : float) : bool := (x <=? y)%float.
Definition gt (x y : float) : bool := (y <? x)%float.
Definition ge (x y : float) : bool := (y <=? x)%float.

Definition is_neg_zero (x : float) : bool :=
  match classify x with NZero => true | _ => false end.

(** [Math.max] and [Math.min] of two Numbers (ECMA-262, 21.3.2.24 and
    21.3.2.25): NaN when an operand is NaN, and [-0] counts as smaller
    than [+0]. *)
Definition max (a b : float) : float :=
  if is_nan a || is_nan b then NaN
  else if (a <? b)%float then b
  else if (b <? a)%float then a
  else if is_neg_zero a then b else a.

Definition min (a b : float) : float :=
  if is_nan a || is_nan b then NaN
  else if (a <? b)%float then a
  else if (b <? a)%float then b
  else if is_neg_zero a then a else b.

(** The Number an integer is (exact below 2^53 in magnitude, which
    covers every year, age and index of the page). *)
Definition of_Z (z : Z) : float :=
  if (z <? 0)%Z then (- of_uint63 (Uint63.of_Z (- z)))%float
  else of_uint63 (Uint63.of_Z z).

End Num.

(** ** Signs of Numbers

    [notNeg x] says that [x < 0] is false: [x] is NaN, a zero or positive.
    [sf_nn] and [sf_sp] read the same off the IEEE datum of a Number. *)

Module Sign.

Definition notNeg (x : float) : Prop := (x <? 0)%float = false.

(** Not negative: NaN, a zero of either sign, or a positive value. *)
Definition sf_nn (s : spec_float) : Prop :=
  match s with
  | S754_infinity true | S754_finite true _ _ => False
  | _ => True
  end.

(** Sign bit clear, or NaN. *)
Definition sf_sp (s : spec_float) : Prop :=
  match s with
  | S754_zero true | S754_infinity true | S754_finite true _ _ => False
  | _ => True
  end.

Definition signPos (x : float) : Prop := sf_sp (Prim2SF x).

(** The datum of the Number 1. *)
Definition sf_one : spec_float := S754_finite false 4503599627370496 (-52).

(** [x >= 0] holds, or [x] is NaN. *)
Definition nonNegOrNaN (x : float) : Prop := Num.ge x 0 = true \/ Num.isNaN x = true.

End Sign.

(** ** Whole Numbers

    [parseInt] returns NaN, an infinity or an integer, and the page only
    adds, subtracts and compares what it returns (years, numbers of years,
    loop indices): these Numbers are NaN, an infinity or an integer
    throughout. [Whole.t] holds them with the integer as a [Z]. The
    arithmetic is that of Numbers: the exact sum or difference, rounded to
    the nearest Number (IEEE 754 binary64, ties to even), so above 2^53 it
    is not exact. The zero of either sign is [Int 0]: the page adds,
    subtracts, compares and prints these Numbers, and none of that tells
    [-0] from [+0]. *)

Module Whole.

Inductive t := NaN | Infinity (negative : bool) | Int (z : Z).

(** The spacing of the Numbers around [z]: 1 up to 2^53, then 2, 4, ... *)
Definition ulp (z : Z) : Z := 2 ^ Z.max 0 (Z.log2 (Z.abs z) - 52).

(** The integer nearest to [z] that is a Number (53 significant bits), a
    tie going to the one with the even significand. *)
Definition nearest (z : Z) : Z :=
  let u := ulp z in
  let q := z / u in
  let r := z mod u in
  if 2 * r <? u then q * u
  else if u <? 2 * r then (q + 1) * u
  else if Z.even q then q * u else (q + 1) * u.

(** The Number an exact integer result becomes: beyond the largest finite
    Number it is an infinity. *)
Definition round (z : Z) : t :=
  let r := nearest z in
  if 2 ^ 1024 <=? Z.abs r then Infinity (z <? 0) else Int r.

(** The largest finite Number. *)
Definition maxNumber : Z := 2 ^ 1024 - 2 ^ 971.

Definition isNaN (a : t) : bool := match a with NaN => true | _ => false end.

Definition opp (a : t) : t :=
  match a with NaN => NaN | Infinity s => Infinity (negb s) | Int z => Int (- z) end.

(** [a + b] and [a - b]. *)
Definition add (a b : t) : t :=
  match a, b with
  | NaN, _ | _, NaN => NaN
  | Infinity s, Infinity s' => if Bool.eqb s s' then Infinity s else NaN
  | Infinity s, Int _ | Int _, Infinity s => Infinity s
  | Int x, Int y => round (x + y)
  end.

Definition sub (a b : t) : t := add a (opp b).

(** [a < b], [a <= b] and [a === b]; each is false when an operand is NaN. *)
Definition ltb (a b : t) : bool :=
  match a, b with
  | NaN, _ | _, NaN => false
  | Infinity s, Infinity s' => s && negb s'
  | Infinity s, Int _ => s
  | Int _, Infinity s => negb s
  | Int x, Int y => x <? y
  end.

Definition leb (a b : t) : bool :=
  match a, b with
  | NaN, _ | _, NaN => false
  | Infinity s, Infinity s' => s || negb s'
  | Infinity s, Int _ => s
  | Int _, Infinity s => negb s
  | Int x, Int y => x <=? y
  end.

Definition seq (a b : t) : bool :=
  match a, b with
  | Infinity s, Infinity s' => Bool.eqb s s'
  | Int x, Int y => x =? y
  | _, _ => false
  end.

End Whole.

(** ** ECMAScript strings *)

Definition jschar := N.
Definition jsstring := list jschar.

(** A string literal of the source, as code units. *)
Definition js (s : string) : jsstring := map N_of_ascii (list_ascii_of_string s).

Module Str.
Local Open Scope N_scope.

Fixpoint eqb (a b : jsstring) : bool :=
  match a, b with
  | [], [] => true
  | x :: a', y :: b' => (x =? y) && eqb a' b'
  | _, _ => false
  end.

(** ToBoolean on a String: only the empty string is falsy. *)
Definition truthy (s : jsstring) : bool :=
  match s with [] => false | _ => true end.

(** [s || d] on Strings, and on an optional (possibly undefined) field. *)
Definition or_else (s d : jsstring) : jsstring := if truthy s then s else d.
Definition opt_or_else (s : option jsstring) (d : jsstring) : jsstring :=
  match s with Some s => or_else s d | None => d end.
Definition opt_truthy (s : option jsstring) : bool :=
  match s with Some s => truthy s | None => false end.

(** WhiteSpace and LineTerminator code points (ECMA-262, 12.2 and 12.3):
    what [\s] matches and what [trim] strips. *)
Definition isWhiteSpace (c : jschar) : bool :=
  ((9 <=? c) && (c <=? 13)) || (c =? 32) || (c =? 160) || (c =? 5760)
  || ((8192 <=? c) && (c <=? 8202)) || (c =? 8232) || (c =? 8233)
  || (c =? 8239) || (c =? 8287) || (c =? 12288) || (c =? 65279).

Definition isDigit (c : jschar) : bool := (48 <=? c) && (c <=? 57).

(** [\w]: ASCII letters, digits and the underscore. *)
Definition isWordChar (c : jschar) : bool :=
  isDigit c || ((65 <=? c) && (c <=? 90)) || ((97 <=? c) && (c <=? 122)) || (c =? 95).

(** Canonicalize of a case-insensitive, non-unicode regular expression,
    as far as matching against ASCII pattern characters goes: ASCII
    letters are upper-cased; a code unit above 127 never canonicalizes to
    an ASCII one, so it is left alone. *)
Definition canon (c : jschar) : jschar :=
  if (97 <=? c) && (c <=? 122) then c - 32 else c.

Fixpoint trimStart (s : jsstring) : jsstring :=
  match s with
  | c :: s' => if isWhiteSpace c then trimStart s' else s
  | [] => []
  end.

Definition trimEnd (s : jsstring) : jsstring := rev (trimStart (rev s)).

(** [s.trim()]. *)
Definition trim (s : jsstring) : jsstring := trimEnd (trimStart s).

(** [pat] matched case-insensitively at the start of [s]; the rest of [s]
    after the match. [pat] is given canonicalized (upper case). *)
Fixpoint prefix_ci (pat s : jsstring) : option jsstring :=
  match pat with
  | [] => Some s
  | p :: pat' =>
      match s with
      | c :: s' => if canon c =? p then prefix_ci pat' s' else None
      | [] => None
      end
  end.

Definition starts_ci (pat s : jsstring) : bool :=
  match prefix_ci pat s with Some _ => true | None => false end.

(** [p] holds of some suffix of [s]: an unanchored regular expression
    test. *)
Fixpoint anywhere (p : jsstring -> bool) (s : jsstring) : bool :=
  p s || match s with [] => false | _ :: s' => anywhere p s' end.

(** [s.replace(re, repl)] for a global regular expression [re] without
    empty matches: [m t] is the length of the match of [re] at the start
    of [t], if any. After a match the scan resumes behind it ([skip]
    counts the code units of the match still to pass over). *)
Fixpoint replaceAll (m : jsstring -> option nat) (repl : jsstring)
    (skip : nat) (s : jsstring) : jsstring :=
  match s with
  | [] => []
  | c :: s' =>
      match skip with
      | S k => replaceAll m repl k s'
      | O =>
          match m s with
          | Some (S k) => repl ++ replaceAll m repl k s'
          | _ => c :: replaceAll m repl O s'
          end
      end
  end.

End Str.

(** ** [parseInt] and [parseFloat]

    Modelled from ECMA-262 (19.2.5 and 19.2.4): both skip leading white
    space, read an optional sign and convert the longest prefix that is a
    decimal integer, respectively a decimal literal; what follows the prefix
    is ignored, and NaN is the result when there is no such prefix. *)

Module Parse.
Local Open Scope N_scope.

(** The longest prefix of decimal digits and what follows it. *)
Fixpoint digits (s : jsstring) : list jschar * jsstring :=
  match s with
  | c :: s' =>
      if Str.isDigit c then let '(ds, r) := digits s' in (c :: ds, r)
      else ([], s)
  | [] => ([], [])
  end.

Definition digitsValue (ds : list jschar) : Z :=
  fold_left (fun acc d => 10 * acc + (Z.of_N d - 48))%Z ds 0%Z.

(** An optional leading sign: whether it is a minus, and the rest. *)
Definition sign (s : jsstring) : bool * jsstring :=
  match s with
  | c :: s' => if c =? 45 then (true, s') else if c =? 43 then (false, s') else (false, s)
  | [] => (false, [])
  end.

(** [parseInt(s, 10)]: the Number nearest to the integer the digits
    spell (beyond 20 significant digits ECMAScript lets an engine round
    less exactly; the model takes the nearest Number there too). *)
Definition parseInt (s : jsstring) : Whole.t :=
  let '(neg, r) := sign (Str.trimStart s) in
  match digits r with
  | ([], _) => Whole.NaN
  | (ds, _) => Whole.round (if neg then - digitsValue ds else digitsValue ds)%Z
  end.

(** The Number nearest to [m * 10^p] (ties to even), for [m >= 0]. The
    two early exits only spare the computation of a huge power of ten:
    the value is beyond the largest finite Number, respectively below
    half the smallest positive one. *)
Definition decimalToNumber (neg : bool) (m p : Z) (ndigits : Z) : float :=
  (if m =? 0 then (if neg then neg_zero else PrimFloat.zero)
   else if 400 <? p then (if neg then neg_infinity else infinity)
   else if p + ndigits <? -400 then (if neg then neg_zero else PrimFloat.zero)
   else
     let num := m * 10 ^ Z.max p 0 in
     let den := 10 ^ Z.max (- p) 0 in
     let '(q, e, loc) := SFdiv_core_binary prec emax num 0 den 0 in
     SF2Prim (binary_round_aux prec emax neg q e loc))%Z.

Definition startsWith (pat s : jsstring) : bool :=
  Str.eqb pat (firstn (length pat) s).

(** [parseFloat(s)]. *)
Definition parseFloat (s : jsstring) : float :=
  let '(neg, r) := sign (Str.trimStart s) in
  if startsWith (js "Infinity") r then (if neg then neg_infinity else infinity)
  else
    let '(ip, r1) := digits r in
    let '(fp, r2) :=
      match r1 with
      | 46 :: t => digits t
      | _ => ([], r1)
      end in
    match ip ++ fp with
    | [] => nan
    | ds =>
        let ex :=
          match r2 with
          | c :: t =>
              if (c =? 101) || (c =? 69) then
                let '(eneg, t') := sign t in
                match digits t' with
                | ([], _) => 0%Z
                | (ed, _) => if eneg then (- digitsValue ed)%Z else digitsValue ed
                end
              else 0%Z
          | [] => 0%Z
          end in
        decimalToNumber neg (digitsValue ds) (ex - Z.of_nat (length fp))
          (Z.of_nat (length ds))
    end.

End Parse.

Definition parseInt := Parse.parseInt.
Definition parseFloat := Parse.parseFloat.

(** ** The host: what the JavaScript engine supplies

    [Math.exp], [Math.log] and [Math.pow] are implementation-approximated
    in ECMAScript, and [new Function('D', body)] hands [body] to the
    engine's own parser and evaluator. The development is parametric in
    them.

    The run of a function body is taken as a function of the body and of
    [D]. That is an assumption on the body, not a property of the engine:
    the whitelist of line 120 lets a few global names through ([Date] is
    spelt with its letters, so [+new(Date)] reaches [new Function] and
    reads the clock). Results that compare two runs are therefore stated
    on [functionBody], the text handed to the engine, and not on the value
    it returns. *)

(** Outcome of building and calling [new Function('D', body)]: an exception
    (a SyntaxError at construction or any error at the call), or the
    returned value, a Number or a value of another type. *)
Inductive completion :=
  | Throw
  | ReturnNumber (v : float)
  | ReturnOther.

Class Host := {
  Math_exp : float -> float;
  Math_log : float -> float;
  Math_pow : float -> float -> float;
  (** [runFunction body D] is [new Function('D', body)(D)], for a body
      whose value depends on [D] alone. *)
  runFunction : jsstring -> float -> completion
}.

(** What the sign results below ask of the host: [Math.exp] never returns
    a negative Number, and neither does [Math.pow] at a base and an exponent
    that are not negative. *)
Class HostLaws (H : Host) : Prop := {
  exp_notNeg : forall x, Sign.notNeg (Math_exp x);
  pow_notNeg : forall x y, Sign.notNeg x -> Sign.notNeg y -> Sign.notNeg (Math_pow x y)
}.

(** ** Helpers of the page *)

Inductive RegionType := dry | moist.

Section Helpers.
Context `{Host}.

Definition exp := Math_exp.
Definition ln := Math_log.

(** [defaultAllometryBiomassKg(D_cm, region)], lines 79-85. *)
Definition defaultAllometryBiomassKg (D_cm : float) (region : RegionType) : float :=
  if negb (Num.truthy D_cm) || Num.isNaN D_cm || Num.le D_cm 0 then 0%float
  else match region with
       | dry => exp (-1.996 + 2.32 * ln D_cm)%float
       | moist => exp (-2.134 + 2.530 * ln D_cm)%float
       end.

(** [kgBiomassToTonsCO2e(biomassKg)], lines 87-90. *)
Definition kgBiomassToTonsCO2e (biomassKg : float) : float :=
  ((biomassKg * 0.47 * (44 / 12)) / 1000)%float.

(** [densityFromSpacing(spacingMeters)], lines 92-95. *)
Definition densityFromSpacing (spacingMeters : float) : float :=
  if negb (Num.truthy spacingMeters) || Num.le spacingMeters 0 then 0%float
  else (10000 / (spacingMeters * spacingMeters))%float.

(** [clamp(n, lo, hi)], lines 97-99. *)
Definition clamp (n lo hi : float) : float := Num.max lo (Num.min hi n).

End Helpers.

(** ** The guarded evaluator of custom biomass equations *)

Section Evaluator.
Context `{Host}.
Local Open Scope N_scope.

(** [/^[0-9+\-*/().,\sDdepxowlnqrtmacs]*$/i]: the whitelist of line 120. *)
Definition allowedChar (c : jschar) : bool :=
  Str.isDigit c
  || existsb (N.eqb c) (js "+-*/().,")
  || Str.isWhiteSpace c
  || existsb (N.eqb (Str.canon c)) (js "DEPXOWLNQRTMACS").

Definition allowed (expr : jsstring) : bool := forallb allowedChar expr.

(** The match of [/name\s*\(/i] at the start of [s]: its length. *)
Fixpoint wsThenParen (k : nat) (s : jsstring) : option nat :=
  match s with
  | c :: s' =>
      if c =? 40 then Some (S k)
      else if Str.isWhiteSpace c then wsThenParen (S k) s'
      else None
  | [] => None
  end.

Definition matchCall (name : jsstring) (s : jsstring) : option nat :=
  match Str.prefix_ci name s with
  | Some rest => wsThenParen (length name) rest
  | None => None
  end.

(** [.replace(/name\s*\(/gi, 'Math.fn(')]. *)
Definition replaceCall (name : string) (repl : string) (s : jsstring) : jsstring :=
  Str.replaceAll (matchCall (js name)) (js repl) O s.

(** [.replace(/\bD\b/g, '(D)')]: an upper-case [D] with a non-word
    character (or an end of the string) on either side. [prev] is the
    code unit before the current position. *)
Definition notWord (c : option jschar) : bool :=
  match c with Some c => negb (Str.isWordChar c) | None => true end.

Fixpoint replaceD (prev : option jschar) (s : jsstring) : jsstring :=
  match s with
  | [] => []
  | c :: s' =>
      (if (c =? 68) && notWord prev && notWord (head s')
       then js "(D)" else [c]) ++ replaceD (Some c) s'
  end.

(** [/new\s/i] matched at the start of [t]. *)
Definition newAt (t : jsstring) : bool :=
  match Str.prefix_ci (js "NEW") t with
  | Some (c :: _) => Str.isWhiteSpace c
  | _ => false
  end.

(** [/(constructor|__proto__|prototype|=>|new\s)/i], the guard of line 139,
    matched at the start of [t]. *)
Definition blockedAt (t : jsstring) : bool :=
  Str.starts_ci (js "CONSTRUCTOR") t
  || Str.starts_ci (js "__PROTO__") t
  || Str.starts_ci (js "PROTOTYPE") t
  || Str.starts_ci (js "=>") t
  || newAt t.

Definition blocked (expr : jsstring) : bool := Str.anywhere blockedAt expr.

(** The rewriting of lines 126-136. *)
Definition rewrite (expr : jsstring) : jsstring :=
  let expr := replaceCall "LN" "Math.log(" expr in
  let expr := replaceCall "EXP" "Math.exp(" expr in
  let expr := replaceCall "SQRT" "Math.sqrt(" expr in
  let expr := replaceCall "POW" "Math.pow(" expr in
  let expr := replaceCall "MIN" "Math.min(" expr in
  let expr := replaceCall "MAX" "Math.max(" expr in
  replaceD None expr.





(** [evalBiomassExpr(D, exprRaw)], lines 114-151. *)
Definition evalBiomassExpr (D : float) (exprRaw : jsstring) : float :=
  if negb (Str.truthy exprRaw) then Num.NaN
  else
    let expr := Str.trim exprRaw in
    if negb (allowed expr) then Num.NaN
    else
      let expr := rewrite expr in
      if blocked expr then Num.NaN
      else
        match runFunction (js "return (" ++ expr ++ js ");") D with
        | ReturnNumber val => if negb (Num.isFinite val) then Num.NaN else val
        | ReturnOther => Num.NaN
        | Throw => Num.NaN
        end.

End Evaluator.

(** ** State of the page and results *)

Inductive DensityMode := spacingMode | densityMode.
Inductive ScheduleMode := constant | custom.
Inductive YesNo := yes | no.

(** [SpeciesRow], lines 38-52; an optional field is [None] when undefined. *)
Record SpeciesRow := {
  row_id : jsstring;
  row_name : jsstring;
  row_region : RegionType;
  row_percent : jsstring;
  row_inputMode : DensityMode;
  row_spacing : option jsstring;
  row_density : option jsstring;
  row_growthRateCmYr : option jsstring;
  row_initialDbhCm : option jsstring;
  row_useCustomEq : option bool;
  row_customEquation : option jsstring
}.

Record ScheduleRow := { srow_year : Whole.t; srow_areaHa : jsstring }.

(** The [useState] cells of [CarbonCalculator] that [calculate] reads,
    lines 169-187. *)
Record State := {
  projectAreaHa : jsstring;
  plantingYear : jsstring;
  creditingEndYear : jsstring;
  mortalityRate : jsstring;
  considerMortality : YesNo;
  defaultGrowthRate : jsstring;
  forceYearZeroZero : bool;
  useSchedule : bool;
  scheduleYears : jsstring;
  scheduleMode : ScheduleMode;
  constantAreaPerYear : jsstring;
  customSchedule : list ScheduleRow;
  rows : list SpeciesRow
}.

Record PerSpecies := {
  ps_speciesId : jsstring;
  ps_name : jsstring;
  ps_credits : float;
  ps_biomassKg : float;
  ps_survivingTrees : float;
  ps_dbhCm : float
}.

(** [YearRecord], lines 54-67. *)
Record YearRecord := {
  yr_year : Z;
  yr_credits : float;
  yr_biomassKg : float;
  yr_survivingTrees : float;
  yr_perSpecies : list PerSpecies
}.

Record SpeciesTotal := {
  st_speciesId : jsstring;
  st_name : jsstring;
  st_totalCredits : float
}.

(** [CalcResult], lines 69-73. *)
Record CalcResult := {
  totalCredits : float;
  yearlyBreakdown : list YearRecord;
  speciesSummary : list SpeciesTotal
}.

(** ** Validation *)

(** The messages [validate] returns, lines 232-265. *)
Inductive ValidationError :=
  | EnterPlantingYear
  | EnterEndYear
  | YearsMustBeNumbers
  | EndBeforePlanting
  | AddSpecies
  | PercentNotPositive
  | PercentOver100
  | RowNeedsName
  | RowNeedsPercent (name : jsstring)
  | RowNeedsSpacing (name : jsstring)
  | RowNeedsDensity (name : jsstring)
  | RowNeedsEquation (name : jsstring)
  | ScheduleYearsNotPositive
  | EnterConstantArea
  | ScheduleRowsNotInitialized
  | ScheduleAreaMissing
  | EnterProjectArea.

(** [clamp(n, lo, hi)], that is [Math.max(lo, Math.min(hi, n))], at a whole
    Number [n] and integer bounds; [None] is NaN, which [Math.min] and
    [Math.max] propagate. *)
Definition clampInt (n : Whole.t) (lo hi : Z) : option Z :=
  match n with
  | Whole.NaN => None
  | Whole.Infinity false => Some (Z.max lo hi)
  | Whole.Infinity true => Some lo
  | Whole.Int n => Some (Z.max lo (Z.min hi n))
  end.

(** [yearsSpan], lines 211-215: the count shown as "Years modeled". *)
Definition yearsSpan (st : State) : option Z :=
  let py := parseInt (Str.or_else (plantingYear st) (js "0")) in
  let ey := parseInt (Str.or_else (creditingEndYear st) (js "0")) in
  clampInt (Whole.sub ey py) 0 300.

(** [totalPercent], lines 217-220. *)
Definition totalPercent (st : State) : float :=
  fold_left
    (fun sum r =>
       (sum + Num.or_else (parseFloat (Str.or_else (row_percent r) (js "0"))) 0)%float)
    (rows st) 0%float.

Fixpoint validateRows (rs : list SpeciesRow) : option ValidationError :=
  match rs with
  | [] => None
  | r :: rs' =>
      if negb (Str.truthy (row_name r)) then Some RowNeedsName
      else if negb (Str.truthy (row_percent r)) then Some (RowNeedsPercent (row_name r))
      else if match row_inputMode r with spacingMode => negb (Str.opt_truthy (row_spacing r))
                                    | densityMode => false end
           then Some (RowNeedsSpacing (row_name r))
      else if match row_inputMode r with densityMode => negb (Str.opt_truthy (row_density r))
                                    | spacingMode => false end
           then Some (RowNeedsDensity (row_name r))
      else if match row_useCustomEq r with Some true => negb (Str.opt_truthy (row_customEquation r))
                                    | _ => false end
           then Some (RowNeedsEquation (row_name r))
      else validateRows rs'
  end.

(** [validate()], lines 232-265; [None] is the [null] of the source. *)
Definition validate (st : State) : option ValidationError :=
  if negb (Str.truthy (plantingYear st)) then Some EnterPlantingYear
  else if negb (Str.truthy (creditingEndYear st)) then Some EnterEndYear
  else
    let py := parseInt (plantingYear st) in
    let ey := parseInt (creditingEndYear st) in
    if Whole.isNaN py || Whole.isNaN ey then Some YearsMustBeNumbers
    else if Whole.ltb ey py then Some EndBeforePlanting
    else if match rows st with [] => true | _ => false end then Some AddSpecies
    else if Num.le (totalPercent st) 0 then Some PercentNotPositive
    else if Num.gt (totalPercent st) 100 then Some PercentOver100
    else
      match validateRows (rows st) with
      | Some e => Some e
      | None =>
          if useSchedule st then
            let n := clampInt (parseInt (Str.or_else (scheduleYears st) (js "0"))) 0 200 in
            if match n with Some n => n <=? 0 | None => false end
            then Some ScheduleYearsNotPositive
            else
              match scheduleMode st with
              | constant =>
                  if negb (Str.truthy (constantAreaPerYear st)) then Some EnterConstantArea
                  else None
              | custom =>
                  if negb match n with
                          | Some n => Z.of_nat (length (customSchedule st)) =? n
                          | None => false
                          end
                  then Some ScheduleRowsNotInitialized
                  else if existsb
                            (fun r => negb (Str.truthy (srow_areaHa r))
                                      || Num.lt (parseFloat (srow_areaHa r)) 0)
                            (customSchedule st)
                  then Some ScheduleAreaMissing
                  else None
              end
          else if negb (Str.truthy (projectAreaHa st)) then Some EnterProjectArea
          else None
      end.

(** ** The calculation *)

(** An entry of [scheduled], line 283. *)
Record ScheduleEntry := { sch_year : Z; sch_areaHa : float }.

(** An element of [speciesSetup], lines 319-328. *)
Record SpeciesSetup := {
  sp_id : jsstring;
  sp_name : jsstring;
  sp_region : RegionType;
  sp_percent : float;
  sp_densityHa : float;
  sp_growthRateCmYr : float;
  sp_initialDbhCm : float;
  sp_biomassFn : float -> float
}.

(** The running totals of one model year, lines 337-348. *)
Record YearAcc := {
  totalBiomassKg : float;
  totalCreditsT : float;
  totalTrees : float;
  perSpeciesAgg : list PerSpecies
}.

(** [arr.forEach((x, idx) => ...)] threading the state the callback
    mutates; [i] is the index of the head of [l]. *)
Fixpoint forEachIdx {A S : Type} (f : S -> nat -> A -> S) (i : nat) (l : list A) (s : S) : S :=
  match l with
  | [] => s
  | x :: l' => forEachIdx f (Datatypes.S i) l' (f s i x)
  end.

(** The sum of [f] over [l], accumulated from 0 and from the left, as
    [reduce] and the [+=] of the loops do (the addition of Numbers is not
    associative). *)
Definition sumOf {A : Type} (f : A -> float) (l : list A) : float :=
  fold_left (fun sum x => (sum + f x)%float) l 0%float.

Section Calculation.
Context `{Host}.
Local Open Scope float_scope.

(** [mort], lines 277-278. *)
Definition mortFrac (st : State) : float :=
  clamp (parseFloat (Str.or_else (mortalityRate st) (js "0")) / 100) 0 1.

Definition mort (st : State) : float :=
  match considerMortality st with yes => mortFrac st | no => 0 end.

(** [defaultGR], line 280. *)
Definition defaultGR (st : State) : float :=
  parseFloat (Str.or_else (defaultGrowthRate st) (js "0.2")).

(** The area of schedule year [y], lines 288-291. *)
Definition scheduleArea (st : State) (y : Z) : float :=
  match scheduleMode st with
  | constant => Num.or_else (parseFloat (Str.or_else (constantAreaPerYear st) (js "0"))) 0
  | custom =>
      Num.or_else
        (parseFloat
           (Str.opt_or_else
              (option_map srow_areaHa
                 (List.find (fun r => Whole.seq (srow_year r) (Whole.Int y))
                    (customSchedule st)))
              (js "0")))
        0
  end.

(** The loop of lines 286-293: [k] iterations from index [i] on. The
    index stays below 200, where [i++] is exact. *)
Fixpoint scheduleLoop (st : State) (py : Z) (k : nat) (i : Z)
    (scheduled : list ScheduleEntry) : list ScheduleEntry :=
  match k with
  | O => scheduled
  | Datatypes.S k' =>
      let y := Whole.nearest (py + i)%Z in
      let area := scheduleArea st y in
      scheduleLoop st py k' (i + 1)%Z
        (scheduled ++ [{| sch_year := y; sch_areaHa := Num.max 0 area |}])
  end.

(** [scheduled], lines 283-297. With [n] NaN the loop condition [i < n]
    is false at once. *)
Definition scheduled (st : State) (py : Z) : list ScheduleEntry :=
  if useSchedule st then
    match clampInt (parseInt (Str.or_else (scheduleYears st) (js "0"))) 0 200 with
    | Some n => scheduleLoop st py (Z.to_nat n) 0%Z []
    | None => []
    end
  else
    let areaTotal := Num.or_else (parseFloat (Str.or_else (projectAreaHa st) (js "0"))) 0 in
    [{| sch_year := py; sch_areaHa := Num.max 0 areaTotal |}].

(** [useCustom], line 309: a custom equation is switched on and not
    empty. *)
Definition useCustom (r : SpeciesRow) : bool :=
  match row_useCustomEq r with Some true => true | _ => false end
  && Str.opt_truthy (row_customEquation r).

(** The per-species biomass function [eq], lines 310-317. *)
Definition eq (r : SpeciesRow) (D : float) : float :=
  let default := defaultAllometryBiomassKg D (row_region r) in
  if useCustom r then
    let v := evalBiomassExpr D (Str.opt_or_else (row_customEquation r) (js "")) in
    if negb (Num.isNaN v) && Num.ge v 0 then v else default
  else default.

(** The resolved growth rate [gr], line 305. *)
Definition gr (st : State) (r : SpeciesRow) : float :=
  Num.or_else (parseFloat (Str.opt_or_else (row_growthRateCmYr r) (js ""))) (defaultGR st).

(** The callback of [rows.map], lines 300-329. *)
Definition setupRow (st : State) (r : SpeciesRow) : SpeciesSetup :=
  let densityHa :=
    match row_inputMode r with
    | densityMode => Num.max 0 (parseFloat (Str.opt_or_else (row_density r) (js "0")))
    | spacingMode => densityFromSpacing (parseFloat (Str.opt_or_else (row_spacing r) (js "0")))
    end in
  let d0 := Num.or_else (parseFloat (Str.opt_or_else (row_initialDbhCm r) (js "0"))) 0 in
  {| sp_id := row_id r;
     sp_name := Str.or_else (row_name r) (js "Unnamed");
     sp_region := row_region r;
     sp_percent := clamp (parseFloat (Str.or_else (row_percent r) (js "0"))) 0 100;
     sp_densityHa := densityHa;
     sp_growthRateCmYr := gr st r;
     sp_initialDbhCm := d0;
     sp_biomassFn := eq r |}.

Definition speciesSetup (st : State) : list SpeciesSetup := map (setupRow st) (rows st).

(** What one cohort of one species contributes at [cohortAge], lines
    358-376: surviving trees, diameter, biomass and credits. *)
Record Contribution := {
  c_surviving : float;
  c_dbh : float;
  c_biomassKg : float;
  c_CO2eT : float
}.

Definition contribution (force : bool) (mort : float) (sch : ScheduleEntry)
    (sp : SpeciesSetup) (cohortAge : Z) : Contribution :=
  let areaForSpeciesHa := (sp_percent sp / 100) * sch_areaHa sch in
  let initialTrees := areaForSpeciesHa * sp_densityHa sp in
  let surviving := initialTrees * Math_pow (1 - mort) (Num.of_Z cohortAge) in
  let dbh := sp_initialDbhCm sp + sp_growthRateCmYr sp * Num.of_Z cohortAge in
  let dbh := if force && (cohortAge =? 0)%Z then 0 else dbh in
  let biomassPerTreeKg := sp_biomassFn sp dbh in
  let speciesBiomassKg := biomassPerTreeKg * surviving in
  let speciesBiomassKg := if force && (cohortAge =? 0)%Z then 0 else speciesBiomassKg in
  let speciesCO2eT := kgBiomassToTonsCO2e speciesBiomassKg in
  {| c_surviving := surviving; c_dbh := dbh;
     c_biomassKg := speciesBiomassKg; c_CO2eT := speciesCO2eT |}.

(** [perSpeciesAgg[idx]] after lines 382-385. *)
Definition addToSpecies (c : Contribution) (p : PerSpecies) : PerSpecies :=
  {| ps_speciesId := ps_speciesId p;
     ps_name := ps_name p;
     ps_credits := ps_credits p + c_CO2eT c;
     ps_biomassKg := ps_biomassKg p + c_biomassKg c;
     ps_survivingTrees := ps_survivingTrees p + c_surviving c;
     ps_dbhCm := c_dbh c |}.

(** The callback of [speciesSetup.forEach], lines 355-386. *)
Definition speciesStep (force : bool) (mort : float) (sch : ScheduleEntry) (cohortAge : Z)
    (acc : YearAcc) (idx : nat) (sp : SpeciesSetup) : YearAcc :=
  if Num.le (sp_percent sp) 0 then acc
  else
    let c := contribution force mort sch sp cohortAge in
    {| totalBiomassKg := totalBiomassKg acc + c_biomassKg c;
       totalCreditsT := totalCreditsT acc + c_CO2eT c;
       totalTrees := totalTrees acc + c_surviving c;
       perSpeciesAgg := alter (addToSpecies c) idx (perSpeciesAgg acc) |}.

(** The callback of [scheduled.forEach], lines 350-387. *)
Definition cohortStep (force : bool) (mort : float) (setup : list SpeciesSetup)
    (py g : Z) (acc : YearAcc) (sch : ScheduleEntry) : YearAcc :=
  let cohortStartIdx := Whole.nearest (sch_year sch - py)%Z in
  if (g <? cohortStartIdx)%Z then acc
  else
    let cohortAge := Whole.nearest (g - cohortStartIdx)%Z in
    forEachIdx (speciesStep force mort sch cohortAge) O setup acc.

Definition initAgg (s : SpeciesSetup) : PerSpecies :=
  {| ps_speciesId := sp_id s; ps_name := sp_name s;
     ps_credits := 0; ps_biomassKg := 0; ps_survivingTrees := 0; ps_dbhCm := 0 |}.

(** The body of the year loop, lines 335-389: the record pushed for
    model year [g]. *)
Definition yearRecord (force : bool) (mort : float) (sched : list ScheduleEntry)
    (setup : list SpeciesSetup) (py g : Z) : YearRecord :=
  let year := Whole.nearest (py + g)%Z in
  let acc0 := {| totalBiomassKg := 0; totalCreditsT := 0; totalTrees := 0;
                 perSpeciesAgg := map initAgg setup |} in
  let acc := fold_left (cohortStep force mort setup py g) sched acc0 in
  {| yr_year := year; yr_credits := totalCreditsT acc; yr_biomassKg := totalBiomassKg acc;
     yr_survivingTrees := totalTrees acc; yr_perSpecies := perSpeciesAgg acc |}.

(** The most an array holds: [push] on an array of 2^32 - 1 elements
    throws a RangeError (invalid array length). *)
Definition maxArrayLength : Z := (2 ^ 32 - 1)%Z.

(** How the loop of line 334 ends: it leaves [yearly], or the [push] of
    line 389 throws. *)
Inductive LoopEnd :=
  | Completed (yearly : list YearRecord)
  | InvalidArrayLength.

(** The loop of line 334, [for (let g = 0; g <= nYears; g++)], with the
    [yearly.push] of line 389, run for at most [fuel] rounds: [None] when
    these do not suffice. [g++] is an addition of Numbers. *)
Fixpoint yearLoop (fuel : nat) (body : Z -> YearRecord) (nYears : Whole.t) (g : Z)
    (yearly : list YearRecord) : option LoopEnd :=
  match fuel with
  | O => None
  | Datatypes.S fuel' =>
      if Whole.leb (Whole.Int g) nYears
      then
        if (maxArrayLength <=? Z.of_nat (length yearly))%Z then Some InvalidArrayLength
        else yearLoop fuel' body nYears (Whole.nearest (g + 1)%Z) (yearly ++ [body g])
      else Some (Completed yearly)
  end.

(** [nYears], line 274. *)
Definition nYears (st : State) : Whole.t :=
  Whole.sub (parseInt (creditingEndYear st)) (parseInt (plantingYear st)).

(** The loop has more rounds than the array holds records. *)
Definition tooMany (nYears : Whole.t) : bool :=
  match nYears with
  | Whole.Int n => (maxArrayLength <=? n)%Z
  | Whole.Infinity false => true
  | _ => false
  end.

(** A number of rounds the loop does not get beyond: one for each year and
    the one that ends it, and no more than the array allows. *)
Definition rounds (nYears : Whole.t) : nat :=
  match nYears with
  | Whole.Int n => Datatypes.S (Z.to_nat (Z.min n maxArrayLength + 1))
  | Whole.Infinity false => Datatypes.S (Z.to_nat (maxArrayLength + 1))
  | _ => 1%nat
  end.

(** The loop of lines 331-390 on a state. With an infinite planting year
    the loop has no round at all ([nYears] is NaN or [-Infinity]) or has
    them until [push] throws ([nYears] is [+Infinity]); its records are not
    built then. *)
Definition runLoop (st : State) : option LoopEnd :=
  match parseInt (plantingYear st) with
  | Whole.Int py =>
      yearLoop (rounds (nYears st))
        (yearRecord (forceYearZeroZero st) (mort st) (scheduled st py) (speciesSetup st) py)
        (nYears st) 0%Z []
  | _ => if Whole.leb (Whole.Int 0) (nYears st) then Some InvalidArrayLength
         else Some (Completed [])
  end.

(** [yearly] after the loop (the empty array stands in when [push]
    throws). *)
Definition yearly (st : State) : list YearRecord :=
  match runLoop st with
  | Some (Completed yearly) => yearly
  | _ => []
  end.

(** [sumSpecies], lines 397-400. *)
Definition sumSpecies (yearly : list YearRecord) (sp : SpeciesSetup) : float :=
  fold_left
    (fun sum d =>
       match List.find (fun p => Str.eqb (ps_speciesId p) (sp_id sp)) (yr_perSpecies d) with
       | Some ps => sum + ps_credits ps
       | None => sum + 0
       end)
    yearly 0.

(** The value handed to [setCalc], lines 392-404, from the array [yearly]. *)
Definition resultOf (st : State) (yearly : list YearRecord) : CalcResult :=
  let totalCreditsAll := fold_left (fun sum d => sum + yr_credits d) yearly 0 in
  let speciesSummary :=
    map (fun sp => {| st_speciesId := sp_id sp; st_name := sp_name sp;
                      st_totalCredits := sumSpecies yearly sp |})
      (speciesSetup st) in
  {| totalCredits := totalCreditsAll; yearlyBreakdown := yearly;
     speciesSummary := speciesSummary |}.

(** What [calculate] stores when its loop is completed. *)
Definition calcResult (st : State) : CalcResult := resultOf st (yearly st).

(** How a run of [calculate] ends: with an error message and the [calc]
    cell left as it was, with a RangeError thrown by [push] and the cell
    left as it was, or with a result stored in the cell. ([Unfinished]: the
    rounds given to the loop did not suffice; this does not occur.) *)
Inductive Outcome :=
  | Rejected (err : ValidationError)
  | Thrown
  | Stored (res : CalcResult)
  | Unfinished.

(** [calculate()], lines 268-405. *)
Definition calculate (st : State) : Outcome :=
  match validate st with
  | Some err => Rejected err
  | None =>
      match runLoop st with
      | Some (Completed yearly) => Stored (resultOf st yearly)
      | Some InvalidArrayLength => Thrown
      | None => Unfinished
      end
  end.

End Calculation.

(** ** The contributions of a model year, read off the loops

    Which cohorts and species the nested [forEach] of lines 350-387 reach in
    model year [g], in the order it reaches them. *)

Section Reading.
Context `{Host}.

(** The cohort of [sch] is planted by model year [g] (line 352). *)
Definition active (py g : Z) (sch : ScheduleEntry) : bool :=
  negb (g <? Whole.nearest (sch_year sch - py)).

Definition cohortAge (py g : Z) (sch : ScheduleEntry) : Z :=
  Whole.nearest (g - Whole.nearest (sch_year sch - py)).

(** The species is not skipped by line 356. *)
Definition counted (sp : SpeciesSetup) : bool := negb (Num.le (sp_percent sp) 0).

(** What the cohort of [sch] contributes in year [g], species by species. *)
Definition cohortContributions (force : bool) (mort : float) (setup : list SpeciesSetup)
    (py g : Z) (sch : ScheduleEntry) : list Contribution :=
  map (fun sp => contribution force mort sch sp (cohortAge py g sch))
    (List.filter counted setup).

(** All contributions of year [g], cohort by cohort. *)
Definition yearContributions (force : bool) (mort : float) (sched : list ScheduleEntry)
    (setup : list SpeciesSetup) (py g : Z) : list Contribution :=
  flat_map (cohortContributions force mort setup py g) (List.filter (active py g) sched).

(** The contributions of one species in year [g], cohort by cohort. *)
Definition speciesContributions (force : bool) (mort : float) (sched : list ScheduleEntry)
    (py g : Z) (sp : SpeciesSetup) : list Contribution :=
  map (fun sch => contribution force mort sch sp (cohortAge py g sch))
    (List.filter (active py g) sched).


(** The three running totals of a year, and what a contribution adds to
    them (lines 378-380). *)
Definition totals (acc : YearAcc) : float * float * float :=
  (totalBiomassKg acc, totalCreditsT acc, totalTrees acc).

Definition addTotals (t : float * float * float) (c : Contribution) : float * float * float :=
  let '(b, k, n) := t in
  (b + c_biomassKg c, k + c_CO2eT c, n + c_surviving c)%float.

(** What line 356 and lines 382-385 do to the entry of species [sp]. *)
Definition stepAt (force : bool) (mort : float) (sch : ScheduleEntry) (age : Z)
    (sp : SpeciesSetup) (p : PerSpecies) : PerSpecies :=
  if counted sp then addToSpecies (contribution force mort sch sp age) p else p.

(** What one schedule entry does to the entry of species [sp] in year [g]. *)
Definition cohortAt (force : bool) (mort : float) (py g : Z)
    (sp : SpeciesSetup) (p : PerSpecies) (sch : ScheduleEntry) : PerSpecies :=
  if active py g sch then stepAt force mort sch (cohortAge py g sch) sp p else p.

(** Species, contributions, entries and records without a negative measure. *)
Definition goodSpecies (sp : SpeciesSetup) : Prop :=
  Sign.notNeg (sp_percent sp) /\ Sign.notNeg (sp_densityHa sp)
  /\ forall D, Sign.notNeg (sp_biomassFn sp D).

Definition goodContribution (c : Contribution) : Prop :=
  Sign.notNeg (c_surviving c) /\ Sign.notNeg (c_biomassKg c) /\ Sign.notNeg (c_CO2eT c).

Definition goodEntry (p : PerSpecies) : Prop :=
  Sign.notNeg (ps_credits p) /\ Sign.notNeg (ps_biomassKg p)
  /\ Sign.notNeg (ps_survivingTrees p).

Definition goodRecord (d : YearRecord) : Prop :=
  Sign.notNeg (yr_credits d) /\ Sign.notNeg (yr_biomassKg d)
  /\ Sign.notNeg (yr_survivingTrees d)
  /\ forall p, List.In p (yr_perSpecies d) -> goodEntry p.

End Reading.

(** ** A reference host

    One host to run the page on: [Math.exp], [Math.log] and [Math.pow]
    computed in binary64 arithmetic with the special values ECMA-262
    prescribes (21.3.2.14, 21.3.2.20 and 6.1.6.1.3), and an evaluator of
    function bodies [return (e);] whose [e] is an arithmetic expression over
    [D], numeric literals, [+ - * /], parentheses and calls of
    [Math.log/exp/sqrt/pow/min/max]. A body outside this fragment is
    reported as thrown. The theorems below hold of every host; this one
    serves the examples. *)

Module Ref.
Local Open Scope float_scope.

(** The Taylor polynomial of the exponential in Horner form:
    [1 + r/i * (1 + r/(i+1) * ...)], [k] factors deep. *)
Fixpoint expPoly (r : float) (k : nat) (i : Z) : float :=
  match k with
  | O => 1
  | S k' => 1 + (r / Num.of_Z i) * expPoly r k' (i + 1)%Z
  end.

Fixpoint squareN (k : nat) (x : float) : float :=
  match k with O => x | S k' => squareN k' (x * x) end.

(** [exp x] as the 4096th power of [exp (x / 4096)]. *)
Definition exp (x : float) : float :=
  if x =? infinity then infinity
  else if x =? neg_infinity then 0
  else let h := squareN 11 (expPoly (x / 4096) 14 1%Z) in h * h.

Definition ln2 : float := 0.6931471805599453.

(** [1/i + t2 * (1/(i+2) + t2 * ...)]: the series of
    [atanh t / t] in [t2 = t * t]. *)
Fixpoint atanhSeries (t2 : float) (k : nat) (i : Z) : float :=
  match k with
  | O => 0
  | S k' => 1 / Num.of_Z i + t2 * atanhSeries t2 k' (i + 2)%Z
  end.

(** [log x] from [x = m * 2^e] and [log m = 2 * atanh ((m-1)/(m+1))]. *)
Definition log (x : float) : float :=
  if (is_nan x || (x <? 0))%bool then nan
  else if x =? 0 then neg_infinity
  else if x =? infinity then infinity
  else if x =? 1 then 0
  else
    let '(m, e) := Z.frexp x in
    let t := (m - 1) / (m + 1) in
    Num.of_Z e * ln2 + 2 * (t * atanhSeries (t * t) 20 1%Z).

(** The integer a Number is, if it is one. *)
Definition toInteger (y : float) : option Z :=
  match Prim2SF y with
  | S754_zero _ => Some 0%Z
  | S754_finite s m e =>
      let v := (if (0 <=? e)%Z then Some (Z.pos m * 2 ^ e)
                else if (Z.pos m mod 2 ^ (- e) =? 0)%Z then Some (Z.pos m / 2 ^ (- e))
                else None)%Z in
      if s then option_map Z.opp v else v
  | _ => None
  end.

(** [Math.pow x y]: repeated multiplication at an integer exponent,
    [exp (y * log x)] elsewhere. *)
Definition pow (x y : float) : float :=
  if is_nan y then nan
  else if y =? 0 then 1
  else if is_nan x then nan
  else
    match toInteger y with
    | Some (Z.pos n) => Pos.iter_op mul n x
    | Some (Z.neg n) => 1 / Pos.iter_op mul n x
    | _ =>
        if is_infinity y then
          if abs x =? 1 then nan
          else if xorb (abs x <? 1) (y <? 0) then 0 else infinity
        else if x <? 0 then nan
        else exp (y * log x)
    end.

(** *** The evaluator of function bodies *)

Inductive token := TNum (v : float) | TId (name : jsstring) | TSym (c : jschar).

Local Open Scope N_scope.

Definition isIdStart (c : jschar) : bool :=
  ((65 <=? c) && (c <=? 90)) || ((97 <=? c) && (c <=? 122)) || (c =? 95) || (c =? 36).
Definition isIdPart (c : jschar) : bool := isIdStart c || Str.isDigit c || (c =? 46).

Fixpoint idPrefix (s : jsstring) : jsstring * jsstring :=
  match s with
  | c :: s' => if isIdPart c then let '(i, r) := idPrefix s' in (c :: i, r) else ([], s)
  | [] => ([], [])
  end.

(** A decimal literal at the start of [s] (which starts with a digit or
    with a point and a digit): its value and the rest. A literal with a
    superfluous leading zero is left out of the fragment. *)
Definition numberToken (s : jsstring) : option (float * jsstring) :=
  let '(ip, r1) := Parse.digits s in
  let '(fp, r2) := match r1 with 46 :: t => Parse.digits t | _ => ([], r1) end in
  let '(ex, r3) :=
    match r2 with
    | c :: t =>
        if (c =? 101) || (c =? 69) then
          let '(eneg, t') := Parse.sign t in
          match Parse.digits t' with
          | ([], _) => (0%Z, r2)
          | (ed, r) => ((if eneg then - Parse.digitsValue ed else Parse.digitsValue ed)%Z, r)
          end
        else (0%Z, r2)
    | [] => (0%Z, r2)
    end in
  match ip, r3 with
  | 48 :: _ :: _, _ => None
  | _, c :: _ =>
      if isIdPart c then None
      else Some (Parse.decimalToNumber false (Parse.digitsValue (ip ++ fp))
                   (ex - Z.of_nat (length fp)) (Z.of_nat (length (ip ++ fp))), r3)
  | _, [] =>
      Some (Parse.decimalToNumber false (Parse.digitsValue (ip ++ fp))
              (ex - Z.of_nat (length fp)) (Z.of_nat (length (ip ++ fp))), r3)
  end.

Definition startsNumber (s : jsstring) : bool :=
  match s with
  | c :: s' => Str.isDigit c || ((c =? 46) && match s' with d :: _ => Str.isDigit d | [] => false end)
  | [] => false
  end.

(** Two-character punctuators and comment openers, none of them in the
    fragment. *)
Definition doubled (c d : jschar) : bool :=
  ((c =? d) && ((c =? 43) || (c =? 45) || (c =? 42) || (c =? 47)))
  || ((c =? 47) && (d =? 42)).

Fixpoint tokenize (fuel : nat) (s : jsstring) : option (list token) :=
  match fuel with
  | O => match s with [] => Some [] | _ => None end
  | S fuel' =>
      match s with
      | [] => Some []
      | c :: s' =>
          if Str.isWhiteSpace c then tokenize fuel' s'
          else if startsNumber s then
            match numberToken s with
            | Some (v, r) => option_map (cons (TNum v)) (tokenize fuel' r)
            | None => None
            end
          else if isIdStart c then
            let '(i, r) := idPrefix s in option_map (cons (TId i)) (tokenize fuel' r)
          else if match s' with d :: _ => doubled c d | [] => false end then None
          else option_map (cons (TSym c)) (tokenize fuel' s')
      end
  end.

Definition parser := list token -> option (float * list token).

(** A chain [operand (op operand)*], folded to the left; [k] bounds the
    number of operators by the number of tokens. *)
Fixpoint binTail (operand : parser) (ops : jschar -> option (float -> float -> float))
    (k : nat) (acc : float) (ts : list token) : option (float * list token) :=
  match ts with
  | TSym c :: r =>
      match ops c, k with
      | Some f, S k' =>
          match operand r with
          | Some (v, r') => binTail operand ops k' (f acc v) r'
          | None => None
          end
      | Some _, O => None
      | None, _ => Some (acc, ts)
      end
  | _ => Some (acc, ts)
  end.

Definition chain (operand : parser) (ops : jschar -> option (float -> float -> float))
    : parser :=
  fun ts =>
    match operand ts with
    | Some (v, r) => binTail operand ops (length r) v r
    | None => None
    end.

Definition addOps (c : jschar) : option (float -> float -> float) :=
  if c =? 43 then Some add else if c =? 45 then Some sub else None.
Definition mulOps (c : jschar) : option (float -> float -> float) :=
  if c =? 42 then Some mul else if c =? 47 then Some div else None.

(** Prefix [-] and [+] in front of a primary expression. *)
Fixpoint unary (primary : parser) (k : nat) (ts : list token) : option (float * list token) :=
  match ts, k with
  | TSym c :: r, S k' =>
      if c =? 45 then
        match unary primary k' r with Some (v, r') => Some (opp v, r') | None => None end
      else if c =? 43 then unary primary k' r
      else primary ts
  | _, _ => primary ts
  end.

(** [e (, e)*] up to the closing parenthesis: the values, in order. *)
Fixpoint commaList (e : parser) (k : nat) (ts : list token) : option (list float * list token) :=
  match e ts with
  | Some (v, TSym c :: r) =>
      if c =? 41 then Some ([v], r)
      else if c =? 44 then
        match k with
        | S k' =>
            match commaList e k' r with
            | Some (vs, r') => Some (v :: vs, r')
            | None => None
            end
        | O => None
        end
      else None
  | _ => None
  end.

Definition arg (i : nat) (args : list float) : float := nth i args nan.

(** The call [name(args)], for the six functions the page rewrites to. *)
Definition call (name : jsstring) (args : list float) : option float :=
  if Str.eqb name (js "Math.log") then Some (log (arg 0 args))
  else if Str.eqb name (js "Math.exp") then Some (exp (arg 0 args))
  else if Str.eqb name (js "Math.sqrt") then Some (sqrt (arg 0 args))
  else if Str.eqb name (js "Math.pow") then Some (pow (arg 0 args) (arg 1 args))
  else if Str.eqb name (js "Math.min") then Some (fold_left Num.min args infinity)
  else if Str.eqb name (js "Math.max") then Some (fold_left Num.max args neg_infinity)
  else None.

(** An additive expression; [fuel] bounds the nesting of parentheses. *)
Fixpoint expr (D : float) (fuel : nat) (ts : list token) : option (float * list token) :=
  match fuel with
  | O => None
  | S fuel' =>
      let primary : parser := fun ts =>
        match ts with
        | TNum v :: r => Some (v, r)
        | TId name :: TSym c :: r =>
            if c =? 40 then
              match r with
              | TSym 41 :: r' => option_map (fun v => (v, r')) (call name [])
              | _ =>
                  match commaList (expr D fuel') (length r) r with
                  | Some (args, r') => option_map (fun v => (v, r')) (call name args)
                  | None => None
                  end
              end
            else if Str.eqb name (js "D") then Some (D, TSym c :: r) else None
        | TId name :: r => if Str.eqb name (js "D") then Some (D, r) else None
        | TSym c :: r =>
            if c =? 40 then
              match commaList (expr D fuel') (length r) r with
              | Some (vs, r') => Some (List.last vs nan, r')
              | None => None
              end
            else None
        | [] => None
        end in
      chain (chain (fun ts => unary primary (length ts) ts) mulOps) addOps ts
  end.

(** [new Function('D', body)(D)] for [body] of the form [return e;]. *)
Definition run (body : jsstring) (D : float) : completion :=
  match tokenize (S (length body)) body with
  | Some (TId name :: ts) =>
      if Str.eqb name (js "return") then
        match expr D (S (length ts)) ts with
        | Some (v, [TSym 59]) => ReturnNumber v
        | Some (v, []) => ReturnNumber v
        | _ => Throw
        end
      else Throw
  | _ => Throw
  end.

#[export] Instance host : Host := {|
  Math_exp := exp;
  Math_log := log;
  Math_pow := pow;
  runFunction := run
|}.

End Ref.

(** ** Sample inputs *)

Module Samples.
Local Open Scope string_scope.

Definition teak : SpeciesRow := {|
  row_id := js "k3x9q2a"; row_name := js "Teak"; row_region := dry;
  row_percent := js "100"; row_inputMode := spacingMode;
  row_spacing := Some (js "3"); row_density := None;
  row_growthRateCmYr := Some (js "0.2"); row_initialDbhCm := Some (js "0");
  row_useCustomEq := Some false; row_customEquation := Some (js "") |}.

(** One hectare of one species planted in 2025 and credited to 2027. *)
Definition base : State := {|
  projectAreaHa := js "1"; plantingYear := js "2025"; creditingEndYear := js "2027";
  mortalityRate := js "0"; considerMortality := yes; defaultGrowthRate := js "0.2";
  forceYearZeroZero := true; useSchedule := false; scheduleYears := js "5";
  scheduleMode := custom; constantAreaPerYear := js ""; customSchedule := [];
  rows := [teak] |}.

Definition mahogany : SpeciesRow := {|
  row_id := js "p0w4m7d"; row_name := js "Mahogany"; row_region := moist;
  row_percent := js "40"; row_inputMode := densityMode;
  row_spacing := None; row_density := Some (js "800");
  row_growthRateCmYr := Some (js ""); row_initialDbhCm := Some (js "1.5");
  row_useCustomEq := Some true;
  row_customEquation := Some (js "exp(-2 + 2.5*ln(D))") |}.

Definition teak60 : SpeciesRow := {|
  row_id := row_id teak; row_name := row_name teak; row_region := dry;
  row_percent := js "60"; row_inputMode := spacingMode;
  row_spacing := Some (js "3"); row_density := None;
  row_growthRateCmYr := Some (js "0.2"); row_initialDbhCm := Some (js "0");
  row_useCustomEq := Some false; row_customEquation := Some (js "") |}.

(** Two species, two hectares planted in each of 2025, 2026 and 2027, a
    tenth of the trees lost every year. *)
Definition staggered : State := {|
  projectAreaHa := js ""; plantingYear := js "2025"; creditingEndYear := js "2030";
  mortalityRate := js "10"; considerMortality := yes; defaultGrowthRate := js "0.5";
  forceYearZeroZero := true; useSchedule := true; scheduleYears := js "3";
  scheduleMode := constant; constantAreaPerYear := js "2"; customSchedule := [];
  rows := [teak60; mahogany] |}.

(** A species whose growth-rate override is negative. *)
Definition shrinking : SpeciesRow := {|
  row_id := row_id teak; row_name := row_name teak; row_region := dry;
  row_percent := js "100"; row_inputMode := spacingMode;
  row_spacing := Some (js "3"); row_density := None;
  row_growthRateCmYr := Some (js "-1"); row_initialDbhCm := Some (js "0");
  row_useCustomEq := Some false; row_customEquation := Some (js "") |}.

(** One hectare of [shrinking]. *)
Definition receding : State := {|
  projectAreaHa := js "1"; plantingYear := js "2025"; creditingEndYear := js "2027";
  mortalityRate := js "0"; considerMortality := yes; defaultGrowthRate := js "0.2";
  forceYearZeroZero := true; useSchedule := false; scheduleYears := js "5";
  scheduleMode := custom; constantAreaPerYear := js ""; customSchedule := [];
  rows := [shrinking] |}.

(** A spacing so small that its square underflows to zero, on a project
    of zero hectares. *)
Definition cramped : State := {|
  projectAreaHa := js "0"; plantingYear := js "2025"; creditingEndYear := js "2027";
  mortalityRate := js "0"; considerMortality := yes; defaultGrowthRate := js "0.2";
  forceYearZeroZero := true; useSchedule := false; scheduleYears := js "5";
  scheduleMode := custom; constantAreaPerYear := js ""; customSchedule := [];
  rows := [{| row_id := row_id teak; row_name := row_name teak; row_region := dry;
              row_percent := js "100"; row_inputMode := spacingMode;
              row_spacing := Some (js "1e-200"); row_density := None;
              row_growthRateCmYr := Some (js "0.2"); row_initialDbhCm := Some (js "0");
              row_useCustomEq := Some false; row_customEquation := Some (js "") |}] |}.

(** A crediting period of four centuries. *)
Definition centuries : State := {|
  projectAreaHa := js "1"; plantingYear := js "2000"; creditingEndYear := js "2400";
  mortalityRate := js "0"; considerMortality := yes; defaultGrowthRate := js "0.2";
  forceYearZeroZero := true; useSchedule := false; scheduleYears := js "5";
  scheduleMode := custom; constantAreaPerYear := js ""; customSchedule := [];
  rows := [teak] |}.


(** Years 2^53 apart. *)
Definition apart : State := {|
  projectAreaHa := js "1"; plantingYear := js "0";
  creditingEndYear := js "9007199254740992";
  mortalityRate := js "0"; considerMortality := yes; defaultGrowthRate := js "0.2";
  forceYearZeroZero := true; useSchedule := false; scheduleYears := js "5";
  scheduleMode := custom; constantAreaPerYear := js ""; customSchedule := [];
  rows := [teak] |}.


End Samples.

(** ** The rest of the page: schedule table, species rows, displayed sums *)

(** The state with its schedule table replaced: [setCustomSchedule(cs)]. *)
Definition withCustomSchedule (st : State) (cs : list ScheduleRow) : State := {|
  projectAreaHa := projectAreaHa st; plantingYear := plantingYear st;
  creditingEndYear := creditingEndYear st; mortalityRate := mortalityRate st;
  considerMortality := considerMortality st; defaultGrowthRate := defaultGrowthRate st;
  forceYearZeroZero := forceYearZeroZero st; useSchedule := useSchedule st;
  scheduleYears := scheduleYears st; scheduleMode := scheduleMode st;
  constantAreaPerYear := constantAreaPerYear st; customSchedule := cs;
  rows := rows st |}.

(** The state with its species rows replaced: [setRows(rs)]. *)
Definition withRows (st : State) (rs : list SpeciesRow) : State := {|
  projectAreaHa := projectAreaHa st; plantingYear := plantingYear st;
  creditingEndYear := creditingEndYear st; mortalityRate := mortalityRate st;
  considerMortality := considerMortality st; defaultGrowthRate := defaultGrowthRate st;
  forceYearZeroZero := forceYearZeroZero st; useSchedule := useSchedule st;
  scheduleYears := scheduleYears st; scheduleMode := scheduleMode st;
  constantAreaPerYear := constantAreaPerYear st; customSchedule := customSchedule st;
  rows := rs |}.

(** The area kept for year [y] by the refresh of the schedule table, lines
    204-205: that of the first row of the old table with this year, or the
    empty string. No row has the year NaN, in the sense of [===]. *)
Definition keptArea (old : list ScheduleRow) (y : Whole.t) : jsstring :=
  match List.find (fun r => Whole.seq (srow_year r) y) old with
  | Some prev => srow_areaHa prev
  | None => []
  end.

(** The loop of lines 202-206, [k] iterations from index [i] on. The index
    stays below 200, where [i++] is exact. *)
Fixpoint refreshLoop (old : list ScheduleRow) (py : Whole.t) (k : nat) (i : Z)
    (rowsBuilt : list ScheduleRow) : list ScheduleRow :=
  match k with
  | O => rowsBuilt
  | S k' =>
      let y := Whole.add py (Whole.Int i) in
      refreshLoop old py k' (i + 1)%Z
        (rowsBuilt ++ [{| srow_year := y; srow_areaHa := keptArea old y |}])
  end.

(** The effect of lines 197-209: the schedule table after a change of
    [useSchedule], [plantingYear], [scheduleYears] or [scheduleMode]. With a
    NaN count the loop does not run. *)
Definition refreshSchedule (st : State) : list ScheduleRow :=
  if negb (useSchedule st) then []
  else
    let py := parseInt (Str.or_else (plantingYear st) (js "0")) in
    match clampInt (parseInt (Str.or_else (scheduleYears st) (js "0"))) 0 200 with
    | None => []
    | Some n => refreshLoop (customSchedule st) py (Z.to_nat n) 0%Z []
    end.

(** The years of the rows the refresh builds, line 203: they depend on the
    planting year and the number of schedule years only. *)
Definition refreshedYears (st : State) : list Whole.t :=
  if negb (useSchedule st) then []
  else
    match clampInt (parseInt (Str.or_else (scheduleYears st) (js "0"))) 0 200 with
    | None => []
    | Some n =>
        (fun j => Whole.add (parseInt (Str.or_else (plantingYear st) (js "0"))) (Whole.Int j))
        <$> seqZ 0 n
    end.

(** The row pushed for year [y], line 205. *)
Definition builtRow (old : list ScheduleRow) (y : Whole.t) : ScheduleRow :=
  {| srow_year := y; srow_areaHa := keptArea old y |}.

(** The [onChange] of a cell of the schedule table, lines 644-651:
    [copy[idx] = { ...copy[idx], areaHa: v }]. The table renders one cell
    per row, so [idx] is an index of [prev]; at an index beyond it the
    source would store a row without a year, which is outside the model
    ([None]). *)
Definition editScheduleArea (idx : nat) (v : jsstring) (prev : list ScheduleRow)
    : option (list ScheduleRow) :=
  match prev !! idx with
  | Some r => Some (<[idx := {| srow_year := srow_year r; srow_areaHa := v |}]> prev)
  | None => None
  end.

(** [scheduleSum], lines 461-468: the "Scheduled total area" of the page. *)
Definition scheduleSum (st : State) : float :=
  if negb (useSchedule st) then 0%float
  else
    match scheduleMode st with
    | constant =>
        let n := match clampInt (parseInt (Str.or_else (scheduleYears st) (js "0"))) 0 200 with
                 | Some n => Num.of_Z n
                 | None => Num.NaN
                 end in
        (n * Num.or_else (parseFloat (Str.or_else (constantAreaPerYear st) (js "0"))) 0)%float
    | custom =>
        fold_left
          (fun s r =>
             (s + Num.or_else (parseFloat (Str.or_else (srow_areaHa r) (js "0"))) 0)%float)
          (customSchedule st) 0%float
    end.

(** A [Partial<SpeciesRow>]: the fields a patch sets. *)
Record RowPatch := {
  patch_id : option jsstring;
  patch_name : option jsstring;
  patch_region : option RegionType;
  patch_percent : option jsstring;
  patch_inputMode : option DensityMode;
  patch_spacing : option jsstring;
  patch_density : option jsstring;
  patch_growthRateCmYr : option jsstring;
  patch_initialDbhCm : option jsstring;
  patch_useCustomEq : option bool;
  patch_customEquation : option jsstring
}.

Definition patched {A : Type} (p : option A) (old : A) : A :=
  match p with Some v => v | None => old end.

Definition patchedOpt {A : Type} (p : option A) (old : option A) : option A :=
  match p with Some v => Some v | None => old end.

(** [{ ...r, ...patch }], line 229. *)
Definition applyPatch (r : SpeciesRow) (patch : RowPatch) : SpeciesRow := {|
  row_id := patched (patch_id patch) (row_id r);
  row_name := patched (patch_name patch) (row_name r);
  row_region := patched (patch_region patch) (row_region r);
  row_percent := patched (patch_percent patch) (row_percent r);
  row_inputMode := patched (patch_inputMode patch) (row_inputMode r);
  row_spacing := patchedOpt (patch_spacing patch) (row_spacing r);
  row_density := patchedOpt (patch_density patch) (row_density r);
  row_growthRateCmYr := patchedOpt (patch_growthRateCmYr patch) (row_growthRateCmYr r);
  row_initialDbhCm := patchedOpt (patch_initialDbhCm patch) (row_initialDbhCm r);
  row_useCustomEq := patchedOpt (patch_useCustomEq patch) (row_useCustomEq r);
  row_customEquation := patchedOpt (patch_customEquation patch) (row_customEquation r) |}.

(** The row [addRow] appends, lines 223-226; [id] is what [uid()] returned. *)
Definition blankRow (id : jsstring) : SpeciesRow := {|
  row_id := id; row_name := []; row_region := dry; row_percent := [];
  row_inputMode := spacingMode; row_spacing := Some []; row_density := None;
  row_growthRateCmYr := Some []; row_initialDbhCm := Some (js "0");
  row_useCustomEq := Some false; row_customEquation := Some [] |}.

(** [addRow], [removeRow] and [updateRow], lines 223-229, as functions of
    the previous rows. *)
Definition addRow (id : jsstring) (prev : list SpeciesRow) : list SpeciesRow :=
  prev ++ [blankRow id].

Definition removeRow (id : jsstring) (prev : list SpeciesRow) : list SpeciesRow :=
  List.filter (fun r => negb (Str.eqb (row_id r) id)) prev.

Definition updateRow (id : jsstring) (patch : RowPatch) (prev : list SpeciesRow)
    : list SpeciesRow :=
  map (fun r => if Str.eqb (row_id r) id then applyPatch r patch else r) prev.

(** What [validate] asks of a species row, lines 244-248. *)
Definition rowFilled (r : SpeciesRow) : Prop :=
  Str.truthy (row_name r) = true
  /\ Str.truthy (row_percent r) = true
  /\ match row_inputMode r with
     | spacingMode => Str.opt_truthy (row_spacing r) = true
     | densityMode => Str.opt_truthy (row_density r) = true
     end
  /\ (row_useCustomEq r = Some true -> Str.opt_truthy (row_customEquation r) = true).

(** What [validate] asks of the schedule, lines 251-263. *)
Definition scheduleFilled (st : State) : Prop :=
  if useSchedule st then
    match scheduleMode st with
    | constant =>
        clampInt (parseInt (Str.or_else (scheduleYears st) (js "0"))) 0 200 <> Some 0%Z
        /\ Str.truthy (constantAreaPerYear st) = true
    | custom =>
        (exists n, clampInt (parseInt (Str.or_else (scheduleYears st) (js "0"))) 0 200 = Some n
                   /\ (0 < n)%Z /\ Z.of_nat (length (customSchedule st)) = n)
        /\ Forall (fun r => Str.truthy (srow_areaHa r) = true
                            /\ Num.lt (parseFloat (srow_areaHa r)) 0 = false)
             (customSchedule st)
    end
  else Str.truthy (projectAreaHa st) = true.

(** All that [validate] asks, lines 233-263. *)
Definition accepted (st : State) : Prop :=
  Str.truthy (plantingYear st) = true
  /\ Str.truthy (creditingEndYear st) = true
  /\ Whole.isNaN (parseInt (plantingYear st)) = false
  /\ Whole.isNaN (parseInt (creditingEndYear st)) = false
  /\ Whole.ltb (parseInt (creditingEndYear st)) (parseInt (plantingYear st)) = false
  /\ rows st <> []
  /\ Num.le (totalPercent st) 0 = false
  /\ Num.gt (totalPercent st) 100 = false
  /\ Forall rowFilled (rows st)
  /\ scheduleFilled st.

(** The body [evalBiomassExpr] hands to [new Function], lines 115-143, or
    [None] when one of its guards returns NaN before that. *)
Definition functionBody (exprRaw : jsstring) : option jsstring :=
  if negb (Str.truthy exprRaw) then None
  else
    let expr := Str.trim exprRaw in
    if negb (allowed expr) then None
    else
      let expr := rewrite expr in
      if blocked expr then None
      else Some (js "return (" ++ expr ++ js ");").

(** The data of the chart, lines 408-438. [labels] are the years (the
    source renders each with [toString]); [totalSeries] is the data of
    the first dataset, line 415; [speciesSeries calc r] is the [series] of
    row [r], lines 424-427. The rows are those of the current state, the
    result that of the last [calculate]. *)
Definition chartLabels (calc : CalcResult) : list Z :=
  map yr_year (yearlyBreakdown calc).

Definition totalSeries (calc : CalcResult) : list float :=
  map yr_credits (yearlyBreakdown calc).

Definition speciesSeries (calc : CalcResult) (r : SpeciesRow) : list float :=
  map (fun d =>
         match List.find (fun p => Str.eqb (ps_speciesId p) (row_id r)) (yr_perSpecies d) with
         | Some ps => ps_credits ps
         | None => 0%float
         end)
    (yearlyBreakdown calc).

(** Custom schedules with their tables. *)
Module MoreSamples.

(** Three years, the table filled in. *)

Definition tabled : State := {|
  projectAreaHa := js ""; plantingYear := js "2025"; creditingEndYear := js "2030";
  mortalityRate := js "10"; considerMortality := yes; defaultGrowthRate := js "0.5";
  forceYearZeroZero := true; useSchedule := true; scheduleYears := js "3";
  scheduleMode := custom; constantAreaPerYear := js "";
  customSchedule := [ {| srow_year := Whole.Int 2025; srow_areaHa := js "1.5" |};
                      {| srow_year := Whole.Int 2026; srow_areaHa := js "0" |};
                      {| srow_year := Whole.Int 2027; srow_areaHa := js "2.25" |} ];
  rows := [Samples.teak60; Samples.mahogany] |}.

(** A patch that renames a row. *)
Definition rename (name : jsstring) : RowPatch := {|
  patch_id := None; patch_name := Some name; patch_region := None; patch_percent := None;
  patch_inputMode := None; patch_spacing := None; patch_density := None;
  patch_growthRateCmYr := None; patch_initialDbhCm := None; patch_useCustomEq := None;
  patch_customEquation := None |}.

(** [tabled] after the number of schedule years was raised to 4: the
    table still has its three rows. *)
Definition extended : State := {|
  projectAreaHa := js ""; plantingYear := js "2025"; creditingEndYear := js "2030";
  mortalityRate := js "10"; considerMortality := yes; defaultGrowthRate := js "0.5";
  forceYearZeroZero := true; useSchedule := true; scheduleYears := js "4";
  scheduleMode := custom; constantAreaPerYear := js "";
  customSchedule := customSchedule tabled;
  rows := [Samples.teak60; Samples.mahogany] |}.

(** [tabled] with a planting year that [parseInt] does not read. *)
Definition unread : State := {|
  projectAreaHa := js ""; plantingYear := js ".5"; creditingEndYear := js "2030";
  mortalityRate := js "10"; considerMortality := yes; defaultGrowthRate := js "0.5";
  forceYearZeroZero := true; useSchedule := true; scheduleYears := js "3";
  scheduleMode := custom; constantAreaPerYear := js "";
  customSchedule := customSchedule tabled;
  rows := [Samples.teak60; Samples.mahogany] |}.

(** The table a refresh of [extended] builds. *)
Definition extendedTable : list ScheduleRow :=
  [ {| srow_year := Whole.Int 2025; srow_areaHa := js "1.5" |};
    {| srow_year := Whole.Int 2026; srow_areaHa := js "0" |};
    {| srow_year := Whole.Int 2027; srow_areaHa := js "2.25" |};
    {| srow_year := Whole.Int 2028; srow_areaHa := js "" |} ].

End MoreSamples.

(** * Properties *)

(** ** Signs under the IEEE operations *)

Module FloatFacts.
Import Sign.
Local Open Scope float_scope.

Lemma sf_sp_nn s : sf_sp s -> sf_nn s.
Proof. destruct s as [[]|[]| |[] ? ?]; simpl; tauto. Qed.

Lemma notNeg_spec x : notNeg x <-> sf_nn (Prim2SF x).
Proof.
  unfold notNeg. rewrite ltb_spec.
  change (Prim2SF 0) with (S754_zero false).
  destruct (Prim2SF x) as [[]|[]| |[] ? ?]; cbn; split; intros; auto; try discriminate; try contradiction.
Qed.

Lemma round_aux_sign s m e l :
  match binary_round_aux prec emax s m e l with
  | S754_zero s' | S754_infinity s' | S754_finite s' _ _ => s' = s
  | S754_nan => True
  end.
Proof.
  unfold binary_round_aux.
  destruct (shr_fexp prec emax m e l) as [mrs' e'].
  destruct (shr_fexp prec emax _ e' loc_Exact) as [mrs'' e''].
  destruct (shr_m mrs''); auto.
  destruct (Z.leb e'' _); auto.
Qed.

Lemma round_aux_sp m e l : sf_sp (binary_round_aux prec emax false m e l).
Proof.
  pose proof (round_aux_sign false m e l) as Hs.
  destruct (binary_round_aux prec emax false m e l) as [[]|[]| |[] ? ?]; simpl; auto; discriminate.
Qed.

Lemma round_sp m e : sf_sp (binary_round prec emax false m e).
Proof.
  unfold binary_round. destruct (shl_align _ _ _). apply round_aux_sp.
Qed.

Lemma normalize_sp z e : (0 <= z)%Z -> sf_sp (binary_normalize prec emax z e false).
Proof.
  intros Hz. destruct z; simpl; [exact I | apply round_sp | lia].
Qed.

Lemma SFmul_nn a b : sf_nn a -> sf_nn b -> sf_nn (SF64mul a b).
Proof.
  destruct a as [[]|[]| |[] ma ea], b as [[]|[]| |[] mb eb]; simpl; try tauto;
    intros _ _; apply sf_sp_nn, round_aux_sp.
Qed.

Lemma SFmul_self_sp a : sf_sp (SF64mul a a).
Proof.
  destruct a as [[]|[]| |[] ma ea]; simpl; try tauto; apply round_aux_sp.
Qed.

Lemma SFadd_nn a b : sf_nn a -> sf_nn b -> sf_nn (SF64add a b).
Proof.
  destruct a as [[]|[]| |[] ma ea], b as [[]|[]| |[] mb eb]; simpl; try tauto;
    intros _ _; apply sf_sp_nn, round_sp.
Qed.

Lemma SFdiv_nn a b : sf_nn a -> sf_sp b -> sf_nn (SF64div a b).
Proof.
  destruct a as [[]|[]| |[] ma ea], b as [[]|[]| |[] mb eb]; simpl; try tauto;
    intros _ _.
  unfold SF64div, SFdiv.
  destruct (SFdiv_core_binary _ _ _ _ _ _) as [[mz ez] lz].
  apply sf_sp_nn, round_aux_sp.
Qed.
Lemma notNeg_mul x y : notNeg x -> notNeg y -> notNeg (x * y).
Proof. rewrite !notNeg_spec, mul_spec. apply SFmul_nn. Qed.

Lemma notNeg_add x y : notNeg x -> notNeg y -> notNeg (x + y).
Proof. rewrite !notNeg_spec, add_spec. apply SFadd_nn. Qed.

Lemma notNeg_div x y : notNeg x -> signPos y -> notNeg (x / y).
Proof. unfold signPos. rewrite !notNeg_spec, div_spec. apply SFdiv_nn. Qed.

Lemma signPos_square x : signPos (x * x).
Proof. unfold signPos. rewrite mul_spec. apply SFmul_self_sp. Qed.

Lemma signPos_notNeg x : signPos x -> notNeg x.
Proof. rewrite notNeg_spec. apply sf_sp_nn. Qed.

Lemma notNeg_square x : notNeg (x * x).
Proof. apply signPos_notNeg, signPos_square. Qed.

Lemma ltb_0_notNeg x : (0 <? x) = true -> notNeg x.
Proof.
  rewrite notNeg_spec, ltb_spec. change (Prim2SF 0) with (S754_zero false).
  destruct (Prim2SF x) as [[]|[]| |[] ? ?]; cbn; intros; auto; discriminate.
Qed.

Lemma leb_0_notNeg x : (0 <=? x) = true -> notNeg x.
Proof.
  rewrite notNeg_spec, leb_spec. change (Prim2SF 0) with (S754_zero false).
  destruct (Prim2SF x) as [[]|[]| |[] ? ?]; cbn; intros; auto; discriminate.
Qed.

Lemma SFeqb_refl_finite s m e : SFeqb (S754_finite s m e) (S754_finite s m e) = true.
Proof.
  unfold SFeqb, SFcompare.
  change (IntDef.Z.compare e e) with (Z.compare e e).
  change (PosDef.Pos.compare_cont Eq m m) with (Pos.compare_cont Eq m m).
  rewrite Z.compare_refl, Pos.compare_cont_refl. destruct s; reflexivity.
Qed.

Lemma is_nan_spec x :
  is_nan x = match Prim2SF x with S754_nan => true | _ => false end.
Proof.
  unfold is_nan. rewrite FloatAxioms.eqb_spec.
  destruct (Prim2SF x) as [[]|[]| |s m e]; try reflexivity.
  now rewrite SFeqb_refl_finite.
Qed.

Lemma notNeg_iff x : notNeg x <-> (Num.ge x 0 = true \/ Num.isNaN x = true).
Proof.
  unfold Num.ge, Num.isNaN. rewrite is_nan_spec, notNeg_spec, leb_spec.
  change (Prim2SF 0) with (S754_zero false).
  destruct (Prim2SF x) as [[]|[]| |[] m e]; cbn; intuition discriminate.
Qed.

Lemma notNeg_max0 x : notNeg (Num.max 0 x).
Proof.
  unfold Num.max.
  destruct (is_nan 0 || is_nan x)%bool; [reflexivity|].
  destruct (0 <? x) eqn:E; [now apply ltb_0_notNeg|].
  destruct (x <? 0); reflexivity.
Qed.

Lemma SFltb_asym a b : SFltb a b = true -> SFltb b a = false.
Proof.
  unfold SFltb, SFcompare.
  destruct a as [[]|[]| |[] ma ea], b as [[]|[]| |[] mb eb]; simpl;
    try discriminate; auto;
    change (IntDef.Z.compare ?a ?b) with (Z.compare a b);
    rewrite (Z.compare_antisym ea eb);
    (assert (HA : PosDef.Pos.compare_cont Eq mb ma
                  = CompOpp (PosDef.Pos.compare_cont Eq ma mb))
       by (symmetry; apply (Pos.compare_cont_antisym ma mb Eq)));
    rewrite HA;
    destruct (ea ?= eb)%Z; simpl; auto; try discriminate;
    destruct (PosDef.Pos.compare_cont Eq ma mb); simpl; auto; discriminate.
Qed.

Lemma ltb_asym x y : (x <? y) = true -> (y <? x) = false.
Proof. rewrite !ltb_spec. apply SFltb_asym. Qed.

(** [clamp n lo hi] does not exceed [hi] when [lo] does not. *)
Lemma clamp_le_hi n lo hi : (hi <? lo) = false -> (hi <? hi) = false ->
  (hi <? clamp n lo hi) = false.
Proof.
  intros Hlo Hhi. unfold clamp, Num.max, Num.min.
  assert (Hnan : (hi <? Num.NaN) = false).
  { rewrite ltb_spec. change (Prim2SF Num.NaN) with S754_nan.
    unfold SFltb, SFcompare. destruct (Prim2SF hi); reflexivity. }
  assert (Hmin : (hi <? (if (is_nan hi || is_nan n)%bool then Num.NaN
                    else if hi <? n then hi else if n <? hi then n
                    else if Num.is_neg_zero hi then hi else n)) = false).
  { destruct (is_nan hi || is_nan n)%bool; auto.
    destruct (hi <? n) eqn:E1; auto.
    destruct (n <? hi) eqn:E2; auto.
    destruct (Num.is_neg_zero hi); auto. }
  set (m := if (is_nan hi || is_nan n)%bool then _ else _) in *.
  destruct (is_nan lo || is_nan m)%bool; auto.
  destruct (lo <? m); auto.
  destruct (m <? lo); auto.
  destruct (Num.is_neg_zero lo); auto.
Qed.
Local Open Scope Z_scope.

Lemma digits2_size p : digits2_pos p = Pos.size p.
Proof. induction p; simpl; congruence. Qed.

Lemma iter_xO_pow m d : Z.pos (Pos.iter xO m d) = Z.pos m * 2 ^ Z.pos d.
Proof.
  induction d using Pos.peano_ind.
  - simpl. lia.
  - rewrite Pos.iter_succ, Pos2Z.inj_succ, Z.pow_succ_r by lia.
    rewrite Pos2Z.inj_xO, IHd. lia.
Qed.

Lemma shl_align_value m e e' : e' <= e ->
  Z.pos (fst (shl_align m e e')) = Z.pos m * 2 ^ (e - e').
Proof.
  intros He. unfold shl_align.
  change (IntDef.Z.sub e' e) with (e' - e).
  destruct (e' - e) eqn:E; simpl.
  - replace (e - e') with 0 by lia. lia.
  - lia.
  - rewrite iter_xO_pow. f_equal. f_equal. lia.
Qed.

(** A valid binary64 mantissa has at most 53 bits. *)
Lemma bounded_mantissa m e : bounded prec emax m e = true -> Z.pos m < 2 ^ 53.
Proof.
  unfold bounded, canonical_mantissa, fexp. intros Hb.
  apply andb_prop in Hb as [Hc _]. apply Z.eqb_eq in Hc.
  rewrite digits2_size in Hc.
  change (IntDef.Z.max ?a ?b) with (Z.max a b) in Hc.
  change (IntDef.Z.add ?a ?b) with (Z.add a b) in Hc.
  change (IntDef.Z.sub ?a ?b) with (Z.sub a b) in Hc.
  assert (Hs : Z.pos (Pos.size m) <= 53) by (unfold prec in Hc; lia).
  pose proof (Pos.size_gt m) as Hg.
  apply Pos2Z.pos_lt_pos in Hg. rewrite Pos2Z.inj_pow in Hg.
  eapply Z.lt_le_trans; [exact Hg|]. apply Z.pow_le_mono_r; lia.
Qed.

Lemma SFltb_one m e :
  SFltb sf_one (S754_finite false m e) = false ->
  e <= -52 /\ (e = -52 -> Z.pos m <= 2 ^ 52).
Proof.
  unfold SFltb, SFcompare, sf_one.
  change (IntDef.Z.compare ?a ?b) with (Z.compare a b).
  change (PosDef.Pos.compare_cont Eq ?a ?b) with (Pos.compare a b).
  change (2 ^ 52) with (Z.pos 4503599627370496).
  generalize 4503599627370496%positive. intros M Hlt.
  destruct (Z.compare_spec (-52) e) as [E|E|E]; try discriminate Hlt.
  - split; [lia|]. intros _.
    destruct (Pos.compare_spec M m) as [E'|E'|E']; try discriminate Hlt; lia.
  - lia.
Qed.

Lemma SFsub_one_nn m :
  valid_binary m = true -> SFltb sf_one m = false -> sf_nn (SF64sub sf_one m).
Proof.
  intros Hv Hlt.
  destruct m as [[]|[]| |[] mm em]; try exact I; try discriminate Hlt.
  - (* a negative finite subtrahend *)
    unfold SF64sub, SFsub, sf_one. apply sf_sp_nn, normalize_sp.
    unfold cond_Zopp. change (IntDef.Z.sub ?a ?b) with (Z.sub a b).
    change (IntDef.Z.opp ?a) with (Z.opp a).
    generalize (fst (shl_align 4503599627370496 (-52) (IntDef.Z.min (-52) em))).
    intros. lia.
  - (* a positive finite subtrahend, at most one *)
    simpl in Hv. apply bounded_mantissa in Hv.
    apply SFltb_one in Hlt as [He1 He2].
    unfold SF64sub, SFsub, sf_one. apply sf_sp_nn, normalize_sp.
    unfold cond_Zopp.
    change (IntDef.Z.min ?a ?b) with (Z.min a b).
    change (IntDef.Z.sub ?a ?b) with (Z.sub a b).
    rewrite Z.min_r by lia.
    rewrite !shl_align_value by lia.
    replace (em - em) with 0 by lia. rewrite Z.pow_0_r, Z.mul_1_r.
    change (Z.pos 4503599627370496) with (2 ^ 52).
    destruct (Z.eq_dec em (-52)) as [->|Hne].
    + specialize (He2 eq_refl). change (-52 - -52) with 0.
      rewrite Z.pow_0_r. lia.
    + assert (H1 : 2 ^ 1 <= 2 ^ (-52 - em)) by (apply Z.pow_le_mono_r; lia).
      assert (H2 : 2 ^ 53 = 2 ^ 52 * 2 ^ 1) by reflexivity.
      assert (H3 : 0 < 2 ^ 52) by reflexivity.
      revert Hv H1 H2 H3. generalize (2 ^ (-52 - em)) (2 ^ 52) (2 ^ 53) (2 ^ 1).
      intros. subst. nia.
Qed.

Local Close Scope Z_scope.
Local Open Scope float_scope.

Lemma notNeg_one_minus m : (1 <? m) = false -> notNeg (1 - m).
Proof.
  rewrite ltb_spec, notNeg_spec, sub_spec. intros Hlt.
  apply SFsub_one_nn; [apply Prim2SF_valid | exact Hlt].
Qed.

Lemma of_uint63_signPos n : signPos (of_uint63 n).
Proof.
  unfold signPos. rewrite of_uint63_spec. apply normalize_sp.
  apply Uint63.to_Z_bounded.
Qed.

Lemma notNeg_of_Z z : (0 <= z)%Z -> notNeg (Num.of_Z z).
Proof.
  intros Hz. unfold Num.of_Z.
  destruct (Z.ltb_spec z 0); [lia|]. apply signPos_notNeg, of_uint63_signPos.
Qed.

(** The guard of [defaultAllometryBiomassKg] lets through exactly the
    Numbers above zero. *)
Lemma allometry_guard D :
  (negb (Num.truthy D) || Num.isNaN D || Num.le D 0)%bool = negb (0 <? D).
Proof.
  unfold Num.truthy, Num.isNaN, Num.le, is_zero.
  rewrite is_nan_spec, FloatAxioms.eqb_spec, leb_spec, ltb_spec.
  change (Prim2SF PrimFloat.zero) with (S754_zero false).
  change (Prim2SF 0) with (S754_zero false).
  destruct (Prim2SF D) as [[]|[]| |[] m e]; reflexivity.
Qed.
End FloatFacts.

(** ** Rounding to the nearest Number *)

Module WholeFacts.
Import Whole.
Local Open Scope Z_scope.

Lemma ulp_pos z : 0 < ulp z.
Proof. unfold ulp. apply Z.pow_pos_nonneg; lia. Qed.

Lemma pow2_divide a b : 0 <= a <= b -> (2 ^ a | 2 ^ b).
Proof.
  intros Hab. exists (2 ^ (b - a)). rewrite <- Z.pow_add_r by lia. f_equal. lia.
Qed.

Lemma nearest_cases z :
  nearest z = z / ulp z * ulp z \/ nearest z = (z / ulp z + 1) * ulp z.
Proof.
  unfold nearest. cbv zeta.
  destruct (2 * (z mod ulp z) <? ulp z); [now left|].
  destruct (ulp z <? 2 * (z mod ulp z)); [now right|].
  destruct (Z.even (z / ulp z)); [now left | now right].
Qed.

Lemma nearest_exact z : z mod ulp z = 0 -> nearest z = z.
Proof.
  intros Hr. pose proof (ulp_pos z) as Hu.
  pose proof (Z.div_mod z (ulp z) ltac:(lia)) as Hd.
  unfold nearest. cbv zeta. rewrite Hr.
  destruct (2 * 0 <? ulp z) eqn:E; [lia|]. apply Z.ltb_ge in E. lia.
Qed.

Lemma nearest_small z : Z.abs z <= 2 ^ 53 -> nearest z = z.
Proof.
  intros Hz. destruct (Z.eq_dec (Z.abs z) (2 ^ 53)) as [E|E].
  - assert (z = 2 ^ 53 \/ z = - 2 ^ 53) as [-> | ->] by lia; reflexivity.
  - apply nearest_exact.
    assert (Hu : ulp z = 1).
    { unfold ulp.
      assert (Z.log2 (Z.abs z) < 53).
      { destruct (Z.eq_dec (Z.abs z) 0) as [-> | Hnz]; [reflexivity|].
        apply Z.log2_lt_pow2; lia. }
      now replace (Z.max 0 (Z.log2 (Z.abs z) - 52)) with 0 by lia. }
    rewrite Hu. apply Z.mod_1_r.
Qed.

Lemma nearest_ge_multiple z m : (ulp z | m) -> m <= z -> m <= nearest z.
Proof.
  intros [a ->] Hm. pose proof (ulp_pos z) as Hu.
  assert (a <= z / ulp z) by (apply Z.div_le_lower_bound; lia).
  destruct (nearest_cases z) as [-> | ->]; nia.
Qed.

Lemma nearest_le_multiple z m : (ulp z | m) -> z <= m -> nearest z <= m.
Proof.
  intros [a ->] Hm. pose proof (ulp_pos z) as Hu.
  pose proof (Z.div_mod z (ulp z) ltac:(lia)) as Hd.
  pose proof (Z.mod_pos_bound z (ulp z) Hu) as Hr.
  destruct (Z.eq_dec (z mod ulp z) 0) as [E|E].
  - rewrite (nearest_exact z E). exact Hm.
  - assert (z / ulp z < a) by nia.
    destruct (nearest_cases z) as [-> | ->]; nia.
Qed.

Lemma nearest_mono_same z1 z2 : ulp z1 = ulp z2 -> z1 <= z2 -> nearest z1 <= nearest z2.
Proof.
  intros Hu Hz. pose proof (ulp_pos z2) as Hp.
  pose proof (Z.div_mod z1 (ulp z2) ltac:(lia)) as Hd1.
  pose proof (Z.div_mod z2 (ulp z2) ltac:(lia)) as Hd2.
  pose proof (Z.mod_pos_bound z1 (ulp z2) Hp) as Hr1.
  pose proof (Z.mod_pos_bound z2 (ulp z2) Hp) as Hr2.
  assert (Hq : z1 / ulp z2 <= z2 / ulp z2) by (apply Z.div_le_mono; lia).
  unfold nearest. cbv zeta. rewrite Hu.
  set (u := ulp z2) in *. set (q1 := z1 / u) in *. set (q2 := z2 / u) in *.
  set (r1 := z1 mod u) in *. set (r2 := z2 mod u) in *.
  destruct (Z.eq_dec q1 q2) as [E|E].
  - rewrite E in *.
    destruct (2 * r1 <? u) eqn:A1; destruct (2 * r2 <? u) eqn:A2;
      destruct (u <? 2 * r1) eqn:B1; destruct (u <? 2 * r2) eqn:B2;
      destruct (Z.even q2); try nia;
      repeat match goal with
             | H : (_ <? _) = true |- _ => apply Z.ltb_lt in H
             | H : (_ <? _) = false |- _ => apply Z.ltb_ge in H
             end; try nia.
  - assert (q1 + 1 <= q2) by lia.
    destruct (2 * r1 <? u); destruct (2 * r2 <? u);
      destruct (u <? 2 * r1); destruct (u <? 2 * r2);
      destruct (Z.even q1); destruct (Z.even q2); nia.
Qed.

Lemma log2_bounds z : z <> 0 ->
  2 ^ Z.log2 (Z.abs z) <= Z.abs z < 2 ^ (Z.log2 (Z.abs z) + 1).
Proof.
  intros Hz. pose proof (Z.log2_spec (Z.abs z) ltac:(lia)) as Hs.
  now rewrite <- Z.add_1_r in Hs.
Qed.

Lemma ulp_divides_pow z k : Z.log2 (Z.abs z) <= k -> (ulp z | 2 ^ k).
Proof.
  intros Hk. unfold ulp. apply pow2_divide.
  pose proof (Z.log2_nonneg (Z.abs z)). lia.
Qed.

Lemma nearest_nonneg z : 0 <= z -> 0 <= nearest z.
Proof. intros Hz. apply nearest_ge_multiple; [apply Z.divide_0_r | exact Hz]. Qed.

Lemma nearest_nonpos z : z <= 0 -> nearest z <= 0.
Proof. intros Hz. apply nearest_le_multiple; [apply Z.divide_0_r | exact Hz]. Qed.

(** Rounding keeps the order. *)
Lemma nearest_mono z1 z2 : z1 <= z2 -> nearest z1 <= nearest z2.
Proof.
  intros Hz.
  destruct (Z.eq_dec (ulp z1) (ulp z2)) as [E|E]; [now apply nearest_mono_same|].
  destruct (Z_le_gt_dec z1 0) as [H1|H1]; destruct (Z_le_gt_dec 0 z2) as [H2|H2].
  - pose proof (nearest_nonpos z1 H1). pose proof (nearest_nonneg z2 H2). lia.
  - (* z1 <= z2 < 0 *)
    assert (Hn1 : z1 <> 0) by lia. assert (Hn2 : z2 <> 0) by lia.
    pose proof (log2_bounds z1 Hn1) as B1. pose proof (log2_bounds z2 Hn2) as B2.
    assert (HL : Z.log2 (Z.abs z2) <= Z.log2 (Z.abs z1)) by (apply Z.log2_le_mono; lia).
    assert (HL' : Z.log2 (Z.abs z2) < Z.log2 (Z.abs z1)).
    { destruct (Z.eq_dec (Z.log2 (Z.abs z2)) (Z.log2 (Z.abs z1))) as [El|El]; [|lia].
      exfalso. apply E. unfold ulp. now rewrite El. }
    set (P := - 2 ^ Z.log2 (Z.abs z1)).
    assert (Hpow : 2 ^ (Z.log2 (Z.abs z2) + 1) <= 2 ^ Z.log2 (Z.abs z1))
      by (apply Z.pow_le_mono_r; lia).
    assert (HP1 : nearest z1 <= P).
    { apply nearest_le_multiple; [|unfold P; lia].
      unfold P. apply Z.divide_opp_r. apply ulp_divides_pow. lia. }
    assert (HP2 : P <= nearest z2).
    { apply nearest_ge_multiple; [|unfold P; lia].
      unfold P. apply Z.divide_opp_r. apply ulp_divides_pow. lia. }
    lia.
  - (* 0 < z1 <= z2 *)
    assert (Hn1 : z1 <> 0) by lia. assert (Hn2 : z2 <> 0) by lia.
    pose proof (log2_bounds z1 Hn1) as B1. pose proof (log2_bounds z2 Hn2) as B2.
    assert (HL : Z.log2 (Z.abs z1) <= Z.log2 (Z.abs z2)) by (apply Z.log2_le_mono; lia).
    assert (HL' : Z.log2 (Z.abs z1) < Z.log2 (Z.abs z2)).
    { destruct (Z.eq_dec (Z.log2 (Z.abs z1)) (Z.log2 (Z.abs z2))) as [El|El]; [|lia].
      exfalso. apply E. unfold ulp. now rewrite El. }
    set (P := 2 ^ Z.log2 (Z.abs z2)).
    assert (Hpow : 2 ^ (Z.log2 (Z.abs z1) + 1) <= 2 ^ Z.log2 (Z.abs z2))
      by (apply Z.pow_le_mono_r; lia).
    assert (HP1 : nearest z1 <= P).
    { apply nearest_le_multiple; [|unfold P; lia].
      unfold P. apply ulp_divides_pow. lia. }
    assert (HP2 : P <= nearest z2).
    { apply nearest_ge_multiple; [|unfold P; lia].
      unfold P. apply ulp_divides_pow. lia. }
    lia.
  - lia.
Qed.

Lemma nearest_multiple z : (ulp z | nearest z).
Proof.
  destruct (nearest_cases z) as [-> | ->]; apply Z.divide_factor_r.
Qed.

(** A Number is rounded to itself. *)
Lemma nearest_idem z : nearest (nearest z) = nearest z.
Proof.
  destruct (Z.eq_dec z 0) as [-> | Hz]; [reflexivity|].
  apply nearest_exact. apply Z.mod_divide; [pose proof (ulp_pos (nearest z)); lia|].
  pose proof (log2_bounds z Hz) as B.
  set (L := Z.log2 (Z.abs z)) in *.
  assert (HL : 0 <= L) by apply Z.log2_nonneg.
  assert (D0 : (ulp z | 2 ^ L)) by (apply ulp_divides_pow; fold L; lia).
  assert (D1 : (ulp z | 2 ^ (L + 1))) by (apply ulp_divides_pow; fold L; lia).
  assert (Hb : 2 ^ L <= Z.abs (nearest z) <= 2 ^ (L + 1)).
  { destruct (Z_le_gt_dec 0 z) as [Hp|Hp].
    - pose proof (nearest_ge_multiple z (2 ^ L) D0 ltac:(lia)).
      pose proof (nearest_le_multiple z (2 ^ (L + 1)) D1 ltac:(lia)).
      assert (0 < 2 ^ L) by (apply Z.pow_pos_nonneg; lia). lia.
    - pose proof (nearest_le_multiple z (- 2 ^ L) (proj2 (Z.divide_opp_r _ _) D0) ltac:(lia)).
      pose proof (nearest_ge_multiple z (- 2 ^ (L + 1))
                    (proj2 (Z.divide_opp_r _ _) D1) ltac:(lia)).
      assert (0 < 2 ^ L) by (apply Z.pow_pos_nonneg; lia). lia. }
  destruct (Z.eq_dec (Z.abs (nearest z)) (2 ^ (L + 1))) as [E|E].
  - assert (Hd : (ulp (nearest z) | 2 ^ (L + 1))).
    { apply ulp_divides_pow. rewrite E, Z.log2_pow2 by lia. lia. }
    destruct (Z_le_gt_dec 0 (nearest z)) as [Hp|Hp].
    + assert (Hn : nearest z = 2 ^ (L + 1)) by lia.
      rewrite Hn in Hd |- *. exact Hd.
    + assert (Hn : nearest z = - 2 ^ (L + 1)) by lia.
      apply Z.divide_opp_r in Hd. rewrite Hn in Hd |- *. exact Hd.
  - assert (El : Z.log2 (Z.abs (nearest z)) = L) by (apply Z.log2_unique; lia).
    assert (Eu : ulp (nearest z) = ulp z) by (unfold ulp; fold L; now rewrite El).
    rewrite Eu. apply nearest_multiple.
Qed.

Lemma round_small z : Z.abs z <= 2 ^ 53 -> round z = Int z.
Proof.
  intros Hz. unfold round. rewrite (nearest_small z Hz).
  assert (H : 2 ^ 53 < 2 ^ 1024) by (apply Z.pow_lt_mono_r; lia).
  destruct (2 ^ 1024 <=? Z.abs z) eqn:E; [apply Z.leb_le in E; lia | reflexivity].
Qed.

(** What [round] returns is a Number. *)
Lemma round_Int z p : round z = Int p -> nearest p = p /\ Z.abs p < 2 ^ 1024.
Proof.
  unfold round. destruct (2 ^ 1024 <=? Z.abs (nearest z)) eqn:E; [discriminate|].
  intros [= <-]. split; [apply nearest_idem | now apply Z.leb_gt in E].
Qed.

Lemma add_Int a b p : add a b = Int p -> nearest p = p /\ Z.abs p < 2 ^ 1024.
Proof.
  destruct a as [|s|x], b as [|s'|y]; simpl; try discriminate;
    [destruct (Bool.eqb s s'); discriminate | apply round_Int].
Qed.

Lemma sub_small x y : Z.abs (x - y) <= 2 ^ 53 -> sub (Int x) (Int y) = Int (x - y).
Proof.
  intros H. unfold sub, opp, add. replace (x + - y) with (x - y) by lia.
  now apply round_small.
Qed.

Lemma add_small x y : Z.abs (x + y) <= 2 ^ 53 -> add (Int x) (Int y) = Int (x + y).
Proof. intros H. unfold add. now apply round_small. Qed.

Lemma number_le_max p : nearest p = p -> Z.abs p < 2 ^ 1024 -> Z.abs p <= maxNumber.
Proof.
  intros Hp Hb. unfold maxNumber.
  destruct (Z.eq_dec p 0) as [-> | Hz]; [vm_compute; discriminate|].
  pose proof (log2_bounds p Hz) as B.
  pose proof (nearest_multiple p) as Hd. rewrite Hp in Hd.
  assert (HL : Z.log2 (Z.abs p) < 1024) by (apply Z.log2_lt_pow2; lia).
  destruct (Z.eq_dec (Z.log2 (Z.abs p)) 1023) as [E|E].
  - assert (Hu : ulp p = 2 ^ 971) by (unfold ulp; rewrite E; reflexivity).
    rewrite Hu in Hd. destruct Hd as [a Ha].
    assert (H2 : 2 ^ 1024 = 2 ^ 53 * 2 ^ 971) by reflexivity.
    assert (Hpos : 0 < 2 ^ 971) by (apply Z.pow_pos_nonneg; lia).
    rewrite H2 in *. clear H2 HL B E Hu Hp Hz.
    set (u := 2 ^ 971) in *. clearbody u. subst p.
    rewrite Z.abs_mul, (Z.abs_eq u) in * by lia.
    set (A := Z.abs a) in *. clearbody A.
    set (K := 2 ^ 53) in *. clearbody K.
    assert (A < K) by nia. nia.
  - assert (2 ^ (Z.log2 (Z.abs p) + 1) <= 2 ^ 1023) by (apply Z.pow_le_mono_r; lia).
    assert (2 ^ 1023 <= 2 ^ 1024 - 2 ^ 971) by (vm_compute; discriminate). lia.
Qed.

(** Adding an index of a schedule to a year never overflows. *)
Lemma add_index p i : nearest p = p -> Z.abs p < 2 ^ 1024 -> 0 <= i <= 200 ->
  add (Int p) (Int i) = Int (nearest (p + i)).
Proof.
  intros Hp Hb Hi. pose proof (number_le_max p Hp Hb) as Hm.
  unfold add, round.
  assert (Hup : nearest (p + i) <= maxNumber).
  { transitivity (nearest (maxNumber + 200)); [apply nearest_mono; lia|].
    vm_compute. discriminate. }
  assert (Hlo : - maxNumber <= nearest (p + i)).
  { transitivity (nearest (- maxNumber)); [vm_compute; discriminate|].
    apply nearest_mono. lia. }
  assert (maxNumber < 2 ^ 1024) by (vm_compute; reflexivity).
  destruct (2 ^ 1024 <=? Z.abs (nearest (p + i))) eqn:E; [apply Z.leb_le in E; lia|].
  reflexivity.
Qed.

(** [===] on Numbers: equal and not NaN. *)
Lemma seq_eq a b : seq a b = true -> a = b.
Proof.
  destruct a as [|s|x], b as [|s'|y]; simpl; try discriminate.
  - intros E. apply Bool.eqb_prop in E. now subst.
  - intros E. apply Z.eqb_eq in E. now subst.
Qed.

Lemma seq_refl a : isNaN a = false -> seq a a = true.
Proof.
  destruct a as [|s|x]; simpl; [discriminate | intros _ | intros _].
  - apply Bool.eqb_reflx.
  - apply Z.eqb_refl.
Qed.

Lemma seq_not_NaN a b : seq a b = true -> isNaN a = false /\ isNaN b = false.
Proof. destruct a, b; simpl; try discriminate; auto. Qed.

Lemma seq_neq a b : a <> b -> seq a b = false.
Proof.
  intros Hab. destruct (seq a b) eqn:E; [|reflexivity]. now apply seq_eq in E.
Qed.

End WholeFacts.

(** ** Strings *)

Module StrFacts.
Local Open Scope N_scope.

Lemma eqb_eq (a b : jsstring) : Str.eqb a b = true <-> a = b.
Proof.
  revert b. induction a as [|x a IH]; intros [|y b]; simpl; split;
    try discriminate; auto; intros Hab.
  - apply andb_prop in Hab as [Hx Hab]. apply N.eqb_eq in Hx.
    apply IH in Hab. congruence.
  - injection Hab as -> ->. rewrite N.eqb_refl. now apply IH.
Qed.

Lemma In_trimStart c s :
  List.In c s -> Str.isWhiteSpace c = false -> List.In c (Str.trimStart s).
Proof.
  induction s as [|d s IH]; simpl; [tauto|].
  intros [->|Hin] Hc.
  - rewrite Hc. now left.
  - destruct (Str.isWhiteSpace d); [auto | now right].
Qed.

(** [trim] removes white space only. *)
Lemma In_trim c s :
  List.In c s -> Str.isWhiteSpace c = false -> List.In c (Str.trim s).
Proof.
  intros Hin Hc. unfold Str.trim, Str.trimEnd.
  rewrite <- in_rev. apply In_trimStart; [|exact Hc].
  rewrite <- in_rev. apply In_trimStart; assumption.
Qed.

(** A pattern matched somewhere in [s] leaves each of its characters in
    [s], up to case. *)
Lemma prefix_ci_In pat : forall s p,
  Str.starts_ci pat s = true -> List.In p pat ->
  exists c, List.In c s /\ Str.canon c = p.
Proof.
  unfold Str.starts_ci.
  induction pat as [|q pat IH]; intros s p Hm Hp; [destruct Hp|].
  destruct s as [|c s]; simpl in Hm; [discriminate|].
  destruct (N.eqb_spec (Str.canon c) q) as [E|E]; [|discriminate].
  destruct Hp as [->|Hp].
  - exists c. split; [now left | exact E].
  - destruct (IH s p Hm Hp) as (c' & Hin & Hc'). exists c'. split; [now right | exact Hc'].
Qed.

Lemma anywhere_suffix (P : jsstring -> bool) s :
  Str.anywhere P s = true -> exists pre t, s = pre ++ t /\ P t = true.
Proof.
  induction s as [|c s IH]; simpl.
  - rewrite orb_false_r. intros HP. now exists [], [].
  - intros HP. apply orb_prop in HP as [HP|HP].
    + now exists [], (c :: s).
    + destruct (IH HP) as (pre & t & -> & Ht). now exists (c :: pre), t.
Qed.

Lemma anywhere_In pat s p :
  Str.anywhere (Str.starts_ci pat) s = true -> List.In p pat ->
  exists c, List.In c s /\ Str.canon c = p.
Proof.
  intros Hs Hp. apply anywhere_suffix in Hs as (pre & t & -> & Ht).
  destruct (prefix_ci_In pat t p Ht Hp) as (c & Hin & Hc).
  exists c. split; [apply in_or_app; now right | exact Hc].
Qed.

End StrFacts.

(** ** The default allometry *)

Section AllometryFacts.
Context `{Host}.
Local Open Scope float_scope.

(** C2, as the code has it: at every diameter above zero, [+Infinity]
    included, the default biomass is the regional formula
    [exp(-1.996 + 2.32 ln D)] or [exp(-2.134 + 2.530 ln D)]; at every other
    diameter (zero, negative, NaN) it is 0. *)
Theorem defaultAllometry_formula (D : float) (region : RegionType) :
  defaultAllometryBiomassKg D region =
    if 0 <? D then
      match region with
      | dry => Math_exp (-1.996 + 2.32 * Math_log D)
      | moist => Math_exp (-2.134 + 2.530 * Math_log D)
      end
    else 0.
Proof.
  unfold defaultAllometryBiomassKg. rewrite FloatFacts.allometry_guard.
  destruct (0 <? D); reflexivity.
Qed.

(** With the values ECMA-262 fixes for [Math.log] and [Math.exp] at
    [+Infinity], the default biomass of an infinite diameter is infinite. *)
Lemma defaultAllometry_at_infinity (region : RegionType) :
  Math_log infinity = infinity -> Math_exp infinity = infinity ->
  defaultAllometryBiomassKg infinity region = infinity.
Proof.
  intros Hlog Hexp. unfold defaultAllometryBiomassKg, exp, ln.
  rewrite FloatFacts.allometry_guard.
  change (negb (0 <? infinity)) with false. cbv iota. rewrite Hlog.
  destruct region; vm_compute (_ + _); exact Hexp.
Qed.

End AllometryFacts.

(** C2 as stated fails: [+Infinity] is not finite, and its default biomass
    is [+Infinity], not 0. *)
Lemma defaultAllometry_infinite_diameter :
  Num.isFinite infinity = false
  /\ defaultAllometryBiomassKg (H := Ref.host) infinity dry = infinity
  /\ defaultAllometryBiomassKg (H := Ref.host) infinity moist = infinity.
Proof. repeat split; vm_compute; reflexivity. Qed.

(** ** The evaluator and the per-species biomass function *)

Section EvaluatorFacts.
Context `{Host}.
Local Open Scope N_scope.

Lemma allowedChar_space c : Str.isWhiteSpace c = true -> allowedChar c = true.
Proof. unfold allowedChar. intros ->. now rewrite orb_true_r. Qed.

Lemma allowed_In c expr : allowed expr = true -> List.In c expr -> allowedChar c = true.
Proof. unfold allowed. rewrite forallb_forall. auto. Qed.

(** An input with a character outside the whitelist does not pass it,
    trimmed or not. *)
Lemma disallowed_trim c s :
  List.In c s -> allowedChar c = false -> allowed (Str.trim s) = false.
Proof.
  intros Hin Hc. destruct (allowed (Str.trim s)) eqn:Ha; [|reflexivity].
  assert (Hws : Str.isWhiteSpace c = false).
  { destruct (Str.isWhiteSpace c) eqn:E; [|reflexivity].
    apply allowedChar_space in E. congruence. }
  pose proof (allowed_In c _ Ha (StrFacts.In_trim c s Hin Hws)). congruence.
Qed.


Lemma evalBiomassExpr_disallowed D c s :
  List.In c s -> allowedChar c = false -> evalBiomassExpr D s = Num.NaN.
Proof.
  intros Hin Hc. unfold evalBiomassExpr.
  destruct (Str.truthy s); [|reflexivity]. simpl.
  now rewrite (disallowed_trim c s Hin Hc).
Qed.

Lemma evalBiomassExpr_finite_or_NaN D s :
  Num.isFinite (evalBiomassExpr D s) = true \/ evalBiomassExpr D s = Num.NaN.
Proof.
  unfold evalBiomassExpr.
  destruct (negb (Str.truthy s)); [now right|].
  destruct (negb (allowed _)); [now right|].
  destruct (blocked _); [now right|].
  destruct (runFunction _ D) as [|val|]; try now right.
  destruct (Num.isFinite val) eqn:E; simpl; [now left | now right].
Qed.

(** *** An occurrence of [new] survives the rewriting *)



















End EvaluatorFacts.

Section BiomassFnFacts.
Context `{Host}.
Local Open Scope float_scope.

Lemma finite_not_NaN v : Num.isFinite v = true -> Num.isNaN v = false.
Proof.
  unfold Num.isFinite, Num.isNaN, is_finite.
  destruct (is_nan v); [discriminate | reflexivity].
Qed.

(** C5: at every call, the biomass function of a species returns the
    value of its custom equation at [D] when one is configured and that
    value is a finite Number not below zero, and the default regional
    allometry at [D] in every other case: no equation configured, or an
    evaluation that is invalid (NaN stands for a rejected input, an
    exception of the engine and a non-finite result alike) or negative.
    In particular the value the engine returns for the rewritten
    expression is the result whenever it is finite and not negative. *)
Theorem eq_custom_or_default (r : SpeciesRow) (D : float) :
  let e := Str.opt_or_else (row_customEquation r) (js "") in
  let v := evalBiomassExpr D e in
  eq r D = (if useCustom r && Num.isFinite v && Num.ge v 0 then v
            else defaultAllometryBiomassKg D (row_region r))
  /\ (forall w,
        useCustom r = true ->
        allowed (Str.trim e) = true ->
        blocked (rewrite (Str.trim e)) = false ->
        runFunction (js "return (" ++ rewrite (Str.trim e) ++ js ");") D = ReturnNumber w ->
        Num.isFinite w = true -> Num.ge w 0 = true ->
        eq r D = w).
Proof.
  intros e v.
  assert (Heq : eq r D = (if useCustom r && Num.isFinite v && Num.ge v 0 then v
                          else defaultAllometryBiomassKg D (row_region r))).
  { unfold eq, useCustom. fold e. fold v.
    destruct (row_useCustomEq r) as [[]|]; simpl; try reflexivity.
    destruct (Str.opt_truthy (row_customEquation r)); simpl; try reflexivity.
    destruct (evalBiomassExpr_finite_or_NaN D e) as [Hf|Hn].
    - fold v in Hf. rewrite Hf, (finite_not_NaN v Hf). reflexivity.
    - fold v in Hn. rewrite Hn. reflexivity. }
  split; [exact Heq|].
  intros w Hc Ha Hb Hrun Hf Hge. rewrite Heq, Hc.
  assert (Hv : v = w).
  { unfold v, evalBiomassExpr.
    assert (Ht : Str.truthy e = true).
    { unfold useCustom in Hc. unfold e, Str.opt_or_else, Str.or_else.
      destruct (row_useCustomEq r) as [[]|]; try discriminate.
      destruct (row_customEquation r) as [q|]; simpl in Hc; [|discriminate].
      now rewrite Hc. }
    rewrite Ht, Ha, Hb, Hrun, Hf. reflexivity. }
  rewrite Hv, Hf, Hge. reflexivity.
Qed.

End BiomassFnFacts.

(** ** The growth rate of a species *)

Section GrowthRateFacts.
Local Open Scope float_scope.

(** A Number is truthy exactly when it is below or above zero. *)
Lemma truthy_spec v : Num.truthy v = ((v <? 0) || (0 <? v))%bool.
Proof.
  unfold Num.truthy, is_zero.
  rewrite FloatFacts.is_nan_spec, FloatAxioms.eqb_spec, !ltb_spec.
  change (Prim2SF PrimFloat.zero) with (S754_zero false).
  change (Prim2SF 0) with (S754_zero false).
  destruct (Prim2SF v) as [[]|[]| |[] m e]; reflexivity.
Qed.

(** C7, as the code has it: the growth rate of a species is its own
    [growthRateCmYr] whenever that parses to a Number other than zero,
    positive or negative, and [defaultGrowthRate] when the field is
    absent, empty, not a number, or zero. *)
Theorem gr_override_or_default (st : State) (r : SpeciesRow) :
  let v := parseFloat (Str.opt_or_else (row_growthRateCmYr r) (js "")) in
  gr st r = (if ((v <? 0) || (0 <? v))%bool then v else defaultGR st)
  /\ (row_growthRateCmYr r = None \/ row_growthRateCmYr r = Some [] ->
      gr st r = defaultGR st)
  /\ ((0 <? v) = true -> gr st r = v)
  /\ ((v <? 0) = true -> gr st r = v)
  /\ (Num.isNaN v = true \/ (v =? 0) = true -> gr st r = defaultGR st).
Proof.
  intros v.
  assert (Hgr : gr st r = if ((v <? 0) || (0 <? v))%bool then v else defaultGR st).
  { unfold gr, Num.or_else. fold v. now rewrite truthy_spec. }
  split; [exact Hgr|]. split; [|split; [|split]].
  - intros [Hn|Hn]; unfold gr; rewrite Hn; reflexivity.
  - intros Hp. rewrite Hgr, Hp, orb_true_r. reflexivity.
  - intros Hp. rewrite Hgr, Hp. reflexivity.
  - intros Hz. unfold gr, Num.or_else, Num.truthy, is_zero. fold v.
    unfold Num.isNaN in Hz. destruct Hz as [-> | Hz]; [reflexivity|].
    change PrimFloat.zero with 0. rewrite Hz, orb_true_r. reflexivity.
Qed.

End GrowthRateFacts.

(** C7 as stated fails: the override [-1] is present and not positive, and
    the growth rate is [-1], not the default [0.2]. *)
Lemma gr_negative_override :
  row_growthRateCmYr Samples.shrinking = Some (js "-1")
  /\ Num.le (parseFloat (js "-1")) 0 = true
  /\ gr Samples.base Samples.shrinking = (-1)%float
  /\ defaultGR Samples.base = 0.2%float.
Proof. repeat split; vm_compute; reflexivity. Qed.

(** ** The loops of the calculation *)

Section LoopFacts.
Context `{Host}.

Lemma map_fmap {A B : Type} (f : A -> B) (l : list A) : map f l = f <$> l.
Proof. reflexivity. Qed.

(** An integer that [parseInt] returns is a finite Number. *)
Lemma parseInt_Int (s : jsstring) (p : Z) :
  parseInt s = Whole.Int p -> Whole.nearest p = p /\ Z.abs p < 2 ^ 1024.
Proof.
  unfold parseInt, Parse.parseInt.
  destruct (Parse.sign (Str.trimStart s)) as [neg r].
  destruct (Parse.digits r) as [[|d ds] rest]; [discriminate|].
  apply WholeFacts.round_Int.
Qed.

(** With fewer years than the array holds the year loop is completed,
    having pushed the records of [g], [g + 1], ..., [nYears] in order. *)
Lemma yearLoop_ends (body : Z -> YearRecord) (n : Z) : n < maxArrayLength ->
  forall fuel g acc, 0 <= g -> Z.of_nat (length acc) = g ->
  (Z.to_nat (n + 1 - g) < fuel)%nat ->
  yearLoop fuel body (Whole.Int n) g acc
  = Some (Completed (acc ++ (body <$> seqZ g (n + 1 - g)))).
Proof.
  intros Hn. assert (Hmax : maxArrayLength = 2 ^ 32 - 1) by reflexivity.
  induction fuel as [|fuel IH]; intros g acc Hg Hlen Hfuel; [lia|].
  cbn [yearLoop Whole.leb]. destruct (Z.leb_spec g n) as [Hle|Hgt].
  - destruct (Z.leb_spec maxArrayLength (Z.of_nat (length acc))) as [Hfull|_]; [lia|].
    rewrite (WholeFacts.nearest_small (g + 1)) by lia.
    rewrite IH; [|lia | rewrite length_app; cbn [length]; lia | lia].
    rewrite <- app_assoc. do 2 f_equal.
    rewrite (seqZ_cons g (n + 1 - g)) by lia.
    replace (Z.pred (n + 1 - g)) with (n + 1 - (g + 1)) by lia.
    replace (Z.succ g) with (g + 1) by lia. reflexivity.
  - rewrite (seqZ_nil g (n + 1 - g)) by lia. now rewrite app_nil_r.
Qed.

(** With as many years as the array holds records, or more, the loop
    fills the array and the next [push] throws. *)
Lemma yearLoop_throws (body : Z -> YearRecord) (nYears : Whole.t) :
  tooMany nYears = true ->
  forall fuel g acc, 0 <= g <= maxArrayLength -> Z.of_nat (length acc) = g ->
  (Z.to_nat (maxArrayLength - g) < fuel)%nat ->
  yearLoop fuel body nYears g acc = Some InvalidArrayLength.
Proof.
  intros Ht. assert (Hmax : maxArrayLength = 2 ^ 32 - 1) by reflexivity.
  induction fuel as [|fuel IH]; intros g acc Hg Hlen Hfuel; [lia|].
  cbn [yearLoop].
  assert (Hle : Whole.leb (Whole.Int g) nYears = true).
  { destruct nYears as [|[]|n]; try discriminate; [reflexivity|].
    cbn in Ht |- *. apply Z.leb_le in Ht. apply Z.leb_le. lia. }
  rewrite Hle.
  destruct (Z.leb_spec maxArrayLength (Z.of_nat (length acc))) as [Hfull|Hroom];
    [reflexivity|].
  rewrite (WholeFacts.nearest_small (g + 1)) by lia.
  apply IH; [lia | rewrite length_app; cbn [length]; lia | lia].
Qed.

(** With [nYears] NaN or below 0 the year loop has no round. *)
Lemma yearLoop_no_round (body : Z -> YearRecord) (nYears : Whole.t) fuel g acc :
  Whole.leb (Whole.Int g) nYears = false ->
  yearLoop (S fuel) body nYears g acc = Some (Completed acc).
Proof. intros Hle. cbn [yearLoop]. now rewrite Hle. Qed.

(** Whatever the year loop leaves holds what it started with and records
    of its body. *)
Lemma yearLoop_records (body : Z -> YearRecord) (nYears : Whole.t) :
  forall fuel g acc l, yearLoop fuel body nYears g acc = Some (Completed l) ->
  forall d, List.In d l -> List.In d acc \/ exists g', d = body g'.
Proof.
  induction fuel as [|fuel IH]; intros g acc l Hl d Hd; [discriminate|].
  cbn [yearLoop] in Hl. destruct (Whole.leb (Whole.Int g) nYears).
  - destruct (maxArrayLength <=? Z.of_nat (length acc)); [discriminate|].
    destruct (IH _ _ _ Hl d Hd) as [Hin|Hb]; [|now right].
    apply in_app_or in Hin as [Hin|[<-|[]]]; [now left | right; now exists g].
  - injection Hl as <-. now left.
Qed.

Lemma scheduleLoop_spec (st : State) (py : Z) (k : nat) :
  forall i acc,
    scheduleLoop st py k i acc =
      acc ++ ((fun j => {| sch_year := Whole.nearest (py + j);
                           sch_areaHa := Num.max 0 (scheduleArea st (Whole.nearest (py + j))) |})
              <$> seqZ i (Z.of_nat k)).
Proof.
  induction k as [|k IH]; intros i acc.
  - simpl. now rewrite app_nil_r.
  - cbn [scheduleLoop]. rewrite IH, <- app_assoc.
    rewrite (seqZ_cons i (Z.of_nat (S k))) by lia.
    replace (Z.pred (Z.of_nat (S k))) with (Z.of_nat k) by lia.
    reflexivity.
Qed.

Lemma clampInt_range n lo hi k : lo <= hi -> clampInt n lo hi = Some k -> lo <= k <= hi.
Proof.
  destruct n as [|[]|z]; simpl; intros Hb Hk; try discriminate;
    injection Hk as <-; lia.
Qed.

(** The schedule has at most 200 entries. *)
Lemma scheduled_length (st : State) (py : Z) : (length (scheduled st py) <= 200)%nat.
Proof.
  unfold scheduled. destruct (useSchedule st); [|simpl; lia].
  destruct (parseInt _) as [|[]|n]; simpl; try lia;
    rewrite scheduleLoop_spec; simpl; rewrite length_fmap, length_seqZ; lia.
Qed.

(** The year of the entry at index [k] of the schedule: the planting year
    itself without a schedule, the Number [py + k] with one. *)
Lemma scheduled_year_at (st : State) (py : Z) (k : nat) (e : ScheduleEntry) :
  scheduled st py !! k = Some e ->
  (k < 200)%nat
  /\ sch_year e = if useSchedule st then Whole.nearest (py + Z.of_nat k) else py.
Proof.
  unfold scheduled. destruct (useSchedule st).
  - destruct (clampInt _ 0 200) as [n|] eqn:Hn; [|discriminate].
    pose proof (clampInt_range _ 0 200 n ltac:(lia) Hn) as Hr.
    rewrite scheduleLoop_spec. cbn [app]. rewrite list_lookup_fmap.
    destruct (seqZ 0 (Z.of_nat (Z.to_nat n)) !! k) as [j|] eqn:Hj; [|discriminate].
    apply lookup_seqZ in Hj as [-> Hk]. intros [= <-]. cbn [sch_year].
    split; [lia | f_equal; lia].
  - destruct k as [|k]; [|discriminate]. intros [= <-]. split; [lia | reflexivity].
Qed.

(** The difference of two years, as [nYears] has it: exact when it is
    small, and on the same side of the array limit in any case. *)
Lemma sub_Int_cases (x y : Z) :
  (Z.abs (x - y) <= 2 ^ 53 /\ Whole.sub (Whole.Int x) (Whole.Int y) = Whole.Int (x - y))
  \/ (x - y < - 2 ^ 53
      /\ Whole.leb (Whole.Int 0) (Whole.sub (Whole.Int x) (Whole.Int y)) = false
      /\ tooMany (Whole.sub (Whole.Int x) (Whole.Int y)) = false)
  \/ (2 ^ 53 < x - y /\ tooMany (Whole.sub (Whole.Int x) (Whole.Int y)) = true).
Proof.
  assert (Hmax : maxArrayLength = 2 ^ 32 - 1) by reflexivity.
  destruct (Z_le_gt_dec (Z.abs (x - y)) (2 ^ 53)) as [Hs|Hb].
  { left. split; [exact Hs | now apply WholeFacts.sub_small]. }
  right. unfold Whole.sub, Whole.opp, Whole.add, Whole.round.
  replace (x + - y) with (x - y) by lia.
  destruct (Z_lt_ge_dec (x - y) 0) as [Hneg|Hpos].
  - left. split; [lia|].
    assert (Hn : Whole.nearest (x - y) <= - 2 ^ 53).
    { rewrite <- (WholeFacts.nearest_small (- 2 ^ 53)) by lia.
      apply WholeFacts.nearest_mono. lia. }
    destruct (2 ^ 1024 <=? Z.abs (Whole.nearest (x - y))).
    + destruct (Z.ltb_spec (x - y) 0); [split; reflexivity | lia].
    + cbn. split; apply Z.leb_gt; lia.
  - right. split; [lia|].
    assert (Hn : 2 ^ 53 <= Whole.nearest (x - y)).
    { rewrite <- (WholeFacts.nearest_small (2 ^ 53)) by lia.
      apply WholeFacts.nearest_mono. lia. }
    destruct (2 ^ 1024 <=? Z.abs (Whole.nearest (x - y))).
    + destruct (Z.ltb_spec (x - y) 0); [lia | reflexivity].
    + cbn. apply Z.leb_le. lia.
Qed.

(** Whether the array suffices, read off the years. *)
Lemma tooMany_years (st : State) (py ey : Z) :
  parseInt (plantingYear st) = Whole.Int py ->
  parseInt (creditingEndYear st) = Whole.Int ey ->
  tooMany (nYears st) = (maxArrayLength <=? ey - py).
Proof.
  intros Hpy Hey. unfold nYears. rewrite Hpy, Hey.
  assert (Hmax : maxArrayLength = 2 ^ 32 - 1) by reflexivity.
  destruct (sub_Int_cases ey py) as [[Hs ->] | [(Hneg & _ & ->) | (Hpos & ->)]].
  - reflexivity.
  - symmetry. apply Z.leb_gt. lia.
  - symmetry. apply Z.leb_le. lia.
Qed.

(** With fewer years than the array holds, [yearly] has the records of
    the rounds [0 .. ey - py]. *)
Lemma runLoop_spec (st : State) (py ey : Z) :
  parseInt (plantingYear st) = Whole.Int py ->
  parseInt (creditingEndYear st) = Whole.Int ey ->
  ey - py < maxArrayLength ->
  runLoop st =
    Some (Completed
            (yearRecord (forceYearZeroZero st) (mort st) (scheduled st py) (speciesSetup st) py
             <$> seqZ 0 (ey - py + 1))).
Proof.
  intros Hpy Hey Hd. unfold runLoop, nYears. rewrite Hpy, Hey.
  assert (Hmax : maxArrayLength = 2 ^ 32 - 1) by reflexivity.
  destruct (sub_Int_cases ey py) as [[Hs ->] | [(Hneg & Hle & _) | (Hpos & _)]]; [| |lia].
  - rewrite (yearLoop_ends _ (ey - py) Hd _ 0 []); [|lia | reflexivity|].
    + cbn [app]. now replace (ey - py + 1 - 0) with (ey - py + 1) by lia.
    + unfold rounds. lia.
  - assert (Hr : exists k, rounds (Whole.sub (Whole.Int ey) (Whole.Int py)) = S k).
    { unfold rounds. destruct (Whole.sub _ _) as [|[]|n]; eauto. }
    destruct Hr as [k ->]. rewrite yearLoop_no_round by exact Hle.
    now rewrite (seqZ_nil 0 (ey - py + 1)) by lia.
Qed.

Lemma yearly_spec (st : State) (py ey : Z) :
  parseInt (plantingYear st) = Whole.Int py ->
  parseInt (creditingEndYear st) = Whole.Int ey ->
  ey - py < maxArrayLength ->
  yearly st =
    yearRecord (forceYearZeroZero st) (mort st) (scheduled st py) (speciesSetup st) py
      <$> seqZ 0 (ey - py + 1).
Proof.
  intros Hpy Hey Hd. unfold yearly. now rewrite (runLoop_spec st py ey Hpy Hey Hd).
Qed.

Lemma yearly_length (st : State) (py ey : Z) :
  parseInt (plantingYear st) = Whole.Int py ->
  parseInt (creditingEndYear st) = Whole.Int ey ->
  ey - py < maxArrayLength ->
  length (yearly st) = Z.to_nat (ey - py + 1).
Proof.
  intros Hpy Hey Hd. rewrite (yearly_spec st py ey Hpy Hey Hd).
  now rewrite length_fmap, length_seqZ.
Qed.


(** With an infinite or NaN planting year, [nYears] is no integer. *)
Lemma nYears_not_Int (st : State) :
  (forall py, parseInt (plantingYear st) <> Whole.Int py) ->
  forall n, nYears st <> Whole.Int n.
Proof.
  intros Hpy n. unfold nYears, Whole.sub, Whole.opp, Whole.add.
  destruct (parseInt (plantingYear st)) as [|s|py]; [| |now destruct (Hpy py)];
    destruct (parseInt (creditingEndYear st)) as [|s'|ey]; try discriminate.
  destruct (Bool.eqb s' (negb s)); discriminate.
Qed.

(** The rounds given to the loop suffice: it is completed, with [yearly],
    unless the years are too many, and then [push] throws. *)
Lemma runLoop_ends (st : State) :
  runLoop st = Some (if tooMany (nYears st) then InvalidArrayLength
                     else Completed (yearly st)).
Proof.
  assert (Hmax : maxArrayLength = 2 ^ 32 - 1) by reflexivity.
  assert (Hgen : forall e, runLoop st = Some e ->
            e = (if tooMany (nYears st) then InvalidArrayLength else Completed (yearly st)) ->
            runLoop st = Some (if tooMany (nYears st) then InvalidArrayLength
                               else Completed (yearly st))) by (intros e -> ->; reflexivity).
  destruct (tooMany (nYears st)) eqn:Ht.
  - unfold runLoop.
    assert (Hle : Whole.leb (Whole.Int 0) (nYears st) = true).
    { destruct (nYears st) as [|[]|n]; try discriminate; [reflexivity|].
      cbn in Ht |- *. apply Z.leb_le in Ht. apply Z.leb_le. lia. }
    destruct (parseInt (plantingYear st)) as [|s|py]; try now rewrite Hle.
    apply (yearLoop_throws _ _ Ht); [lia | reflexivity|].
    destruct (nYears st) as [|[]|n]; try discriminate; unfold rounds; [lia|].
    cbn in Ht. apply Z.leb_le in Ht. lia.
  - assert (Hc : exists l, runLoop st = Some (Completed l)).
    { unfold runLoop.
      destruct (parseInt (plantingYear st)) as [|s|py] eqn:Hpy.
      - pose proof (nYears_not_Int st ltac:(rewrite Hpy; discriminate)) as Hn.
        destruct (nYears st) as [|[]|n]; try discriminate; cbn; eauto. now destruct (Hn n).
      - pose proof (nYears_not_Int st ltac:(rewrite Hpy; discriminate)) as Hn.
        destruct (nYears st) as [|[]|n]; try discriminate; cbn; eauto. now destruct (Hn n).
      - destruct (nYears st) as [|[]|n]; try discriminate.
        + eexists. apply yearLoop_no_round. reflexivity.
        + eexists. apply yearLoop_no_round. reflexivity.
        + cbn in Ht. apply Z.leb_gt in Ht. eexists.
          apply (yearLoop_ends _ n Ht); [lia | reflexivity | unfold rounds; lia]. }
    destruct Hc as [l Hl]. unfold yearly. now rewrite Hl.
Qed.

(** [calculate] on a state that passes validation. *)
Lemma calculate_valid (st : State) :
  validate st = None ->
  calculate st = if tooMany (nYears st) then Thrown else Stored (calcResult st).
Proof.
  intros Hv. unfold calculate. rewrite Hv, runLoop_ends.
  now destruct (tooMany (nYears st)).
Qed.

(** A result that [calculate] stores is [calcResult]. *)
Lemma calculate_stored (st : State) res :
  calculate st = Stored res ->
  validate st = None /\ tooMany (nYears st) = false /\ res = calcResult st.
Proof.
  destruct (validate st) as [e|] eqn:Hv;
    [unfold calculate; rewrite Hv; discriminate|].
  rewrite (calculate_valid st Hv). destruct (tooMany (nYears st)); [discriminate|].
  intros [= <-]. auto.
Qed.

(** The difference of two years below 2^53 apart is exact. *)
Lemma nYears_exact (st : State) (py ey : Z) :
  parseInt (plantingYear st) = Whole.Int py ->
  parseInt (creditingEndYear st) = Whole.Int ey ->
  py <= ey -> ey - py < 2 ^ 53 ->
  nYears st = Whole.Int (ey - py).
Proof.
  intros Hpy Hey Hle Hd. unfold nYears. rewrite Hpy, Hey.
  apply WholeFacts.sub_small. lia.
Qed.

(** Every record of [yearly] is a record of the loop body at the planting
    year. *)
Lemma yearly_records (st : State) (d : YearRecord) :
  List.In d (yearly st) ->
  exists py g, parseInt (plantingYear st) = Whole.Int py
    /\ d = yearRecord (forceYearZeroZero st) (mort st) (scheduled st py)
             (speciesSetup st) py g.
Proof.
  unfold yearly, runLoop.
  destruct (parseInt (plantingYear st)) as [|s|py] eqn:Hpy.
  - destruct (Whole.leb _ _); intros [].
  - destruct (Whole.leb _ _); intros [].
  - destruct (yearLoop _ _ _ _ _) as [[l|]|] eqn:Hl; [|intros [] | intros []].
    intros Hd. destruct (yearLoop_records _ _ _ _ _ _ Hl d Hd) as [[]|[g ->]].
    now exists py, g.
Qed.

End LoopFacts.

(** ** One model year *)

Section YearFacts.
Context `{Host}.
Local Open Scope float_scope.

Variables (force : bool) (mort : float).

Lemma fold_addTotals cs : forall b k n,
  fold_left addTotals cs (b, k, n) =
    (fold_left (fun a c => a + c_biomassKg c) cs b,
     fold_left (fun a c => a + c_CO2eT c) cs k,
     fold_left (fun a c => a + c_surviving c) cs n).
Proof. induction cs as [|c cs IH]; intros; simpl; [reflexivity | apply IH]. Qed.

Lemma speciesStep_agg sch age acc i sp :
  perSpeciesAgg (speciesStep force mort sch age acc i sp) =
    alter (stepAt force mort sch age sp) i (perSpeciesAgg acc).
Proof.
  unfold speciesStep, stepAt, counted.
  destruct (Num.le (sp_percent sp) 0); simpl; [|reflexivity].
  symmetry. apply list_eq. intros j.
  destruct (decide (i = j)) as [->|Hne].
  - rewrite list_lookup_alter_eq. now destruct (_ !! j).
  - now rewrite list_lookup_alter_ne.
Qed.

Lemma speciesStep_totals sch age acc i sp :
  totals (speciesStep force mort sch age acc i sp) =
    fold_left addTotals
      (map (fun sp => contribution force mort sch sp age) (List.filter counted [sp]))
      (totals acc).
Proof.
  unfold speciesStep, counted. simpl.
  destruct (Num.le (sp_percent sp) 0); reflexivity.
Qed.

(** The inner loop leaves in slot [j] the entry of the species of index
    [j], updated once if that species is counted. *)
Lemma forEachIdx_agg sch age (l : list SpeciesSetup) : forall i0 acc j,
  perSpeciesAgg (forEachIdx (speciesStep force mort sch age) i0 l acc) !! j =
    if decide (i0 <= j)%nat then
      match l !! (j - i0)%nat with
      | Some sp => stepAt force mort sch age sp <$> perSpeciesAgg acc !! j
      | None => perSpeciesAgg acc !! j
      end
    else perSpeciesAgg acc !! j.
Proof.
  induction l as [|sp l IH]; intros i0 acc j.
  - simpl. now destruct (decide _).
  - cbn [forEachIdx]. rewrite IH, speciesStep_agg. clear IH.
    destruct (decide (S i0 <= j)%nat) as [Hj|Hj].
    + rewrite decide_True by lia.
      replace (j - i0)%nat with (S (j - S i0)) by lia. simpl.
      now rewrite list_lookup_alter_ne by lia.
    + destruct (decide (i0 <= j)%nat) as [Hj'|Hj'].
      * assert (j = i0) as -> by lia. replace (i0 - i0)%nat with O by lia. simpl.
        apply list_lookup_alter_eq.
      * now rewrite list_lookup_alter_ne by lia.
Qed.

Lemma forEachIdx_totals sch age (l : list SpeciesSetup) : forall i0 acc,
  totals (forEachIdx (speciesStep force mort sch age) i0 l acc) =
    fold_left addTotals
      (map (fun sp => contribution force mort sch sp age) (List.filter counted l))
      (totals acc).
Proof.
  induction l as [|sp l IH]; intros i0 acc; [reflexivity|].
  cbn [forEachIdx]. rewrite IH, speciesStep_totals. simpl.
  destruct (counted sp); reflexivity.
Qed.

Variables (setup : list SpeciesSetup) (py g : Z).

Lemma cohortStep_agg acc sch j sp :
  setup !! j = Some sp ->
  perSpeciesAgg (cohortStep force mort setup py g acc sch) !! j =
    (fun p => cohortAt force mort py g sp p sch) <$> perSpeciesAgg acc !! j.
Proof.
  intros Hj. unfold cohortStep, cohortAt, active, cohortAge.
  destruct (g <? Whole.nearest (sch_year sch - py))%Z; cbn [negb].
  - destruct (perSpeciesAgg acc !! j); reflexivity.
  - rewrite forEachIdx_agg, decide_True by lia.
    replace (j - 0)%nat with j by lia. now rewrite Hj.
Qed.

Lemma cohortStep_totals acc sch :
  totals (cohortStep force mort setup py g acc sch) =
    fold_left addTotals
      (flat_map (cohortContributions force mort setup py g) (List.filter (active py g) [sch]))
      (totals acc).
Proof.
  unfold cohortStep, active, cohortContributions, cohortAge. simpl.
  destruct (g <? Whole.nearest (sch_year sch - py))%Z; simpl; [reflexivity|].
  now rewrite forEachIdx_totals, app_nil_r.
Qed.

Lemma schedule_fold_agg sched : forall acc j sp,
  setup !! j = Some sp ->
  perSpeciesAgg (fold_left (cohortStep force mort setup py g) sched acc) !! j =
    (fun p => fold_left (cohortAt force mort py g sp) sched p) <$> perSpeciesAgg acc !! j.
Proof.
  induction sched as [|sch sched IH]; intros acc j sp Hj; simpl.
  - destruct (perSpeciesAgg acc !! j); reflexivity.
  - rewrite (IH _ j sp Hj), (cohortStep_agg acc sch j sp Hj).
    destruct (perSpeciesAgg acc !! j); reflexivity.
Qed.

Lemma schedule_fold_totals sched : forall acc,
  totals (fold_left (cohortStep force mort setup py g) sched acc) =
    fold_left addTotals (yearContributions force mort sched setup py g) (totals acc).
Proof.
  unfold yearContributions.
  induction sched as [|sch sched IH]; intros acc; [reflexivity|].
  cbn [fold_left]. rewrite IH, cohortStep_totals. simpl.
  destruct (active py g sch); simpl; [|reflexivity].
  now rewrite app_nil_r, fold_left_app.
Qed.

(** A counted species receives one update per active cohort. *)
Lemma cohortAt_counted sp sched : counted sp = true -> forall p,
  fold_left (cohortAt force mort py g sp) sched p =
    fold_left (fun p c => addToSpecies c p) (speciesContributions force mort sched py g sp) p.
Proof.
  intros Hc. unfold speciesContributions.
  induction sched as [|sch sched IH]; intros p; [reflexivity|].
  simpl. unfold cohortAt at 2, stepAt. rewrite Hc.
  destruct (active py g sch); simpl; apply IH.
Qed.

Lemma cohortAt_skipped sp sched : counted sp = false -> forall p,
  fold_left (cohortAt force mort py g sp) sched p = p.
Proof.
  intros Hc. induction sched as [|sch sched IH]; intros p; [reflexivity|].
  simpl. unfold cohortAt at 2, stepAt. rewrite Hc.
  destruct (active py g sch); apply IH.
Qed.

(** Folding contributions into an entry sums the three measures and
    keeps the diameter of the last one. *)
Lemma fold_addToSpecies cs : forall p,
  let q := fold_left (fun p c => addToSpecies c p) cs p in
  ps_speciesId q = ps_speciesId p
  /\ ps_name q = ps_name p
  /\ ps_credits q = fold_left (fun a c => a + c_CO2eT c) cs (ps_credits p)
  /\ ps_biomassKg q = fold_left (fun a c => a + c_biomassKg c) cs (ps_biomassKg p)
  /\ ps_survivingTrees q = fold_left (fun a c => a + c_surviving c) cs (ps_survivingTrees p)
  /\ ps_dbhCm q = match last cs with Some c => c_dbh c | None => ps_dbhCm p end.
Proof.
  induction cs as [|c cs IH]; intros p; simpl; [tauto|].
  destruct (IH (addToSpecies c p)) as (H1 & H2 & H3 & H4 & H5 & H6).
  repeat split; try assumption.
  rewrite H6. destruct cs as [|c' cs]; [reflexivity|].
  rewrite last_cons_cons. destruct (last (c' :: cs)) eqn:E; [reflexivity|].
  apply last_None in E. discriminate.
Qed.

End YearFacts.

(** ** The records of the calculation *)

Section RecordFacts.
Context `{Host}.
Local Open Scope float_scope.

Lemma sumOf_fold {A : Type} (f : A -> float) (l : list A) :
  fold_left (fun a x => a + f x) l 0 = sumOf f l.
Proof. reflexivity. Qed.

Lemma yearRecord_totals force mort sched setup py g :
  let rec := yearRecord force mort sched setup py g in
  let cs := yearContributions force mort sched setup py g in
  yr_biomassKg rec = sumOf c_biomassKg cs
  /\ yr_credits rec = sumOf c_CO2eT cs
  /\ yr_survivingTrees rec = sumOf c_surviving cs.
Proof.
  intros rec cs. unfold rec, yearRecord. cbn [yr_biomassKg yr_credits yr_survivingTrees].
  set (acc0 := Build_YearAcc _ _ _ _).
  pose proof (schedule_fold_totals force mort setup py g sched acc0) as Ht.
  unfold totals in Ht. change (totalBiomassKg acc0, totalCreditsT acc0, totalTrees acc0)
    with (0, 0, 0) in Ht.
  rewrite fold_addTotals in Ht. fold cs in Ht.
  injection Ht as H1 H2 H3. rewrite H1, H2, H3. repeat split.
Qed.

(** The entry of species [i] in the record of year [g]: its initial entry
    with one update per active cohort if the species is counted, and its
    initial entry otherwise. *)
Lemma yearRecord_species force mort sched setup py g i sp :
  setup !! i = Some sp ->
  yr_perSpecies (yearRecord force mort sched setup py g) !! i =
    Some (if counted sp
          then fold_left (fun p c => addToSpecies c p)
                 (speciesContributions force mort sched py g sp) (initAgg sp)
          else initAgg sp).
Proof.
  intros Hi. unfold yearRecord. cbn [yr_perSpecies].
  rewrite (schedule_fold_agg force mort setup py g sched _ i sp Hi).
  cbn [perSpeciesAgg]. rewrite map_fmap, list_lookup_fmap, Hi. simpl. f_equal.
  destruct (counted sp) eqn:Hc.
  - now apply cohortAt_counted.
  - now apply cohortAt_skipped.
Qed.

Lemma forEachIdx_agg_length force mort sch age (l : list SpeciesSetup) : forall i0 acc,
  length (perSpeciesAgg (forEachIdx (speciesStep force mort sch age) i0 l acc))
  = length (perSpeciesAgg acc).
Proof.
  induction l as [|sp l IH]; intros i0 acc; [reflexivity|].
  cbn [forEachIdx]. rewrite IH, speciesStep_agg. apply length_alter.
Qed.

Lemma schedule_fold_agg_length force mort setup py g (sched : list ScheduleEntry) : forall acc,
  length (perSpeciesAgg (fold_left (cohortStep force mort setup py g) sched acc))
  = length (perSpeciesAgg acc).
Proof.
  induction sched as [|sch sched IH]; intros acc; [reflexivity|].
  cbn [fold_left]. rewrite IH. unfold cohortStep.
  destruct (g <? Whole.nearest (sch_year sch - py))%Z; [reflexivity | apply forEachIdx_agg_length].
Qed.

Lemma yearRecord_perSpecies_length force mort sched setup py g :
  length (yr_perSpecies (yearRecord force mort sched setup py g)) = length setup.
Proof.
  unfold yearRecord. cbn [yr_perSpecies].
  rewrite schedule_fold_agg_length. cbn [perSpeciesAgg]. apply length_map.
Qed.

Lemma yearRecord_species_id force mort sched setup py g i sp :
  setup !! i = Some sp ->
  exists p, yr_perSpecies (yearRecord force mort sched setup py g) !! i = Some p
            /\ ps_speciesId p = sp_id sp /\ ps_name p = sp_name sp.
Proof.
  intros Hi. eexists. split; [apply (yearRecord_species _ _ _ _ _ _ i sp Hi)|].
  destruct (counted sp); [|split; reflexivity].
  destruct (fold_addToSpecies (speciesContributions force mort sched py g sp) (initAgg sp))
    as (H1 & H2 & _).
  split; assumption.
Qed.

End RecordFacts.

(** ** Mortality *)

Section MortalityFacts.
Context `{Host}.
Local Open Scope float_scope.

(** The mortality fraction lies between 0 and 1, or is NaN. *)
Lemma mort_bounds (st : State) : (mort st <? 0) = false /\ (1 <? mort st) = false.
Proof.
  unfold mort. destruct (considerMortality st); [|split; reflexivity].
  unfold mortFrac. split.
  - apply FloatFacts.notNeg_max0.
  - apply FloatFacts.clamp_le_hi; reflexivity.
Qed.

End MortalityFacts.

(** ** Cohorts, species and years *)

Section CohortTheorems.
Context `{Host}.
Local Open Scope float_scope.

(** C3: in model year [g], the cohort of a schedule entry planted by then
    ([scheduleYear - plantingYear <= g]) has, for a species that is not
    skipped, [percent/100 * areaHa * densityHa * (1 - mort)^age] surviving
    trees at [age = g - (scheduleYear - plantingYear)], and credits of
    [biomassKg * 0.47 * (44/12) / 1000] tonnes; [mort] is the mortality
    fraction clamped to [0, 1] when mortality is considered and 0 when it
    is not; the year's totals are the sums of these contributions over all
    such cohorts and species, and the entry of a species is their sum over
    the cohorts. *)
Theorem cohort_contributions_formula_and_sums
    (st : State) (force : bool) (m : float)
    (sched : list ScheduleEntry) (setup : list SpeciesSetup) (py g : Z) :
  (forall sch sp age,
      let c := contribution force m sch sp age in
      c_surviving c =
        sp_percent sp / 100 * sch_areaHa sch * sp_densityHa sp
        * Math_pow (1 - m) (Num.of_Z age)
      /\ c_CO2eT c = c_biomassKg c * 0.47 * (44 / 12) / 1000)
  /\ (mort st = match considerMortality st with
                | yes => clamp (parseFloat (Str.or_else (mortalityRate st) (js "0")) / 100) 0 1
                | no => 0
                end
      /\ (mort st <? 0) = false /\ (1 <? mort st) = false)
  /\ (let rec := yearRecord force m sched setup py g in
      let cs := yearContributions force m sched setup py g in
      yr_survivingTrees rec = sumOf c_surviving cs
      /\ yr_biomassKg rec = sumOf c_biomassKg cs
      /\ yr_credits rec = sumOf c_CO2eT cs)
  /\ (forall i sp,
        setup !! i = Some sp -> counted sp = true ->
        exists p,
          yr_perSpecies (yearRecord force m sched setup py g) !! i = Some p
          /\ ps_survivingTrees p = sumOf c_surviving (speciesContributions force m sched py g sp)
          /\ ps_biomassKg p = sumOf c_biomassKg (speciesContributions force m sched py g sp)
          /\ ps_credits p = sumOf c_CO2eT (speciesContributions force m sched py g sp)).
Proof.
  split; [intros sch sp age; split; reflexivity|].
  split; [split; [reflexivity | apply mort_bounds]|].
  split.
  - destruct (yearRecord_totals force m sched setup py g) as (H1 & H2 & H3).
    repeat split; assumption.
  - intros i sp Hi Hc. eexists. split; [apply (yearRecord_species _ _ _ _ _ _ i sp Hi)|].
    rewrite Hc.
    destruct (fold_addToSpecies (speciesContributions force m sched py g sp) (initAgg sp))
      as (_ & _ & H3 & H4 & H5 & _).
    repeat split; assumption.
Qed.

(** In a list whose years do not decrease, the last entry that passes a
    filter is planted no earlier than any other entry that passes it. *)
Lemma last_filter_latest (P : ScheduleEntry -> bool) (l : list ScheduleEntry) :
  (forall i j a b, (i <= j)%nat -> l !! i = Some a -> l !! j = Some b ->
                   (sch_year a <= sch_year b)%Z) ->
  forall x, last (List.filter P l) = Some x ->
  forall y, List.In y (List.filter P l) -> (sch_year y <= sch_year x)%Z.
Proof.
  induction l as [|a l IH]; intros Hmono x Hx y Hy; [destruct Hy|].
  assert (Hmono' : forall i j a b, (i <= j)%nat -> l !! i = Some a -> l !! j = Some b ->
                                   (sch_year a <= sch_year b)%Z).
  { intros i j u v Hij Hu Hv. apply (Hmono (S i) (S j) u v); [lia | exact Hu | exact Hv]. }
  simpl in Hx, Hy. destruct (P a).
  - destruct (List.filter P l) as [|b t] eqn:Hf.
    + simpl in Hx. injection Hx as <-. destruct Hy as [<-|[]]. lia.
    + rewrite last_cons_cons in Hx. destruct Hy as [<-|Hy].
      * assert (Hin : List.In x (List.filter P l)).
        { rewrite Hf. apply last_Some in Hx as [l' ->]. apply in_or_app. right. now left. }
        apply filter_In in Hin as [Hin _].
        apply list_elem_of_In, list_elem_of_lookup in Hin as [j Hj].
        apply (Hmono O (S j) a x); [lia | reflexivity | exact Hj].
      * apply (IH Hmono' x Hx y Hy).
  - apply (IH Hmono' x Hx y Hy).
Qed.

Lemma scheduled_monotone (st : State) (py : Z) i j a b :
  (i <= j)%nat -> scheduled st py !! i = Some a -> scheduled st py !! j = Some b ->
  (sch_year a <= sch_year b)%Z.
Proof.
  intros Hij Ha Hb.
  destruct (scheduled_year_at st py i a Ha) as [_ Hya].
  destruct (scheduled_year_at st py j b Hb) as [_ Hyb].
  rewrite Hya, Hyb.
  destruct (useSchedule st); [apply WholeFacts.nearest_mono; lia | lia].
Qed.

(** C8: in a model year with several active cohorts of a species, the
    entry of the species sums credits, biomass and surviving trees over all
    of them, while its [dbhCm] is the diameter of the cohort processed last,
    which overwrote the earlier ones; the schedule being built in year
    order, that cohort is the latest planted, hence the youngest. *)
Theorem species_entry_over_cohorts (st : State) (py g : Z) (i : nat) (sp : SpeciesSetup) :
  speciesSetup st !! i = Some sp -> counted sp = true ->
  let force := forceYearZeroZero st in
  let sched := scheduled st py in
  let act := List.filter (active py g) sched in
  let at_ := fun sch => contribution force (mort st) sch sp (cohortAge py g sch) in
  exists p,
    yr_perSpecies (yearRecord force (mort st) sched (speciesSetup st) py g) !! i = Some p
    /\ ps_credits p = sumOf c_CO2eT (map at_ act)
    /\ ps_biomassKg p = sumOf c_biomassKg (map at_ act)
    /\ ps_survivingTrees p = sumOf c_surviving (map at_ act)
    /\ ps_dbhCm p = match last act with Some sch => c_dbh (at_ sch) | None => 0 end
    /\ (forall latest, last act = Some latest ->
        forall sch, List.In sch act ->
          (sch_year sch <= sch_year latest)%Z
          /\ (cohortAge py g latest <= cohortAge py g sch)%Z).
Proof.
  intros Hi Hc force sched act at_.
  eexists. split; [apply (yearRecord_species _ _ _ _ _ _ i sp Hi)|].
  rewrite Hc.
  destruct (fold_addToSpecies (speciesContributions force (mort st) sched py g sp) (initAgg sp))
    as (_ & _ & H3 & H4 & H5 & H6).
  change (speciesContributions force (mort st) sched py g sp) with (map at_ act) in *.
  split; [exact H3|]. split; [exact H4|]. split; [exact H5|]. split.
  - rewrite H6, map_fmap. rewrite fmap_last. now destruct (last act).
  - intros latest Hlast sch Hin.
    pose proof (last_filter_latest (active py g) sched (scheduled_monotone st py)
                  latest Hlast sch Hin) as Hle.
    split; [exact Hle|]. unfold cohortAge.
    pose proof (WholeFacts.nearest_mono (sch_year sch - py) (sch_year latest - py)
                  ltac:(lia)) as Hidx.
    apply WholeFacts.nearest_mono. lia.
Qed.

End CohortTheorems.

(** ** Year zero *)

Section YearZeroTheorems.
Context `{Host}.
Local Open Scope float_scope.

Lemma sumOf_zero {A : Type} (f : A -> float) (l : list A) :
  (forall x, List.In x l -> f x = 0) -> sumOf f l = 0.
Proof.
  unfold sumOf. induction l as [|x l IH]; intros Hf; [reflexivity|].
  cbn [fold_left]. rewrite (Hf x) by now left.
  change (0 + 0) with 0. apply IH. intros y Hy. apply Hf. now right.
Qed.

(** With the year-zero switch on, a cohort at age 0 contributes nothing. *)
Lemma contribution_age_zero m sch sp :
  let c := contribution true m sch sp 0 in
  c_biomassKg c = 0 /\ c_CO2eT c = 0 /\ c_dbh c = 0.
Proof. repeat split; reflexivity. Qed.

(** In the first model year every active cohort of the schedule is at
    age 0, the planting year being a Number. *)
Lemma first_year_age (st : State) (py : Z) sch :
  Whole.nearest py = py ->
  List.In sch (List.filter (active py 0) (scheduled st py)) -> cohortAge py 0 sch = 0%Z.
Proof.
  intros Hpy Hin. apply filter_In in Hin as [Hin Hact].
  apply list_elem_of_In, list_elem_of_lookup in Hin as [k Hk].
  destruct (scheduled_year_at st py k sch Hk) as [_ Hy].
  assert (Hge : (py <= sch_year sch)%Z).
  { rewrite Hy. destruct (useSchedule st); [|lia].
    transitivity (Whole.nearest py); [lia | apply WholeFacts.nearest_mono; lia]. }
  unfold active in Hact. unfold cohortAge.
  pose proof (WholeFacts.nearest_nonneg (sch_year sch - py) ltac:(lia)) as Hnn.
  destruct (Z.ltb_spec 0 (Whole.nearest (sch_year sch - py))); [discriminate|].
  replace (Whole.nearest (sch_year sch - py)) with 0%Z by lia. reflexivity.
Qed.

(** C4: with [forceYearZeroZero] on, a cohort processed in the model year
    it is planted (age 0) adds no biomass and no credits whatever the
    initial diameter, growth rate and biomass function of the species, and
    the diameter stored for it is 0 as well, the override of line 369 coming
    before the store of line 385; so the record of the planting year [py]
    (a Number, as every value of [parseInt] is) has no biomass and no
    credits, in total and for every species, and reports diameter 0
    throughout. *)
Theorem force_year_zero (st : State) (py : Z) (m : float)
    (sch : ScheduleEntry) (sp : SpeciesSetup) :
  (let c := contribution true m sch sp 0 in
   c_biomassKg c = 0 /\ c_CO2eT c = 0 /\ c_dbh c = 0
   /\ forall p, ps_dbhCm (addToSpecies c p) = 0
                /\ ps_biomassKg (addToSpecies c p) = ps_biomassKg p + 0
                /\ ps_credits (addToSpecies c p) = ps_credits p + 0)
  /\ (forceYearZeroZero st = true ->
      Whole.nearest py = py ->
      let rec := yearRecord (forceYearZeroZero st) (mort st) (scheduled st py)
                   (speciesSetup st) py 0 in
      yr_biomassKg rec = 0 /\ yr_credits rec = 0
      /\ forall p, List.In p (yr_perSpecies rec) ->
           ps_biomassKg p = 0 /\ ps_credits p = 0 /\ ps_dbhCm p = 0).
Proof.
  split; [repeat split; reflexivity|].
  intros Hforce Hnum rec. unfold rec. rewrite Hforce.
  assert (Hzero : forall c sp',
    List.In c (speciesContributions true (mort st) (scheduled st py) py 0 sp') ->
    c_biomassKg c = 0 /\ c_CO2eT c = 0 /\ c_dbh c = 0).
  { intros c sp' Hc. unfold speciesContributions in Hc.
    apply in_map_iff in Hc as (e & <- & He).
    rewrite (first_year_age st py e Hnum He). apply contribution_age_zero. }
  destruct (yearRecord_totals true (mort st) (scheduled st py) (speciesSetup st) py 0)
    as (Hb & Hc & _).
  assert (Hall : forall c,
    List.In c (yearContributions true (mort st) (scheduled st py) (speciesSetup st) py 0) ->
    c_biomassKg c = 0 /\ c_CO2eT c = 0).
  { intros c Hin. unfold yearContributions in Hin.
    apply in_flat_map in Hin as (e & He & Hin).
    unfold cohortContributions in Hin. apply in_map_iff in Hin as (sp' & <- & _).
    rewrite (first_year_age st py e Hnum He).
    destruct (contribution_age_zero (mort st) e sp') as (? & ? & _). now split. }
  split; [rewrite Hb; apply sumOf_zero; intros c Hin; apply (Hall c Hin)|].
  split; [rewrite Hc; apply sumOf_zero; intros c Hin; apply (Hall c Hin)|].
  intros p Hp. apply list_elem_of_In, list_elem_of_lookup in Hp as [i Hi].
  assert (Hlt : (i < length (speciesSetup st))%nat).
  { rewrite <- (yearRecord_perSpecies_length true (mort st) (scheduled st py)
                  (speciesSetup st) py 0).
    now apply lookup_lt_Some in Hi. }
  destruct (lookup_lt_is_Some_2 _ _ Hlt) as [sp' Hsp'].
  rewrite (yearRecord_species true (mort st) (scheduled st py) (speciesSetup st) py 0 i sp' Hsp')
    in Hi.
  injection Hi as <-.
  destruct (counted sp'); [|repeat split; reflexivity].
  destruct (fold_addToSpecies
              (speciesContributions true (mort st) (scheduled st py) py 0 sp') (initAgg sp'))
    as (_ & _ & H3 & H4 & _ & H6).
  rewrite H3, H4, H6. cbn [initAgg ps_credits ps_biomassKg ps_dbhCm].
  rewrite !sumOf_fold.
  split; [apply sumOf_zero; intros c Hin; apply (Hzero c sp' Hin)|].
  split; [apply sumOf_zero; intros c Hin; apply (Hzero c sp' Hin)|].
  destruct (last _) as [c|] eqn:Hl; [|reflexivity].
  apply last_Some in Hl as [l' Hl].
  apply (Hzero c sp'). rewrite Hl. apply in_or_app. right. now left.
Qed.

End YearZeroTheorems.

(** ** The result of the calculation *)

Section ResultTheorems.
Context `{Host}.
Local Open Scope float_scope.



(** The entries of a year record carry the identifiers of the species, in
    the order of the rows. *)
Lemma yearRecord_ids (st : State) force m sched py g :
  ps_speciesId <$> yr_perSpecies (yearRecord force m sched (speciesSetup st) py g)
  = row_id <$> rows st.
Proof.
  apply list_eq. intros j. rewrite !list_lookup_fmap.
  destruct (rows st !! j) as [r|] eqn:Hr.
  - assert (Hsp : speciesSetup st !! j = Some (setupRow st r))
      by (unfold speciesSetup; rewrite map_fmap, list_lookup_fmap, Hr; reflexivity).
    destruct (yearRecord_species_id force m sched (speciesSetup st) py g j _ Hsp)
      as (p & Hp & Hid & _).
    rewrite Hp. simpl. now rewrite Hid.
  - rewrite (lookup_ge_None_2 (yr_perSpecies _) j); [reflexivity|].
    rewrite yearRecord_perSpecies_length. unfold speciesSetup. rewrite length_map.
    now apply lookup_ge_None_1.
Qed.


(** C9: the schedule of a calculation has at most 200 entries, but the
    page sets no bound on the number of modeled years: the loop of line
    334 runs over [creditingEndYear - plantingYear + 1] years, however
    many, while the count the page shows as "Years modeled" ([yearsSpan])
    stops at 300. What ends the loop over more years than an array holds
    is the RangeError of [push], after 2^32 - 1 rounds. *)
Theorem modeled_years_not_bounded :
  (forall (st : State) (py : Z), (length (scheduled st py) <= 200)%nat)
  /\ (forall (st : State) (py ey : Z) (res : CalcResult),
        parseInt (plantingYear st) = Whole.Int py ->
        parseInt (creditingEndYear st) = Whole.Int ey ->
        calculate st = Stored res ->
        Z.of_nat (length (yearlyBreakdown res)) = Z.max 0 (ey - py + 1))
  /\ (validate Samples.centuries = None
      /\ parseInt (plantingYear Samples.centuries) = Whole.Int 2000%Z
      /\ parseInt (creditingEndYear Samples.centuries) = Whole.Int 2400%Z
      /\ yearsSpan Samples.centuries = Some 300%Z
      /\ calculate Samples.centuries = Stored (calcResult Samples.centuries)
      /\ length (yearlyBreakdown (calcResult Samples.centuries)) = 401%nat)
  /\ (forall (st : State) (py ey : Z),
        validate st = None ->
        parseInt (plantingYear st) = Whole.Int py ->
        parseInt (creditingEndYear st) = Whole.Int ey ->
        calculate st = if (maxArrayLength <=? ey - py)%Z then Thrown
                       else Stored (calcResult st)).
Proof.
  split; [apply scheduled_length|].
  split.
  { intros st py ey res Hpy Hey Hres.
    destruct (calculate_stored st res Hres) as (_ & Ht & ->).
    cbn [yearlyBreakdown calcResult resultOf].
    rewrite (tooMany_years st py ey Hpy Hey) in Ht. apply Z.leb_gt in Ht.
    rewrite (yearly_length st py ey Hpy Hey Ht). lia. }
  split.
  { assert (Hv : validate Samples.centuries = None) by (vm_compute; reflexivity).
    assert (Hpy : parseInt (plantingYear Samples.centuries) = Whole.Int 2000%Z)
      by (vm_compute; reflexivity).
    assert (Hey : parseInt (creditingEndYear Samples.centuries) = Whole.Int 2400%Z)
      by (vm_compute; reflexivity).
    split; [exact Hv|]. split; [exact Hpy|]. split; [exact Hey|].
    split; [vm_compute; reflexivity|].
    split.
    - rewrite (calculate_valid _ Hv), (tooMany_years _ 2000 2400 Hpy Hey). reflexivity.
    - cbn [yearlyBreakdown calcResult resultOf].
      rewrite (yearly_length Samples.centuries 2000 2400 Hpy Hey); reflexivity. }
  intros st py ey Hv Hpy Hey.
  now rewrite (calculate_valid st Hv), (tooMany_years st py ey Hpy Hey).
Qed.

End ResultTheorems.

(** ** The reference host never returns a negative power or exponential *)

Module RefFacts.
Import Sign.
Local Open Scope float_scope.

Lemma exp_notNeg x : notNeg (Ref.exp x).
Proof.
  unfold Ref.exp. destruct (x =? infinity); [reflexivity|].
  destruct (x =? neg_infinity); [reflexivity|]. apply FloatFacts.notNeg_square.
Qed.

Lemma iter_mul_notNeg (n : positive) : forall x, notNeg x -> notNeg (Pos.iter_op mul n x).
Proof.
  induction n as [n IH|n IH|]; intros x Hx; simpl.
  - apply FloatFacts.notNeg_mul; [exact Hx|]. apply IH. now apply FloatFacts.notNeg_mul.
  - apply IH. now apply FloatFacts.notNeg_mul.
  - exact Hx.
Qed.

(** A Number that is not negative is not a negative integer. *)
Lemma toInteger_notNeg y n : notNeg y -> Ref.toInteger y <> Some (Z.neg n).
Proof.
  rewrite FloatFacts.notNeg_spec. unfold Ref.toInteger.
  destruct (Prim2SF y) as [s|s| |[] m e]; simpl; try discriminate; try tauto.
  intros _. destruct (0 <=? e)%Z eqn:E.
  - intros Hn. injection Hn as Hn. apply Z.leb_le in E.
    assert (0 <= Z.pos m * 2 ^ e)%Z by (apply Z.mul_nonneg_nonneg; [lia | now apply Z.pow_nonneg]).
    lia.
  - destruct (Z.pos m mod 2 ^ (- e) =? 0)%Z; [|discriminate].
    intros Hn. injection Hn as Hn.
    assert (0 <= Z.pos m / 2 ^ (- e))%Z by (apply Z.div_pos; [lia | apply Z.pow_pos_nonneg; lia]).
    lia.
Qed.

Lemma pow_notNeg x y : notNeg x -> notNeg y -> notNeg (Ref.pow x y).
Proof.
  intros Hx Hy. unfold Ref.pow.
  destruct (is_nan y); [reflexivity|].
  destruct (y =? 0); [reflexivity|].
  destruct (is_nan x); [reflexivity|].
  assert (Hrest : notNeg (if is_infinity y
                          then if abs x =? 1 then nan
                               else if xorb (abs x <? 1) (y <? 0) then 0 else infinity
                          else if x <? 0 then nan else Ref.exp (y * Ref.log x))).
  { destruct (is_infinity y).
    - destruct (abs x =? 1); [reflexivity|]. destruct (xorb _ _); reflexivity.
    - destruct (x <? 0); [reflexivity | apply exp_notNeg]. }
  destruct (Ref.toInteger y) as [[|n|n]|] eqn:E; try exact Hrest.
  - now apply iter_mul_notNeg.
  - exfalso. now apply (toInteger_notNeg y n Hy).
Qed.

#[export] Instance laws : HostLaws Ref.host.
Proof. split; [exact exp_notNeg | exact pow_notNeg]. Qed.

End RefFacts.

(** ** No output is negative *)

Section SignTheorems.
Context `{Host} {HL : HostLaws H}.
Import Sign.
Local Open Scope float_scope.

Lemma signPos_100 : signPos 100.
Proof. exact I. Qed.

Lemma signPos_1000 : signPos 1000.
Proof. exact I. Qed.

Lemma defaultAllometry_notNeg D region : notNeg (defaultAllometryBiomassKg D region).
Proof.
  unfold defaultAllometryBiomassKg.
  destruct (_ || _)%bool; [reflexivity|].
  destruct region; apply exp_notNeg.
Qed.

(** The biomass function of a species never returns a negative Number. *)
Lemma eq_notNeg r D : notNeg (eq r D).
Proof.
  unfold eq. destruct (useCustom r); [|apply defaultAllometry_notNeg].
  destruct (negb _ && Num.ge _ 0)%bool eqn:E; [|apply defaultAllometry_notNeg].
  apply andb_prop in E as [_ E]. now apply FloatFacts.leb_0_notNeg.
Qed.

Lemma densityFromSpacing_notNeg s : notNeg (densityFromSpacing s).
Proof.
  unfold densityFromSpacing. destruct (_ || _)%bool; [reflexivity|].
  apply FloatFacts.notNeg_div; [reflexivity | apply FloatFacts.signPos_square].
Qed.

Lemma setupRow_good st r : goodSpecies (setupRow st r).
Proof.
  unfold goodSpecies, setupRow. cbn [sp_percent sp_densityHa sp_biomassFn].
  split; [apply FloatFacts.notNeg_max0|]. split; [|apply eq_notNeg].
  destruct (row_inputMode r); [apply densityFromSpacing_notNeg | apply FloatFacts.notNeg_max0].
Qed.

Lemma speciesSetup_good st sp : List.In sp (speciesSetup st) -> goodSpecies sp.
Proof.
  unfold speciesSetup. intros Hin. apply in_map_iff in Hin as (r & <- & _).
  apply setupRow_good.
Qed.

Lemma scheduled_area_notNeg st py sch :
  List.In sch (scheduled st py) -> notNeg (sch_areaHa sch).
Proof.
  unfold scheduled. destruct (useSchedule st).
  - destruct (clampInt _ 0 200) as [n|]; [|intros []].
    rewrite scheduleLoop_spec. simpl. intros Hin.
    apply list_elem_of_In, list_elem_of_fmap in Hin as (j & -> & _).
    apply FloatFacts.notNeg_max0.
  - intros [<-|[]]. apply FloatFacts.notNeg_max0.
Qed.

(** At an age that is not negative, a cohort of a sound species on a
    schedule entry of non-negative area contributes no negative measure. *)
Lemma contribution_notNeg force m sch sp age :
  goodSpecies sp -> notNeg (sch_areaHa sch) -> (1 <? m) = false -> (0 <= age)%Z ->
  let c := contribution force m sch sp age in
  notNeg (c_surviving c) /\ notNeg (c_biomassKg c) /\ notNeg (c_CO2eT c).
Proof.
  intros (Hp & Hd & Hf) Ha Hm Hage c.
  assert (Hs : notNeg (c_surviving c)).
  { unfold c, contribution. cbn [c_surviving].
    repeat apply FloatFacts.notNeg_mul; try assumption.
    - apply FloatFacts.notNeg_div; [exact Hp | exact signPos_100].
    - apply pow_notNeg; [now apply FloatFacts.notNeg_one_minus | now apply FloatFacts.notNeg_of_Z]. }
  assert (Hb : notNeg (c_biomassKg c)).
  { unfold c, contribution. cbn [c_biomassKg]. fold c.
    destruct (force && (age =? 0)%Z)%bool; [reflexivity|].
    apply FloatFacts.notNeg_mul; [apply Hf | exact Hs]. }
  split; [exact Hs|]. split; [exact Hb|].
  change (c_CO2eT c) with (kgBiomassToTonsCO2e (c_biomassKg c)).
  unfold kgBiomassToTonsCO2e.
  apply FloatFacts.notNeg_div; [|exact signPos_1000].
  repeat apply FloatFacts.notNeg_mul; try exact Hb; reflexivity.
Qed.

Lemma fold_add_notNeg {A : Type} (f : A -> float) (l : list A) :
  (forall x, List.In x l -> notNeg (f x)) ->
  forall a, notNeg a -> notNeg (fold_left (fun a x => a + f x) l a).
Proof.
  induction l as [|x l IH]; intros Hf a Ha; [exact Ha|].
  simpl. apply IH; [intros y Hy; apply Hf; now right|].
  apply FloatFacts.notNeg_add; [exact Ha | apply Hf; now left].
Qed.

Lemma active_age py g sch : active py g sch = true -> (0 <= cohortAge py g sch)%Z.
Proof.
  unfold active, cohortAge.
  destruct (Z.ltb_spec g (Whole.nearest (sch_year sch - py))); [discriminate|].
  intros _. apply WholeFacts.nearest_nonneg. lia.
Qed.

Lemma speciesContributions_good st py g sp c :
  goodSpecies sp ->
  List.In c (speciesContributions (forceYearZeroZero st) (mort st) (scheduled st py) py g sp) ->
  goodContribution c.
Proof.
  intros Hsp Hc. unfold speciesContributions in Hc.
  apply in_map_iff in Hc as (sch & <- & Hin). apply filter_In in Hin as [Hin Hact].
  apply contribution_notNeg; [exact Hsp | | apply mort_bounds | now apply active_age].
  now apply (scheduled_area_notNeg st py).
Qed.

Lemma yearContributions_good st py g c :
  List.In c (yearContributions (forceYearZeroZero st) (mort st) (scheduled st py)
               (speciesSetup st) py g) ->
  goodContribution c.
Proof.
  intros Hc. unfold yearContributions in Hc.
  apply in_flat_map in Hc as (sch & Hin & Hc). apply filter_In in Hin as [Hin Hact].
  unfold cohortContributions in Hc. apply in_map_iff in Hc as (sp & <- & Hsp).
  apply filter_In in Hsp as [Hsp _].
  apply contribution_notNeg; [| | apply mort_bounds | now apply active_age].
  - now apply (speciesSetup_good st).
  - now apply (scheduled_area_notNeg st py).
Qed.

Lemma yearRecord_good st py g :
  goodRecord (yearRecord (forceYearZeroZero st) (mort st) (scheduled st py)
                (speciesSetup st) py g).
Proof.
  set (force := forceYearZeroZero st). set (sched := scheduled st py).
  set (setup := speciesSetup st).
  destruct (yearRecord_totals force (mort st) sched setup py g) as (Hb & Hc & Ht).
  unfold goodRecord. rewrite Hb, Hc, Ht. unfold sumOf.
  split; [|split; [|split]];
    try (apply fold_add_notNeg; [|reflexivity];
         intros c Hin; apply (yearContributions_good st py g c Hin)).
  intros p Hp. apply list_elem_of_In, list_elem_of_lookup in Hp as [i Hi].
  assert (Hlt : (i < length setup)%nat).
  { rewrite <- (yearRecord_perSpecies_length force (mort st) sched setup py g).
    now apply lookup_lt_Some in Hi. }
  destruct (lookup_lt_is_Some_2 _ _ Hlt) as [sp Hsp].
  rewrite (yearRecord_species force (mort st) sched setup py g i sp Hsp) in Hi.
  injection Hi as <-.
  destruct (counted sp); [|repeat split; reflexivity].
  destruct (fold_addToSpecies (speciesContributions force (mort st) sched py g sp) (initAgg sp))
    as (_ & _ & H3 & H4 & H5 & _).
  assert (Hgood : goodSpecies sp).
  { apply (speciesSetup_good st). apply list_elem_of_In, list_elem_of_lookup. now exists i. }
  unfold goodEntry. rewrite H3, H4, H5.
  repeat split; (apply fold_add_notNeg; [|reflexivity]);
    intros c Hin; apply (speciesContributions_good st py g sp c Hgood Hin).
Qed.

Lemma yearly_good st d : List.In d (yearly st) -> goodRecord d.
Proof.
  intros Hd. destruct (yearly_records st d Hd) as (py & g & _ & ->).
  apply yearRecord_good.
Qed.

(** C10, as the code has it: the credits, the biomass and the surviving
    trees of every year record and of every per-species entry, the total
    credits of every species and the overall total are never negative: each
    is either not below zero or NaN. (The diameter [dbhCm] of a per-species
    entry is not among them: it follows the initial diameter and the growth
    rate, whatever their signs.) *)
Theorem outputs_never_negative (st : State) :
  let res := calcResult st in
  nonNegOrNaN (totalCredits res)
  /\ (forall t, List.In t (speciesSummary res) -> nonNegOrNaN (st_totalCredits t))
  /\ (forall d, List.In d (yearlyBreakdown res) ->
        nonNegOrNaN (yr_credits d) /\ nonNegOrNaN (yr_biomassKg d)
        /\ nonNegOrNaN (yr_survivingTrees d)
        /\ forall p, List.In p (yr_perSpecies d) ->
             nonNegOrNaN (ps_credits p) /\ nonNegOrNaN (ps_biomassKg p)
             /\ nonNegOrNaN (ps_survivingTrees p)).
Proof.
  intros res. unfold res, calcResult, nonNegOrNaN.
  cbn [totalCredits speciesSummary yearlyBreakdown].
  split; [|split].
  - apply FloatFacts.notNeg_iff. apply fold_add_notNeg; [|reflexivity].
    intros d Hd. apply (yearly_good st d Hd).
  - intros t Ht. apply in_map_iff in Ht as (sp & <- & _). cbn [st_totalCredits].
    apply FloatFacts.notNeg_iff. unfold sumSpecies.
    assert (Hgen : forall l a, (forall d, List.In d l -> goodRecord d) -> notNeg a ->
      notNeg (fold_left
                (fun sum d =>
                   match List.find (fun p => Str.eqb (ps_speciesId p) (sp_id sp))
                           (yr_perSpecies d) with
                   | Some ps => sum + ps_credits ps
                   | None => sum + 0
                   end) l a)).
    { induction l as [|d l IH]; intros a Hl Ha; [exact Ha|].
      simpl. apply IH; [intros d' Hd'; apply Hl; now right|].
      destruct (List.find _ _) as [ps|] eqn:Hf.
      - apply FloatFacts.notNeg_add; [exact Ha|].
        apply find_some in Hf as [Hin _].
        destruct (Hl d (or_introl eq_refl)) as (_ & _ & _ & Hps).
        apply (Hps ps Hin).
      - apply FloatFacts.notNeg_add; [exact Ha | reflexivity]. }
    apply Hgen; [apply yearly_good | reflexivity].
  - intros d Hd. destruct (yearly_good st d Hd) as (H1 & H2 & H3 & H4).
    rewrite <- !FloatFacts.notNeg_iff.
    split; [exact H1|]. split; [exact H2|]. split; [exact H3|].
    intros p Hp. destruct (H4 p Hp) as (P1 & P2 & P3).
    rewrite <- !FloatFacts.notNeg_iff. repeat split; assumption.
Qed.

End SignTheorems.

(** * The helpers, the schedule table and the species rows *)

(** ** Order and NaN on Numbers *)

Module OrderFacts.
Import Sign FloatFacts.
Local Open Scope float_scope.

Lemma SFcompare_antisym a b : SFcompare b a = option_map CompOpp (SFcompare a b).
Proof.
  unfold SFcompare.
  destruct a as [[]|[]| |[] ma ea], b as [[]|[]| |[] mb eb]; simpl; try reflexivity;
    change (IntDef.Z.compare ?a ?b) with (Z.compare a b);
    rewrite (Z.compare_antisym ea eb);
    (assert (HA : PosDef.Pos.compare_cont Eq mb ma
                  = CompOpp (PosDef.Pos.compare_cont Eq ma mb))
       by (symmetry; apply (Pos.compare_cont_antisym ma mb Eq)));
    rewrite HA;
    destruct (ea ?= eb)%Z; simpl; auto;
    destruct (PosDef.Pos.compare_cont Eq ma mb); reflexivity.
Qed.

Lemma SFcompare_refl a : a <> S754_nan -> SFcompare a a = Some Eq.
Proof.
  intros Ha. unfold SFcompare.
  destruct a as [[]|[]| |[] ma ea]; simpl; try reflexivity; try congruence;
    change (IntDef.Z.compare ea ea) with (Z.compare ea ea);
    change (PosDef.Pos.compare_cont Eq ma ma) with (Pos.compare_cont Eq ma ma);
    rewrite Z.compare_refl, Pos.compare_cont_refl; reflexivity.
Qed.

Lemma SFcompare_some a b : a <> S754_nan -> b <> S754_nan -> exists c, SFcompare a b = Some c.
Proof.
  intros Ha Hb. unfold SFcompare.
  destruct a as [[]|[]| |[] ma ea], b as [[]|[]| |[] mb eb]; simpl; try congruence; eauto.
Qed.

Lemma is_nan_false x : is_nan x = false <-> Prim2SF x <> S754_nan.
Proof. rewrite is_nan_spec. destruct (Prim2SF x); split; congruence. Qed.

(** A comparison that holds has no NaN operand. *)
Lemma ltb_not_nan x y : (x <? y) = true -> is_nan x = false /\ is_nan y = false.
Proof.
  rewrite ltb_spec, !is_nan_spec. unfold SFltb, SFcompare.
  destruct (Prim2SF x) as [[]|[]| |[] ? ?], (Prim2SF y) as [[]|[]| |[] ? ?];
    simpl; intros; try discriminate; auto.
Qed.

Lemma leb_not_nan x y : (x <=? y) = true -> is_nan x = false /\ is_nan y = false.
Proof.
  rewrite leb_spec, !is_nan_spec. unfold SFleb, SFcompare.
  destruct (Prim2SF x) as [[]|[]| |[] ? ?], (Prim2SF y) as [[]|[]| |[] ? ?];
    simpl; intros; try discriminate; auto.
Qed.

Lemma leb_refl x : is_nan x = false -> (x <=? x) = true.
Proof.
  rewrite is_nan_false, leb_spec. intros Hx. unfold SFleb.
  now rewrite SFcompare_refl.
Qed.

Lemma ltb_leb x y : (x <? y) = true -> (x <=? y) = true.
Proof.
  rewrite ltb_spec, leb_spec. unfold SFltb, SFleb.
  destruct (SFcompare _ _) as [[]|]; auto.
Qed.

(** Numbers that are not NaN are totally ordered. *)
Lemma not_ltb_leb x y : is_nan x = false -> is_nan y = false ->
  (x <? y) = false -> (y <=? x) = true.
Proof.
  rewrite !is_nan_false, ltb_spec, leb_spec. intros Hx Hy. unfold SFltb, SFleb.
  rewrite (SFcompare_antisym (Prim2SF x) (Prim2SF y)).
  destruct (SFcompare_some _ _ Hx Hy) as [c ->]. destruct c; simpl; auto.
Qed.

Lemma leb_0_truthy_or v : is_nan (Num.or_else v 0) = false.
Proof.
  unfold Num.or_else, Num.truthy.
  destruct (is_nan v) eqn:E; simpl; [reflexivity|].
  destruct (is_zero v); simpl; auto.
Qed.

(** [Math.max(0, x)] is a Number at least 0 unless [x] is NaN. *)
Lemma max0_ge x : is_nan x = false -> (0 <=? Num.max 0 x) = true.
Proof.
  intros Hx. unfold Num.max. rewrite Hx. simpl.
  destruct (0 <? x) eqn:E; [now apply ltb_leb|].
  destruct (x <? 0); reflexivity.
Qed.

(** [Math.max(0, x || 0)] is [x || 0] when [x < 0] is false. *)
Lemma max0_or_else v : (v <? 0) = false -> Num.max 0 (Num.or_else v 0) = Num.or_else v 0.
Proof.
  intros Hv. unfold Num.or_else. rewrite truthy_spec, Hv. simpl.
  destruct (0 <? v) eqn:E; [|reflexivity].
  unfold Num.max. destruct (ltb_not_nan _ _ E) as [_ ->]. simpl. now rewrite E.
Qed.

(** The guard of [densityFromSpacing]: it lets exactly the positive
    spacings through. *)
Lemma spacing_guard s : (negb (Num.truthy s) || Num.le s 0)%bool = negb (0 <? s).
Proof.
  unfold Num.truthy, Num.le, is_zero.
  rewrite is_nan_spec, FloatAxioms.eqb_spec, leb_spec, ltb_spec.
  change (Prim2SF 0) with (S754_zero false).
  destruct (Prim2SF s) as [[]|[]| |[] m e]; reflexivity.
Qed.

Local Open Scope Z_scope.

(** Rounding a mantissa that is not negative does not give NaN. *)
Lemma shr_1_nonneg mrs : 0 <= shr_m mrs -> 0 <= shr_m (shr_1 mrs).
Proof.
  destruct mrs as [m r s]. simpl. intros Hm.
  destruct m as [|p|p]; simpl; try lia; destruct p; simpl; lia.
Qed.

Lemma iter_shr_1_nonneg p : forall mrs,
  0 <= shr_m mrs -> 0 <= shr_m (SpecFloat.iter_pos shr_1 p mrs).
Proof.
  induction p; intros mrs Hm; simpl; auto using shr_1_nonneg.
Qed.

Lemma shr_nonneg mrs e n : 0 <= shr_m mrs -> 0 <= shr_m (fst (shr mrs e n)).
Proof.
  intros Hm. unfold shr. destruct n; simpl; auto.
  now apply iter_shr_1_nonneg.
Qed.

Lemma shr_fexp_nonneg m e l : 0 <= m -> 0 <= shr_m (fst (shr_fexp prec emax m e l)).
Proof.
  intros Hm. unfold shr_fexp. apply shr_nonneg.
  unfold shr_record_of_loc. destruct l as [|[]]; simpl; exact Hm.
Qed.

Lemma round_aux_not_nan s m e l : 0 <= m -> binary_round_aux prec emax s m e l <> S754_nan.
Proof.
  intros Hm. unfold binary_round_aux.
  pose proof (shr_fexp_nonneg m e l Hm) as H1.
  destruct (shr_fexp prec emax m e l) as [mrs' e']. simpl in H1.
  set (m1 := round_nearest_even _ _).
  assert (Hm1 : 0 <= m1).
  { unfold m1, round_nearest_even.
    destruct (loc_of_shr_record mrs') as [|[]]; try lia.
    destruct (IntDef.Z.even _); lia. }
  pose proof (shr_fexp_nonneg m1 e' loc_Exact Hm1) as H2.
  destruct (shr_fexp prec emax m1 e' loc_Exact) as [mrs'' e'']. simpl in H2.
  destruct (shr_m mrs''); try lia; try discriminate.
  destruct (Z.leb e'' _); discriminate.
Qed.

Local Close Scope Z_scope.

(** The product of two positive Numbers is not NaN and not negative (it
    may round to zero or to Infinity). *)
Lemma mul_pos_pos x y : (0 <? x) = true -> (0 <? y) = true ->
  is_nan (x * y) = false /\ signPos (x * y).
Proof.
  unfold signPos. rewrite !ltb_spec, is_nan_spec, mul_spec.
  change (Prim2SF 0) with (S754_zero false).
  destruct (Prim2SF x) as [[]|[]| |[] mx ex], (Prim2SF y) as [[]|[]| |[] my ey];
    cbn; try discriminate; intros _ _; auto.
  pose proof (round_aux_not_nan false (Z.pos (mx * my)) (ex + ey) SpecFloat.loc_Exact
                ltac:(lia)) as Hn.
  pose proof (round_aux_sp (Z.pos (mx * my)) (ex + ey) SpecFloat.loc_Exact) as Hs.
  change (xorb false false) with false.
  destruct (binary_round_aux _ _ _ _ _ _); auto; congruence.
Qed.

Lemma SFdiv_finite_pos mx ex my ey :
  match SF64div (S754_finite false mx ex) (S754_finite false my ey) with
  | S754_nan => False
  | S754_zero s | S754_infinity s | S754_finite s _ _ => s = false
  end.
Proof.
  unfold SF64div, SFdiv.
  destruct (SFdiv_core_binary _ _ _ _ _ _) as [[mz ez] lz] eqn:E.
  assert (Hmz : (0 <= mz)%Z).
  { unfold SFdiv_core_binary in E.
    set (m' := match _ with Z0 => Z.pos mx | Z.pos _ => _ | Z.neg _ => _ end) in E.
    assert (Hm' : (0 <= m')%Z).
    { subst m'. destruct (_ - _ - _)%Z; try lia.
      change (IntDef.Z.shiftl ?a ?b) with (Z.shiftl a b).
      apply Z.shiftl_nonneg. lia. }
    change (IntDef.Z.div_eucl m' (Z.pos my)) with (Z.div_eucl m' (Z.pos my)) in E.
    pose proof (Z_div_mod m' (Z.pos my) ltac:(lia)) as Hd.
    destruct (Z.div_eucl m' (Z.pos my)) as [q r].
    inversion E; subst. nia. }
  pose proof (round_aux_not_nan (xorb false false) mz ez lz Hmz) as Hn.
  pose proof (round_aux_sign (xorb false false) mz ez lz) as Hs.
  destruct (binary_round_aux _ _ _ _ _ _); auto.
Qed.

(** A positive finite Number divided by a Number with clear sign bit is a
    Number at least 0. *)
Lemma div_finite_ge0 x y mx ex :
  Prim2SF x = S754_finite false mx ex -> is_nan y = false -> signPos y ->
  (0 <=? x / y) = true.
Proof.
  unfold signPos. rewrite is_nan_spec, leb_spec, div_spec. intros ->.
  change (Prim2SF 0) with (S754_zero false).
  destruct (Prim2SF y) as [[]|[]| |[] my ey];
    try (simpl; intros; (discriminate || tauto || reflexivity)).
  intros _ _.
  pose proof (SFdiv_finite_pos mx ex my ey) as Hd.
  destruct (SF64div _ _) as [[]|[]| |[] ? ?]; simpl in *; auto; try tauto; discriminate.
Qed.

End OrderFacts.

(** ** The numeric helpers *)

Section HelperTheorems.
Context `{Host}.
Import Sign FloatFacts OrderFacts.
Local Open Scope float_scope.

(** X1 (densityFromSpacing, lines 92-95). For a spacing [s] the density is
    [10000 / (s * s)] exactly when [s > 0], and 0 for every other Number
    (zero, negative, NaN). Whatever the spacing, the result is a Number at
    least 0 and never NaN. *)
Theorem densityFromSpacing_never_NaN (s : float) :
  densityFromSpacing s = (if 0 <? s then 10000 / (s * s) else 0)
  /\ Num.ge (densityFromSpacing s) 0 = true
  /\ Num.isNaN (densityFromSpacing s) = false.
Proof.
  assert (Hd : densityFromSpacing s = (if 0 <? s then 10000 / (s * s) else 0)).
  { unfold densityFromSpacing. rewrite spacing_guard. now destruct (0 <? s). }
  assert (Hge : (0 <=? densityFromSpacing s) = true).
  { rewrite Hd. destruct (0 <? s) eqn:E; [|reflexivity].
    destruct (mul_pos_pos s s E E) as [Hn Hs].
    eapply div_finite_ge0; [vm_compute; reflexivity | exact Hn | exact Hs]. }
  split; [exact Hd|]. split; [exact Hge|].
  now destruct (leb_not_nan _ _ Hge).
Qed.

Lemma clamp_nan n lo hi : is_nan n = true -> clamp n lo hi = Num.NaN.
Proof.
  intros Hn. unfold clamp, Num.min. rewrite Hn, orb_true_r.
  unfold Num.max. change (is_nan Num.NaN) with true. now rewrite orb_true_r.
Qed.

Lemma clamp_bounded n lo hi : (lo <=? hi) = true -> is_nan n = false ->
  (lo <=? clamp n lo hi) = true /\ (clamp n lo hi <=? hi) = true.
Proof.
  intros Hb Hn. destruct (leb_not_nan _ _ Hb) as [Hlo Hhi]. unfold clamp.
  assert (Hm : is_nan (Num.min hi n) = false /\ (Num.min hi n <=? hi) = true).
  { unfold Num.min. rewrite Hhi, Hn. simpl.
    destruct (hi <? n) eqn:E1; [split; [exact Hhi | now apply leb_refl]|].
    destruct (n <? hi) eqn:E2; [split; [exact Hn | now apply ltb_leb]|].
    destruct (Num.is_neg_zero hi);
      [split; [exact Hhi | now apply leb_refl] | split; [exact Hn | now apply not_ltb_leb]]. }
  destruct Hm as [Hmn Hmh]. set (m := Num.min hi n) in *.
  unfold Num.max. rewrite Hlo, Hmn. simpl.
  destruct (lo <? m) eqn:E1; [split; [now apply ltb_leb | exact Hmh]|].
  destruct (m <? lo) eqn:E2; [split; [now apply leb_refl | exact Hb]|].
  destruct (Num.is_neg_zero lo);
    [split; [now apply not_ltb_leb | exact Hmh] | split; [now apply leb_refl | exact Hb]].
Qed.

(** The bounds of a clamped Number, for the uses of [clamp] in the page. *)
Lemma clamp_range n lo hi : (lo <=? hi) = true ->
  Num.isNaN (clamp n lo hi) = true
  \/ (Num.le lo (clamp n lo hi) = true /\ Num.le (clamp n lo hi) hi = true).
Proof.
  intros Hb. destruct (is_nan n) eqn:Hn.
  - left. now rewrite clamp_nan.
  - right. now apply clamp_bounded.
Qed.

(** X2 (clamp, lines 97-99). With bounds [lo <= hi]: a NaN input gives NaN;
    every other input gives a Number between [lo] and [hi]; an input
    strictly between the bounds is returned unchanged. *)
Theorem clamp_within_bounds (n lo hi : float) :
  (lo <=? hi) = true ->
  (Num.isNaN n = true -> clamp n lo hi = Num.NaN)
  /\ (Num.isNaN n = false ->
      Num.le lo (clamp n lo hi) = true /\ Num.le (clamp n lo hi) hi = true)
  /\ ((lo <? n) = true -> (n <? hi) = true -> clamp n lo hi = n).
Proof.
  intros Hb. split; [apply clamp_nan|]. split; [now apply clamp_bounded|].
  intros H1 H2. destruct (leb_not_nan _ _ Hb) as [Hlo Hhi].
  destruct (ltb_not_nan _ _ H1) as [_ Hn].
  unfold clamp, Num.min. rewrite Hhi, Hn, (ltb_asym _ _ H2), H2. simpl.
  unfold Num.max. rewrite Hlo, Hn, H1. reflexivity.
Qed.

End HelperTheorems.

Section SetupTheorems.
Context `{Host}.
Import Sign FloatFacts OrderFacts.
Local Open Scope float_scope.

(** X3 (the callback of rows.map in calculate, lines 300-329). What a row
    becomes in [speciesSetup], whatever was typed: the id is kept; the name
    is never empty ('Unnamed' stands in); the percent is NaN or within
    [0, 100]; with spacing input the density is a Number at least 0, with
    density input it is NaN or at least 0; the initial diameter is never
    NaN (it may be negative); the growth rate is NaN only when the default
    growth rate is. *)
Theorem setupRow_normalises (st : State) (r : SpeciesRow) :
  let sp := setupRow st r in
  sp_id sp = row_id r
  /\ Str.truthy (sp_name sp) = true
  /\ (Num.isNaN (sp_percent sp) = true
      \/ (Num.le 0 (sp_percent sp) = true /\ Num.le (sp_percent sp) 100 = true))
  /\ match row_inputMode r with
     | spacingMode => Num.ge (sp_densityHa sp) 0 = true
     | densityMode =>
         Num.isNaN (sp_densityHa sp) = true \/ Num.ge (sp_densityHa sp) 0 = true
     end
  /\ Num.isNaN (sp_initialDbhCm sp) = false
  /\ (Num.isNaN (sp_growthRateCmYr sp) = true -> Num.isNaN (defaultGR st) = true).
Proof.
  cbv zeta. unfold setupRow. cbn [sp_id sp_name sp_percent sp_densityHa sp_initialDbhCm
                                   sp_growthRateCmYr].
  split; [reflexivity|].
  split; [unfold Str.or_else; destruct (row_name r); reflexivity|].
  split; [apply clamp_range; reflexivity|].
  split.
  { destruct (row_inputMode r).
    - generalize (parseFloat (Str.opt_or_else (row_spacing r) (js "0"))). intros s.
      pose proof (spacing_guard s) as Hg.
      unfold densityFromSpacing. rewrite Hg. unfold Num.ge.
      destruct (0 <? s) eqn:E; [|reflexivity].
      destruct (mul_pos_pos s s E E) as [Hn Hs].
      eapply div_finite_ge0; [vm_compute; reflexivity | exact Hn | exact Hs].
    - generalize (parseFloat (Str.opt_or_else (row_density r) (js "0"))). intros d.
      unfold Num.isNaN, Num.ge.
      destruct (is_nan d) eqn:E.
      + left. unfold Num.max. now rewrite E, orb_true_r.
      + right. now apply max0_ge. }
  split; [apply leb_0_truthy_or|].
  unfold gr, Num.isNaN. generalize (defaultGR st).
  generalize (parseFloat (Str.opt_or_else (row_growthRateCmYr r) (js ""))).
  intros v d. unfold Num.or_else, Num.truthy.
  destruct (is_nan v) eqn:E; cbn [orb negb]; [auto|].
  destruct (is_zero v); cbn [orb negb]; [auto|]. congruence.
Qed.

End SetupTheorems.

(** ** The evaluator of custom equations *)

Module TrimFacts.

Lemma trimStart_head s :
  match Str.trimStart s with c :: _ => Str.isWhiteSpace c = false | [] => True end.
Proof.
  induction s as [|c s IH]; simpl; [exact I|].
  destruct (Str.isWhiteSpace c) eqn:E; [exact IH | exact E].
Qed.

Lemma trimStart_idem s : Str.trimStart (Str.trimStart s) = Str.trimStart s.
Proof.
  pose proof (trimStart_head s) as Hh.
  destruct (Str.trimStart s) as [|c t]; [reflexivity|]. simpl. now rewrite Hh.
Qed.

Lemma trimStart_snoc c : Str.isWhiteSpace c = false -> forall l,
  Str.trimStart (l ++ [c]) = Str.trimStart l ++ [c].
Proof.
  intros Hc. induction l as [|a l IH]; simpl; [now rewrite Hc|].
  destruct (Str.isWhiteSpace a); [exact IH | reflexivity].
Qed.

Lemma trimEnd_cons c u : Str.isWhiteSpace c = false ->
  Str.trimEnd (c :: u) = c :: Str.trimEnd u.
Proof.
  intros Hc. unfold Str.trimEnd. simpl.
  rewrite (trimStart_snoc c Hc), rev_app_distr. reflexivity.
Qed.

Lemma trimEnd_idem u : Str.trimEnd (Str.trimEnd u) = Str.trimEnd u.
Proof. unfold Str.trimEnd. now rewrite rev_involutive, trimStart_idem. Qed.

(** [trim] strips all there is to strip. *)
Lemma trim_idem s : Str.trim (Str.trim s) = Str.trim s.
Proof.
  unfold Str.trim. pose proof (trimStart_head s) as Hh.
  destruct (Str.trimStart s) as [|c u]; [reflexivity|].
  rewrite (trimEnd_cons c u Hh). simpl. rewrite Hh.
  now rewrite (trimEnd_cons c _ Hh), trimEnd_idem.
Qed.

End TrimFacts.

Section EvaluatorTheorems.
Context `{Host}.
Local Open Scope N_scope.

(** The letter [i] is outside the whitelist, in either case. *)
Lemma canon_I_disallowed c : Str.canon c = 73 -> allowedChar c = false.
Proof.
  unfold Str.canon. intros Hc.
  destruct ((97 <=? c) && (c <=? 122)) eqn:E.
  - assert (c = 105).
    { apply andb_prop in E as [E1 E2]. apply N.leb_le in E1. lia. }
    subst c. reflexivity.
  - subst c. reflexivity.
Qed.

Lemma replaceAll_none (m : jsstring -> option nat) (repl : jsstring) s :
  (forall pre t, s = pre ++ t -> m t = None) -> Str.replaceAll m repl O s = s.
Proof.
  induction s as [|c s IH]; intros Hm; simpl; [reflexivity|].
  rewrite (Hm [] (c :: s) eq_refl). f_equal. apply IH.
  intros pre t ->. now apply (Hm (c :: pre)).
Qed.

Lemma matchCall_MIN t k :
  matchCall (js "MIN") t = Some k -> exists c, List.In c t /\ Str.canon c = 73.
Proof.
  unfold matchCall. change (js "MIN") with [77; 73; 78].
  destruct t as [|c1 [|c2 t]]; simpl; try discriminate.
  - destruct (Str.canon c1 =? 77); discriminate.
  - destruct (Str.canon c1 =? 77); [|discriminate].
    destruct (Str.canon c2 =? 73) eqn:E; [|discriminate].
    intros _. exists c2. split; [now right; left | now apply N.eqb_eq].
Qed.

Lemma replaceAll_Forall (P : jschar -> Prop) (m : jsstring -> option nat) (repl : jsstring) :
  Forall P repl -> forall s skip, Forall P s -> Forall P (Str.replaceAll m repl skip s).
Proof.
  intros Hr. induction s as [|c s IH]; intros skip Hs; simpl; [constructor|].
  inversion Hs; subst. destruct skip; [|now apply IH].
  destruct (m (c :: s)) as [[|k]|].
  - constructor; auto.
  - apply Forall_app. split; auto.
  - constructor; auto.
Qed.

(** No [min(] is found in a string without the letter [i]. *)
Lemma replaceCall_MIN_id s :
  Forall (fun c => Str.canon c <> 73) s -> replaceCall "MIN" "Math.min(" s = s.
Proof.
  intros Hs. unfold replaceCall. apply replaceAll_none.
  intros pre t ->. destruct (matchCall (js "MIN") t) as [k|] eqn:E; [|reflexivity].
  destruct (matchCall_MIN t k E) as (c & Hin & Hc).
  rewrite List.Forall_forall in Hs. now destruct (Hs c (in_or_app pre t c (or_intror Hin))).
Qed.

(** X4 (evalBiomassExpr, lines 114-151; the caller's fallback, lines
    310-317). The whitelist of line 120 has no letter [i]: an equation with
    an [i] or [I] anywhere evaluates to NaN, hence so does every equation
    that calls [min(]; the replacement of [min(] by [Math.min(] in line 131
    finds nothing in an equation that passed the whitelist, so the
    rewriting of lines 126-136 is the one without that line; and a species
    whose custom equation calls [min(] gets the default allometry. *)
Theorem evalBiomassExpr_min_unusable (D : float) (s : jsstring) :
  (forall c, List.In c s -> Str.canon c = 73 -> evalBiomassExpr D s = Num.NaN)
  /\ (Str.anywhere (Str.starts_ci (js "MIN")) s = true -> evalBiomassExpr D s = Num.NaN)
  /\ (allowed s = true ->
      rewrite s =
        replaceD None
          (replaceCall "MAX" "Math.max("
             (replaceCall "POW" "Math.pow("
                (replaceCall "SQRT" "Math.sqrt("
                   (replaceCall "EXP" "Math.exp("
                      (replaceCall "LN" "Math.log(" s))))))
  /\ (forall r, row_customEquation r = Some s ->
        Str.anywhere (Str.starts_ci (js "MIN")) s = true ->
        eq r D = defaultAllometryBiomassKg D (row_region r)).
Proof.
  assert (HI : forall c, List.In c s -> Str.canon c = 73 -> evalBiomassExpr D s = Num.NaN).
  { intros c Hin Hc. apply (evalBiomassExpr_disallowed D c s Hin).
    now apply canon_I_disallowed. }
  assert (Hmin : Str.anywhere (Str.starts_ci (js "MIN")) s = true ->
                 evalBiomassExpr D s = Num.NaN).
  { intros Ha.
    destruct (StrFacts.anywhere_In (js "MIN") s 73 Ha) as (c & Hin & Hc);
      [right; left; reflexivity|].
    now apply (HI c). }
  split; [exact HI|]. split; [exact Hmin|]. split.
  - intros Ha. unfold rewrite. rewrite replaceCall_MIN_id; [reflexivity|].
    assert (Hs : Forall (fun c => Str.canon c <> 73) s).
    { apply List.Forall_forall. intros c Hin Hc.
      pose proof (allowed_In c _ Ha Hin) as Hok.
      rewrite (canon_I_disallowed c Hc) in Hok. discriminate. }
    unfold replaceCall.
    repeat (apply replaceAll_Forall;
            [vm_compute; repeat constructor; discriminate|]).
    exact Hs.
  - intros r Hr Ha. unfold eq. destruct (useCustom r); [|reflexivity].
    rewrite Hr. cbn [Str.opt_or_else].
    assert (Hs : Str.or_else s (js "") = s) by (destruct s; reflexivity).
    rewrite Hs, (Hmin Ha). reflexivity.
Qed.

(** X5 (evalBiomassExpr, lines 115-143). White space around an equation
    does not change what is evaluated: [evalBiomassExpr] returns NaN
    without a run, or runs [new Function] once on the body of
    [functionBody] and filters what that returns; and an input whose
    trimmed form is not empty gets the same body as its trimmed form. *)
Theorem evalBiomassExpr_ignores_outer_space (D : float) (s : jsstring) :
  evalBiomassExpr D s =
    match functionBody s with
    | None => Num.NaN
    | Some body =>
        match runFunction body D with
        | ReturnNumber val => if negb (Num.isFinite val) then Num.NaN else val
        | ReturnOther => Num.NaN
        | Throw => Num.NaN
        end
    end
  /\ (Str.truthy (Str.trim s) = true -> functionBody (Str.trim s) = functionBody s).
Proof.
  split.
  - unfold evalBiomassExpr, functionBody.
    destruct (negb (Str.truthy s)); [reflexivity|].
    destruct (negb (allowed (Str.trim s))); [reflexivity|].
    destruct (blocked (rewrite (Str.trim s))); reflexivity.
  - intros Ht. unfold functionBody. rewrite TrimFacts.trim_idem, Ht.
    destruct s as [|a s]; [discriminate|]. reflexivity.
Qed.

End EvaluatorTheorems.

(** ** The planting schedule and its table *)

Section ScheduleFacts.
Context `{Host}.
Import FloatFacts OrderFacts.

(** [find] returns the first element that passes the test. *)
Lemma find_first {A : Type} (f : A -> bool) (l : list A) : forall i x,
  l !! i = Some x -> f x = true ->
  (forall j y, (j < i)%nat -> l !! j = Some y -> f y = false) ->
  List.find f l = Some x.
Proof.
  induction l as [|a l IH]; intros i x Hi Hx Hfirst; [discriminate|].
  destruct i as [|i]; simpl in *.
  - inversion Hi; subst. now rewrite Hx.
  - rewrite (Hfirst O a ltac:(lia) eq_refl).
    apply (IH i x Hi Hx). intros j y Hj Hy. apply (Hfirst (S j) y); [lia | exact Hy].
Qed.

Lemma find_none {A : Type} (f : A -> bool) (l : list A) :
  (forall x, List.In x l -> f x = false) -> List.find f l = None.
Proof.
  induction l as [|a l IH]; intros Hf; simpl; [reflexivity|].
  rewrite (Hf a (or_introl eq_refl)). apply IH. intros x Hx. apply Hf. now right.
Qed.

(** The row the refresh builds for year [y], lines 204-205. *)
Lemma refreshLoop_spec (old : list ScheduleRow) (py : Whole.t) (k : nat) :
  forall i acc,
    refreshLoop old py k i acc =
      acc ++ ((fun j => {| srow_year := Whole.add py (Whole.Int j);
                           srow_areaHa := keptArea old (Whole.add py (Whole.Int j)) |})
              <$> seqZ i (Z.of_nat k)).
Proof.
  induction k as [|k IH]; intros i acc.
  - simpl. now rewrite app_nil_r.
  - cbn [refreshLoop]. rewrite IH, <- app_assoc.
    rewrite (seqZ_cons i (Z.of_nat (S k))) by lia.
    replace (Z.pred (Z.of_nat (S k))) with (Z.of_nat k) by lia.
    reflexivity.
Qed.

Lemma refreshSchedule_built (st : State) :
  refreshSchedule st = builtRow (customSchedule st) <$> refreshedYears st.
Proof.
  unfold refreshSchedule, refreshedYears.
  destruct (negb (useSchedule st)); [reflexivity|].
  destruct (clampInt _ 0 200) as [n|] eqn:Hn; [|reflexivity].
  pose proof (clampInt_range _ 0 200 n ltac:(lia) Hn) as Hr.
  rewrite refreshLoop_spec. simpl. rewrite Z2Nat.id by lia.
  now rewrite <- list_fmap_compose.
Qed.

Lemma refreshedYears_with (st : State) (cs : list ScheduleRow) :
  refreshedYears (withCustomSchedule st cs) = refreshedYears st.
Proof. reflexivity. Qed.

(** The table a refresh builds when the number of schedule years is a
    number. *)
Lemma refreshSchedule_spec (st : State) (n : Z) :
  useSchedule st = true ->
  clampInt (parseInt (Str.or_else (scheduleYears st) (js "0"))) 0 200 = Some n ->
  refreshSchedule st =
    (fun j => builtRow (customSchedule st)
                (Whole.add (parseInt (Str.or_else (plantingYear st) (js "0"))) (Whole.Int j)))
    <$> seqZ 0 n.
Proof.
  intros Hu Hn. rewrite refreshSchedule_built. unfold refreshedYears.
  rewrite Hu, Hn. simpl. now rewrite <- list_fmap_compose.
Qed.

(** No row is kept for the year NaN. *)
Lemma keptArea_NaN (old : list ScheduleRow) (y : Whole.t) :
  Whole.isNaN y = true -> keptArea old y = [].
Proof.
  intros Hy. unfold keptArea. rewrite find_none; [reflexivity|].
  intros r _. destruct y; try discriminate. now destruct (srow_year r).
Qed.

(** In a table built over the years [l], the area kept for one of these
    years is the area built for it. *)
Lemma keptArea_built (f : Whole.t -> jsstring) (l : list Whole.t) (y : Whole.t) :
  List.In y l -> Whole.isNaN y = false ->
  keptArea ((fun y => {| srow_year := y; srow_areaHa := f y |}) <$> l) y = f y.
Proof.
  intros Hin Hy. unfold keptArea.
  induction l as [|a l IH]; [destruct Hin|].
  simpl. destruct (Whole.seq a y) eqn:E.
  - apply WholeFacts.seq_eq in E. now subst.
  - destruct Hin as [-> | Hin]; [|now apply IH].
    rewrite (WholeFacts.seq_refl y Hy) in E. discriminate.
Qed.

(** A row that fails the test, put in the place of one that fails it, does
    not change what [find] returns. *)
Lemma find_insert_other {A : Type} (f : A -> bool) (l : list A) (x : A) : forall i x0,
  l !! i = Some x0 -> f x0 = false -> f x = false ->
  List.find f (<[i := x]> l) = List.find f l.
Proof.
  induction l as [|a l IH]; intros i x0 Hi H0 Hx; [reflexivity|].
  destruct i as [|i]; simpl in *.
  - inversion Hi; subst. now rewrite H0, Hx.
  - destruct (f a); [reflexivity|]. now apply (IH i x0).
Qed.

End ScheduleFacts.

Section ScheduleTheorems.
Context `{Host}.
Import FloatFacts OrderFacts.
Local Open Scope Z_scope.

(** X6 (the schedule refresh, lines 197-209). With the schedule on and [n]
    schedule years (after the clamp to 0..200), the refresh builds exactly
    [n] rows, row [i] for the year [py + i] as a Number, where [py] is the
    parsed planting year; for a planting year [p] between -2^53 and
    2^53 - 200 these are the years [p], [p + 1], ...; with a NaN planting
    year every row has the year NaN and the empty area; a row of a year
    that no row of the old table has gets the empty area; and an old row
    that is the first of the old table with its year, that year being one
    of the new years, is kept as it was. *)
Theorem refreshSchedule_rows (st : State) (n : Z) :
  useSchedule st = true ->
  clampInt (parseInt (Str.or_else (scheduleYears st) (js "0"))) 0 200 = Some n ->
  let py := parseInt (Str.or_else (plantingYear st) (js "0")) in
  let cs := refreshSchedule st in
  Z.of_nat (length cs) = n
  /\ (forall i, 0 <= i < n ->
        srow_year <$> cs !! Z.to_nat i = Some (Whole.add py (Whole.Int i)))
  /\ (forall p, py = Whole.Int p -> - 2 ^ 53 <= p <= 2 ^ 53 - 200 ->
        srow_year <$> cs = Whole.Int <$> seqZ p n)
  /\ (py = Whole.NaN ->
        cs = replicate (Z.to_nat n) {| srow_year := Whole.NaN; srow_areaHa := [] |})
  /\ (forall r, List.In r cs ->
        (forall old, List.In old (customSchedule st) ->
           Whole.seq (srow_year old) (srow_year r) = false) ->
        srow_areaHa r = [])
  /\ (forall i old, customSchedule st !! i = Some old ->
        (forall j old', (j < i)%nat -> customSchedule st !! j = Some old' ->
           Whole.seq (srow_year old') (srow_year old) = false) ->
        (exists k, 0 <= k < n /\ Whole.seq (srow_year old) (Whole.add py (Whole.Int k)) = true) ->
        List.In old cs).
Proof.
  intros Hu Hn py cs.
  pose proof (clampInt_range _ 0 200 n ltac:(lia) Hn) as Hrange.
  assert (Hcs : cs = (fun j => builtRow (customSchedule st) (Whole.add py (Whole.Int j)))
                     <$> seqZ 0 n) by apply (refreshSchedule_spec st n Hu Hn).
  split; [rewrite Hcs, length_fmap, length_seqZ; lia|].
  split.
  { intros i Hi. rewrite Hcs, list_lookup_fmap, lookup_seqZ_lt by lia. simpl.
    repeat f_equal. lia. }
  split.
  { intros p Hp Hsafe. rewrite Hcs, <- list_fmap_compose.
    apply list_eq. intros i. rewrite !list_lookup_fmap.
    destruct (decide (Z.of_nat i < n)) as [Hi|Hi].
    - rewrite !lookup_seqZ_lt by lia. simpl. rewrite Hp.
      rewrite WholeFacts.add_small by lia. repeat f_equal.
    - rewrite !lookup_seqZ_ge by lia. reflexivity. }
  split.
  { intros Hp. rewrite Hcs. apply list_eq. intros i. rewrite list_lookup_fmap.
    destruct (decide (Z.of_nat i < n)) as [Hi|Hi].
    - rewrite lookup_seqZ_lt by lia. rewrite lookup_replicate_2 by lia.
      simpl. rewrite Hp. unfold builtRow. cbn [Whole.add].
      now rewrite keptArea_NaN.
    - rewrite lookup_seqZ_ge by lia. symmetry. apply lookup_replicate_None. lia. }
  split.
  - intros r Hr Hold. rewrite Hcs in Hr.
    apply list_elem_of_In, list_elem_of_fmap in Hr.
    destruct Hr as (j & -> & _). simpl in *. unfold keptArea.
    rewrite find_none; [reflexivity|].
    intros x Hx. now apply Hold.
  - intros i old Hi Hfirst (k & Hk & Hy). rewrite Hcs.
    apply list_elem_of_In, list_elem_of_fmap. exists k. split.
    + pose proof (WholeFacts.seq_eq _ _ Hy) as Heq. unfold builtRow, keptArea.
      rewrite <- Heq. rewrite (find_first _ _ i old Hi).
      * now destruct old.
      * rewrite Heq. now rewrite Heq in Hy.
      * exact Hfirst.
    + apply elem_of_seqZ. lia.
Qed.

(** X7 (the schedule refresh, lines 197-209). The refresh is idempotent:
    run on the table it has just built, it builds the same table, so the
    effect of lines 197-209 settles after one run. *)
Theorem refreshSchedule_idempotent (st : State) :
  refreshSchedule (withCustomSchedule st (refreshSchedule st)) = refreshSchedule st.
Proof.
  rewrite (refreshSchedule_built (withCustomSchedule st (refreshSchedule st))).
  rewrite refreshedYears_with. cbn [customSchedule withCustomSchedule].
  rewrite (refreshSchedule_built st).
  apply list_eq. intros i. rewrite !list_lookup_fmap.
  destruct (refreshedYears st !! i) as [y|] eqn:Hy; [|reflexivity].
  simpl. f_equal. unfold builtRow at 1 3. f_equal.
  destruct (Whole.isNaN y) eqn:E; [now rewrite !keptArea_NaN|].
  apply (keptArea_built (keptArea (customSchedule st))); [|exact E].
  apply list_elem_of_In, list_elem_of_lookup. now exists i.
Qed.

(** X8 (the cell editor of the schedule table, lines 644-651, with the
    refresh of lines 197-209). Typing an area into row [idx] of a
    refreshed table changes the area of that row only and no year. A later
    refresh (same planting year and number of years) leaves the edited
    table as it is when the year of that row is a number that no other row
    of the table has; when that year is NaN, the refresh empties the area
    typed. *)
Theorem editScheduleArea_survives_refresh (st : State) (cs cs' : list ScheduleRow)
    (idx : nat) (v : jsstring) :
  refreshSchedule st = cs ->
  editScheduleArea idx v cs = Some cs' ->
  srow_year <$> cs' = srow_year <$> cs
  /\ srow_areaHa <$> cs' !! idx = Some v
  /\ (forall j, j <> idx -> cs' !! j = cs !! j)
  /\ (forall y, srow_year <$> cs !! idx = Some y ->
        Whole.isNaN y = false ->
        (forall j, j <> idx -> srow_year <$> cs !! j <> Some y) ->
        refreshSchedule (withCustomSchedule st cs') = cs')
  /\ (srow_year <$> cs !! idx = Some Whole.NaN ->
        srow_areaHa <$> refreshSchedule (withCustomSchedule st cs') !! idx = Some []).
Proof.
  intros Hr He. unfold editScheduleArea in He.
  destruct (cs !! idx) as [r|] eqn:Hi; [|discriminate]. inversion He; subst cs'.
  set (r' := {| srow_year := srow_year r; srow_areaHa := v |}).
  assert (Hy : srow_year <$> <[idx := r']> cs = srow_year <$> cs).
  { rewrite list_fmap_insert. simpl. apply list_insert_id.
    now rewrite list_lookup_fmap, Hi. }
  assert (Hlt : (idx < length cs)%nat) by now apply lookup_lt_Some in Hi.
  assert (Hcs : cs = builtRow (customSchedule st) <$> refreshedYears st)
    by (rewrite <- Hr; apply refreshSchedule_built).
  assert (Hyears : forall j y, srow_year <$> cs !! j = Some y <-> refreshedYears st !! j = Some y).
  { intros j y. rewrite Hcs, list_lookup_fmap.
    destruct (refreshedYears st !! j); simpl; split; congruence. }
  split; [exact Hy|]. split.
  { rewrite list_lookup_insert_eq; [reflexivity | exact Hlt]. }
  split; [intros j Hj; now apply list_lookup_insert_ne|].
  split.
  - intros y Hidx Hnum Huniq. simpl in Hidx. injection Hidx as Hidx. subst y.
    rewrite refreshSchedule_built, refreshedYears_with.
    cbn [customSchedule withCustomSchedule].
    apply list_eq. intros j. rewrite list_lookup_fmap.
    destruct (decide (j = idx)) as [-> | Hj].
    + rewrite list_lookup_insert_eq by exact Hlt.
      assert (Hyi : refreshedYears st !! idx = Some (srow_year r))
        by (apply Hyears; rewrite Hi; reflexivity).
      rewrite Hyi. simpl. f_equal. unfold builtRow. fold r'.
      change (srow_year r) with (srow_year r') at 1. 
      assert (Hk : keptArea (<[idx:=r']> cs) (srow_year r) = v); [|now rewrite Hk].
      unfold keptArea.
      rewrite (find_first _ _ idx r'); [reflexivity | | |].
      * apply list_lookup_insert_eq. exact Hlt.
      * simpl. now apply WholeFacts.seq_refl.
      * intros k x Hk Hx. rewrite list_lookup_insert_ne in Hx by lia.
        apply WholeFacts.seq_neq. intros Heq.
        apply (Huniq k ltac:(lia)). rewrite Hx. simpl. congruence.
    + rewrite list_lookup_insert_ne by congruence.
      rewrite Hcs at 2. rewrite list_lookup_fmap.
      destruct (refreshedYears st !! j) as [yj|] eqn:Hyj; [|reflexivity].
      simpl. f_equal. unfold builtRow. f_equal.
      destruct (Whole.isNaN yj) eqn:E; [now rewrite !keptArea_NaN|].
      assert (Hne : yj <> srow_year r).
      { intros ->. apply (Huniq j Hj). now apply Hyears. }
      transitivity (keptArea cs yj).
      * unfold keptArea. rewrite (find_insert_other _ cs r' idx r Hi); [reflexivity | |].
        -- apply WholeFacts.seq_neq. congruence.
        -- apply WholeFacts.seq_neq. simpl. congruence.
      * rewrite Hcs. apply (keptArea_built (keptArea (customSchedule st))); [|exact E].
        apply list_elem_of_In, list_elem_of_lookup. now exists j.
  - intros Hidx. rewrite refreshSchedule_built, refreshedYears_with.
    rewrite !list_lookup_fmap.
    assert (Hyi : refreshedYears st !! idx = Some Whole.NaN)
      by (apply Hyears; rewrite Hi; exact Hidx).
    rewrite Hyi. simpl. f_equal.
    now apply keptArea_NaN.
Qed.

End ScheduleTheorems.

(** ** Validation *)

Section ValidationFacts.
Context `{Host}.

Lemma validateRows_filled (rs : list SpeciesRow) :
  validateRows rs = None <-> Forall rowFilled rs.
Proof.
  split.
  - induction rs as [|r rs IH]; intros Hv; [constructor|].
    cbn [validateRows] in Hv.
    destruct (Str.truthy (row_name r)) eqn:E1; cbn [negb] in Hv; [|discriminate].
    destruct (Str.truthy (row_percent r)) eqn:E2; cbn [negb] in Hv; [|discriminate].
    assert (E3 : match row_inputMode r with
                 | spacingMode => Str.opt_truthy (row_spacing r) = true
                 | densityMode => Str.opt_truthy (row_density r) = true
                 end).
    { destruct (row_inputMode r).
      - destruct (Str.opt_truthy (row_spacing r)); [reflexivity | discriminate].
      - destruct (Str.opt_truthy (row_density r)); [reflexivity | discriminate]. }
    assert (E4 : row_useCustomEq r = Some true ->
                 Str.opt_truthy (row_customEquation r) = true).
    { intros E. rewrite E in Hv.
      destruct (row_inputMode r); rewrite E3 in Hv; cbn [negb] in Hv;
        (destruct (Str.opt_truthy (row_customEquation r)); [reflexivity | discriminate]). }
    constructor; [unfold rowFilled; auto|]. apply IH.
    destruct (row_inputMode r); rewrite E3 in Hv; cbn [negb] in Hv;
      (destruct (row_useCustomEq r) as [[]|];
       [rewrite (E4 eq_refl) in Hv; exact Hv | exact Hv | exact Hv]).
  - induction 1 as [|r rs (H1 & H2 & H3 & H4) _ IH]; [reflexivity|].
    cbn [validateRows]. rewrite H1, H2. cbn [negb].
    destruct (row_inputMode r); rewrite H3; cbn [negb];
      (destruct (row_useCustomEq r) as [[]|];
       [rewrite (H4 eq_refl); exact IH | exact IH | exact IH]).
Qed.

Lemma existsb_false_Forall {A : Type} (f : A -> bool) (l : list A) :
  existsb f l = false <-> Forall (fun x => f x = false) l.
Proof.
  induction l as [|a l IH]; simpl; [split; [constructor | reflexivity]|].
  rewrite orb_false_iff, IH. split; [intros [? ?]; now constructor | intros Hf; now inversion Hf].
Qed.

Lemma schedule_count_positive (n : option Z) (hi : Z) (x : Whole.t) :
  n = clampInt x 0 hi -> 0 <= hi ->
  match n with Some n => n <=? 0 | None => false end = false <-> n <> Some 0.
Proof.
  intros -> Hhi.
  destruct (clampInt x 0 hi) as [k|] eqn:E; [|split; [discriminate | reflexivity]].
  pose proof (clampInt_range x 0 hi k Hhi E) as Hk.
  rewrite Z.leb_gt. split; [intros Hx [= Hx']; lia | intros Hx].
  destruct (decide (k = 0)) as [-> | Hne]; [congruence | lia].
Qed.

(** [validate] returns [null] exactly for the accepted states. *)
Lemma validate_accepted (st : State) : validate st = None <-> accepted st.
Proof.
  unfold validate, accepted.
  destruct (Str.truthy (plantingYear st)); simpl;
    [|split; [discriminate | intros (? & ?); discriminate]].
  destruct (Str.truthy (creditingEndYear st)); simpl;
    [|split; [discriminate | intros (? & ? & ?); discriminate]].
  destruct (Whole.isNaN (parseInt (plantingYear st))); simpl;
    [split; [discriminate | intros (_ & _ & ? & _); discriminate]|].
  destruct (Whole.isNaN (parseInt (creditingEndYear st))); simpl;
    [split; [discriminate | intros (_ & _ & _ & ? & _); discriminate]|].
  destruct (Whole.ltb (parseInt (creditingEndYear st)) (parseInt (plantingYear st)));
    [split; [discriminate | intros (_ & _ & _ & _ & ? & _); discriminate]|].
  destruct (match rows st with [] => true | _ => false end) eqn:Erows.
  { split; [discriminate|]. intros (_ & _ & _ & _ & _ & Hr & _).
    destruct (rows st); [congruence | discriminate]. }
  assert (Hrows : rows st <> []) by (destruct (rows st); [discriminate | congruence]).
  destruct (Num.le (totalPercent st) 0) eqn:Ele;
    [split; [discriminate | intros (_ & _ & _ & _ & _ & _ & ? & _); discriminate]|].
  destruct (Num.gt (totalPercent st) 100) eqn:Egt;
    [split; [discriminate | intros (_ & _ & _ & _ & _ & _ & _ & ? & _); discriminate]|].
  pose proof (validateRows_filled (rows st)) as Hvr.
  destruct (validateRows (rows st)) as [e|].
  { split; [discriminate|]. intros (_ & _ & _ & _ & _ & _ & _ & _ & Hf & _).
    apply Hvr in Hf. discriminate. }
  assert (Hfilled : Forall rowFilled (rows st)) by now apply Hvr.
  assert (Hhead : forall P : Prop, P <->
            (true = true /\ true = true
             /\ false = false /\ false = false /\ false = false
             /\ rows st <> [] /\ false = false /\ false = false
             /\ Forall rowFilled (rows st) /\ P)).
  { intros P. split; [|tauto]. intros HP. repeat split; eauto. }
  rewrite <- Hhead. clear Hhead.
  unfold scheduleFilled.
  destruct (useSchedule st).
  - set (n := clampInt _ 0 200).
    pose proof (schedule_count_positive n 200 _ eq_refl ltac:(lia)) as Hn.
    destruct (match n with Some n0 => n0 <=? 0 | None => false end) eqn:En.
    + assert (Hz : n = Some 0).
      { destruct n as [k|] eqn:Ek; [|discriminate].
        pose proof (clampInt_range _ 0 200 k ltac:(lia) Ek). apply Z.leb_le in En.
        f_equal. lia. }
      split; [discriminate|]. rewrite Hz.
      destruct (scheduleMode st); [tauto|].
      intros ((k & [= <-] & Hk & _) & _). lia.
    + destruct (scheduleMode st).
      * destruct (Str.truthy (constantAreaPerYear st)); simpl.
        -- split; [intros _; split; [now apply Hn | reflexivity] | reflexivity].
        -- split; [discriminate | intros (_ & ?); discriminate].
      * destruct n as [k|] eqn:Ek.
        -- apply Z.leb_gt in En.
           destruct (Z.of_nat (length (customSchedule st)) =? k) eqn:Elen; simpl.
           ++ apply Z.eqb_eq in Elen.
              destruct (existsb _ (customSchedule st)) eqn:Eex.
              ** split; [discriminate|]. intros (_ & Hf).
                 assert (Hex : existsb
                           (fun r => negb (Str.truthy (srow_areaHa r))
                                     || Num.lt (parseFloat (srow_areaHa r)) 0)
                           (customSchedule st) = false).
                 { apply existsb_false_Forall. eapply Forall_impl; [exact Hf|].
                   simpl. intros r [-> ->]. reflexivity. }
                 congruence.
              ** split; [|reflexivity]. intros _. split; [exists k; auto|].
                 apply existsb_false_Forall in Eex. eapply Forall_impl; [exact Eex|].
                 simpl. intros r Hr. apply orb_false_iff in Hr as [Hr1 Hr2].
                 split; [now apply negb_false_iff | exact Hr2].
           ++ apply Z.eqb_neq in Elen. split; [discriminate|].
              intros ((k' & [= <-] & _ & Hlen) & _). congruence.
        -- simpl. split; [discriminate|]. intros ((k' & ? & _) & _). discriminate.
  - destruct (Str.truthy (projectAreaHa st)); simpl; split; auto; discriminate.
Qed.

End ValidationFacts.

Section ValidationTheorems.
Context `{Host}.

(** X9 (validate, lines 232-265; calculate, lines 268-274, 334 and 389).
    [validate] returns [null] exactly when: both years are given and are
    not NaN with end >= planting; there is a species row; the percent sum
    is neither [<= 0] nor [> 100] (a NaN sum passes both tests); every row
    has a name, a percent, the spacing or density its input mode asks for,
    and an equation when custom is on; and either the schedule is off and a
    project area is given, or it is on with a year count that is not 0 and,
    in constant mode, an area per year, in custom mode, a count that is a
    number matched by the number of table rows, each with a non-empty area
    that is not below 0. [calculate] stores its result exactly in these
    states, unless the years are more than an array holds: then [push]
    throws and nothing is stored. In every other state [calculate] reports
    the error and stores nothing. *)
Theorem calculate_runs_iff_accepted (st : State) :
  (validate st = None <-> accepted st)
  /\ (calculate st = Stored (calcResult st) <-> accepted st /\ tooMany (nYears st) = false)
  /\ (calculate st = Thrown <-> accepted st /\ tooMany (nYears st) = true)
  /\ ((exists e, calculate st = Rejected e) <-> ~ accepted st)
  /\ calculate st <> Unfinished.
Proof.
  pose proof (validate_accepted st) as Hv. split; [exact Hv|].
  destruct (validate st) as [e|] eqn:Hval.
  - assert (Hc : calculate st = Rejected e) by (unfold calculate; now rewrite Hval).
    assert (Hna : ~ accepted st) by (intros Ha; apply Hv in Ha; discriminate).
    rewrite Hc. split; [split; [discriminate | intros [Ha _]; now destruct Hna]|].
    split; [split; [discriminate | intros [Ha _]; now destruct Hna]|].
    split; [split; [intros _; exact Hna | intros _; now exists e] | discriminate].
  - assert (Ha : accepted st) by now apply Hv.
    rewrite (calculate_valid st Hval).
    destruct (tooMany (nYears st)).
    + split; [split; [discriminate | intros [_ ?]; discriminate]|].
      split; [split; [intros _; now split | reflexivity]|].
      split; [split; [intros [e ?]; discriminate | intros Hna; now destruct Hna]|].
      discriminate.
    + split; [split; [intros _; now split | reflexivity]|].
      split; [split; [discriminate | intros [_ ?]; discriminate]|].
      split; [split; [intros [e ?]; discriminate | intros Hna; now destruct Hna]|].
      discriminate.
Qed.

(** X10 (addRow, lines 223-226, against validate, lines 244-248). The row
    [addRow] appends has no name and no percent, so right after "add
    species" [validate] reports an error and [calculate] stores nothing,
    whatever the rest of the state is. *)
Theorem addRow_blocks_calculate (st : State) (id : jsstring) :
  validate (withRows st (addRow id (rows st))) <> None
  /\ exists e, calculate (withRows st (addRow id (rows st))) = Rejected e.
Proof.
  assert (Hv : validate (withRows st (addRow id (rows st))) <> None).
  { intros Hv. apply validate_accepted in Hv.
    destruct Hv as (_ & _ & _ & _ & _ & _ & _ & _ & Hf & _).
    cbn [rows withRows] in Hf. unfold addRow in Hf.
    apply Forall_app in Hf as [_ Hf]. inversion Hf as [|? ? (Hn & _)]; subst.
    discriminate. }
  split; [exact Hv|]. unfold calculate.
  destruct (validate _) as [e|]; [now exists e | congruence].
Qed.

(** X11 (calculate, lines 331-334 and 404; the results panel, lines 860,
    874 and 880). After a [calculate] that stored a result for years that
    are finite, the breakdown is not empty: its first record is the
    planting year and its last record, the one the panel reads with
    [.at(-1)!], is the crediting end year; the "Years Modeled" count
    [length - 1] is end minus planting year, and it agrees with
    [yearsSpan] when that difference is at most 300. *)
Theorem calculate_terminal_year (st : State) (res : CalcResult) (py ey : Z) :
  calculate st = Stored res ->
  parseInt (plantingYear st) = Whole.Int py ->
  parseInt (creditingEndYear st) = Whole.Int ey ->
  exists first final,
    py <= ey
    /\ head (yearlyBreakdown res) = Some first /\ yr_year first = py
    /\ last (yearlyBreakdown res) = Some final /\ yr_year final = ey
    /\ Z.of_nat (length (yearlyBreakdown res)) - 1 = ey - py
    /\ (ey - py <= 300 -> yearsSpan st = Some (ey - py)).
Proof.
  intros Hres Hpy Hey.
  destruct (calculate_stored st res Hres) as (Hv & Hend & ->).
  apply validate_accepted in Hv.
  destruct Hv as (Hp & He & _ & _ & Hlt & _).
  rewrite Hpy, Hey in Hlt. cbn in Hlt. apply Z.ltb_ge in Hlt.
  rewrite (tooMany_years st py ey Hpy Hey) in Hend. apply Z.leb_gt in Hend.
  destruct (parseInt_Int _ _ Hpy) as [Hpr _].
  destruct (parseInt_Int _ _ Hey) as [Her _].
  set (body := yearRecord (forceYearZeroZero st) (mort st) (scheduled st py)
                 (speciesSetup st) py).
  assert (Hy : yearlyBreakdown (calcResult st) = body <$> seqZ 0 (ey - py + 1))
    by apply (yearly_spec st py ey Hpy Hey Hend).
  exists (body 0), (body (ey - py)).
  split; [lia|].
  rewrite Hy. split; [|split; [|split; [|split; [|split]]]].
  - rewrite (seqZ_cons 0 (ey - py + 1)) by lia. reflexivity.
  - unfold body, yearRecord. cbn [yr_year]. now rewrite Z.add_0_r.
  - rewrite last_lookup, length_fmap, length_seqZ, list_lookup_fmap.
    rewrite lookup_seqZ_lt by lia. simpl. do 2 f_equal. lia.
  - unfold body, yearRecord. cbn [yr_year].
    replace (py + (ey - py)) with ey by lia. exact Her.
  - rewrite length_fmap, length_seqZ. lia.
  - intros Hspan. unfold yearsSpan.
    assert (Hp' : Str.or_else (plantingYear st) (js "0") = plantingYear st)
      by (unfold Str.or_else; now rewrite Hp).
    assert (He' : Str.or_else (creditingEndYear st) (js "0") = creditingEndYear st)
      by (unfold Str.or_else; now rewrite He).
    rewrite Hp', He', Hpy, Hey.
    rewrite WholeFacts.sub_small; [|clear - Hlt Hspan; lia].
    simpl. f_equal. lia.
Qed.

End ValidationTheorems.

Section ScheduleAreaTheorems.
Context `{Host}.
Import FloatFacts OrderFacts.
Local Open Scope float_scope.

(** The schedule when it is on and the number of years is a number. *)
Lemma scheduled_spec (st : State) (py n : Z) :
  useSchedule st = true ->
  clampInt (parseInt (Str.or_else (scheduleYears st) (js "0"))) 0 200 = Some n ->
  scheduled st py =
    (fun j => {| sch_year := Whole.nearest (py + j);
                 sch_areaHa := Num.max 0 (scheduleArea st (Whole.nearest (py + j))) |})
    <$> seqZ 0 n.
Proof.
  intros Hu Hn. unfold scheduled. rewrite Hu, Hn, scheduleLoop_spec.
  pose proof (clampInt_range _ 0 200 n ltac:(lia) Hn).
  cbn [app]. now rewrite Z2Nat.id by lia.
Qed.

Lemma scheduleArea_number (st : State) (y : Z) : is_nan (scheduleArea st y) = false.
Proof. unfold scheduleArea. destruct (scheduleMode st); apply leb_0_truthy_or. Qed.

(** X12 (scheduled, lines 283-297). The planting schedule [calculate]
    works from: at most 200 cohorts, cohort [k] in the year [py + k] as a
    Number, so in years that never decrease; for a planting year between
    -2^53 and 2^53 - 200 these are the consecutive years from the
    planting year on; every area is a Number at least 0, never NaN,
    whatever was typed; without a schedule it is the single cohort of the
    planting year; and in constant mode all cohorts have the same area. *)
Theorem scheduled_shape (st : State) (py : Z) :
  (length (scheduled st py) <= 200)%nat
  /\ (useSchedule st = true ->
      forall k sch, scheduled st py !! k = Some sch ->
        sch_year sch = Whole.nearest (py + Z.of_nat k))
  /\ (forall j k a b, (j <= k)%nat ->
        scheduled st py !! j = Some a -> scheduled st py !! k = Some b ->
        (sch_year a <= sch_year b)%Z)
  /\ ((- 2 ^ 53 <= py <= 2 ^ 53 - 200)%Z ->
      sch_year <$> scheduled st py = seqZ py (Z.of_nat (length (scheduled st py))))
  /\ (forall sch, List.In sch (scheduled st py) -> Num.ge (sch_areaHa sch) 0 = true)
  /\ (useSchedule st = false -> sch_year <$> scheduled st py = [py])
  /\ (scheduleMode st = constant ->
      forall a b, List.In a (scheduled st py) -> List.In b (scheduled st py) ->
                  sch_areaHa a = sch_areaHa b).
Proof.
  split; [apply scheduled_length|].
  split.
  { intros Hu k sch Hk. destruct (scheduled_year_at st py k sch Hk) as [_ Hy].
    now rewrite Hu in Hy. }
  split; [intros j k a b; apply scheduled_monotone|].
  split.
  { intros Hsafe. apply list_eq. intros k. rewrite list_lookup_fmap.
    destruct (scheduled st py !! k) as [sch|] eqn:Hk.
    - pose proof (lookup_lt_Some _ _ _ Hk) as Hlt.
      destruct (scheduled_year_at st py k sch Hk) as [Hk200 Hy].
      rewrite lookup_seqZ_lt by lia. simpl. f_equal. rewrite Hy.
      destruct (useSchedule st) eqn:Hu.
      + apply WholeFacts.nearest_small. lia.
      + assert (Hs : length (scheduled st py) = 1%nat)
          by (unfold scheduled; now rewrite Hu).
        lia.
    - apply lookup_ge_None_1 in Hk. rewrite lookup_seqZ_ge by lia. reflexivity. }
  destruct (useSchedule st) eqn:Hu.
  - destruct (clampInt (parseInt (Str.or_else (scheduleYears st) (js "0"))) 0 200)
      as [n|] eqn:Hn.
    + pose proof (clampInt_range _ 0 200 n ltac:(lia) Hn) as Hr.
      rewrite (scheduled_spec st py n Hu Hn).
      split; [|split].
      * intros sch Hin. apply list_elem_of_In, list_elem_of_fmap in Hin.
        destruct Hin as (j & -> & _). cbn [sch_areaHa]. unfold Num.ge.
        apply max0_ge, scheduleArea_number.
      * discriminate.
      * intros Hc a b Ha Hb.
        apply list_elem_of_In, list_elem_of_fmap in Ha. destruct Ha as (j & -> & _).
        apply list_elem_of_In, list_elem_of_fmap in Hb. destruct Hb as (k & -> & _).
        cbn [sch_areaHa]. unfold scheduleArea. now rewrite Hc.
    + assert (Hs : scheduled st py = []) by (unfold scheduled; now rewrite Hu, Hn).
      rewrite Hs.
      split; [intros ? []|]. split; [discriminate | intros _ ? ? []].
  - assert (Hs : scheduled st py =
                 [{| sch_year := py;
                     sch_areaHa := Num.max 0 (Num.or_else
                       (parseFloat (Str.or_else (projectAreaHa st) (js "0"))) 0) |}])
      by (unfold scheduled; now rewrite Hu).
    rewrite Hs.
    split; [|split; [reflexivity|]].
    + intros sch [<-|[]]. cbn [sch_areaHa]. unfold Num.ge.
      apply max0_ge, leb_0_truthy_or.
    + intros _ a b [<-|[]] [<-|[]]. reflexivity.
Qed.

Lemma fold_add_fmap {A B : Type} (f : B -> float) (g : A -> B) (l : list A) : forall a,
  fold_left (fun s x => s + f x) (g <$> l) a = fold_left (fun s x => s + f (g x)) l a.
Proof. induction l as [|x l IH]; intros a; [reflexivity|]. apply IH. Qed.

(** X13 (scheduleSum, lines 461-468, against scheduled, lines 283-297).
    For an accepted state with a custom schedule whose table is in its
    refreshed form and has no year twice, the "scheduled total area" shown
    on the page is exactly the sum of the cohort areas [calculate] plants,
    added up in year order. *)
Theorem scheduleSum_is_planted_area (st : State) (py : Z) :
  validate st = None ->
  useSchedule st = true ->
  scheduleMode st = custom ->
  refreshSchedule st = customSchedule st ->
  NoDup (srow_year <$> customSchedule st) ->
  parseInt (plantingYear st) = Whole.Int py ->
  scheduleSum st = sumOf sch_areaHa (scheduled st py).
Proof.
  intros Hv Hu Hm Hr Hnd Hpy. apply validate_accepted in Hv.
  destruct Hv as (Hp & _ & _ & _ & _ & _ & _ & _ & _ & Hs).
  unfold scheduleFilled in Hs. rewrite Hu, Hm in Hs.
  destruct Hs as ((n & Hn & Hpos & Hlen) & Hareas).
  pose proof (clampInt_range _ 0 200 n ltac:(lia) Hn) as Hrange.
  assert (Hp' : Str.or_else (plantingYear st) (js "0") = plantingYear st)
    by (unfold Str.or_else; now rewrite Hp).
  destruct (parseInt_Int _ _ Hpy) as [Hrep Hfin].
  assert (Hy : forall i r, customSchedule st !! i = Some r ->
            (Z.of_nat i < n)%Z
            /\ srow_year r = Whole.Int (Whole.nearest (py + Z.of_nat i))).
  { intros i r Hi. rewrite <- Hr, (refreshSchedule_spec st n Hu Hn) in Hi.
    rewrite list_lookup_fmap in Hi.
    destruct (seqZ 0 n !! i) as [k|] eqn:Hk; [|discriminate].
    apply lookup_seqZ in Hk as [-> Hk]. injection Hi as <-. split; [exact Hk|].
    cbn [srow_year builtRow]. rewrite Hp', Hpy.
    rewrite WholeFacts.add_index by (try assumption; lia).
    repeat f_equal; lia. }
  assert (Hsched : scheduled st py =
            (fun r => {| sch_year := match srow_year r with Whole.Int y => y | _ => 0%Z end;
                         sch_areaHa := Num.or_else
                           (parseFloat (Str.or_else (srow_areaHa r) (js "0"))) 0 |})
            <$> customSchedule st).
  { rewrite (scheduled_spec st py n Hu Hn).
    apply list_eq. intros i. rewrite !list_lookup_fmap.
    destruct (customSchedule st !! i) as [r|] eqn:Hi.
    - destruct (Hy i r Hi) as [Hr1 Hr2].
      rewrite lookup_seqZ_lt by lia. cbn [fmap option_fmap option_map]. f_equal.
      replace (py + (0 + Z.of_nat i))%Z with (py + Z.of_nat i)%Z by lia.
      unfold scheduleArea. rewrite Hm.
      rewrite (find_first _ _ i r Hi).
      + cbn [option_map Str.opt_or_else].
        rewrite List.Forall_forall in Hareas.
        assert (Hin : List.In r (customSchedule st)).
        { apply list_elem_of_In, list_elem_of_lookup. now exists i. }
        destruct (Hareas r Hin) as [Ht Hneg].
        assert (Ha : Str.or_else (srow_areaHa r) (js "0") = srow_areaHa r)
          by (unfold Str.or_else; now rewrite Ht).
        rewrite Ha, max0_or_else by exact Hneg. now rewrite Hr2.
      + rewrite Hr2. apply WholeFacts.seq_refl. reflexivity.
      + intros j r' Hj Hj'. apply WholeFacts.seq_neq. rewrite <- Hr2. intros Heq.
        assert (j = i); [|lia].
        apply (NoDup_lookup _ j i (srow_year r) Hnd);
          rewrite list_lookup_fmap; [rewrite Hj' | rewrite Hi]; simpl; congruence.
    - apply lookup_ge_None_1 in Hi. rewrite lookup_seqZ_ge by lia. reflexivity. }
  rewrite Hsched. unfold scheduleSum, sumOf. rewrite Hu, Hm. cbn [negb].
  now rewrite fold_add_fmap.
Qed.

Lemma validateRows_not_schedule (rs : list SpeciesRow) :
  validateRows rs <> Some ScheduleRowsNotInitialized.
Proof.
  induction rs as [|r rs IH]; cbn [validateRows]; [discriminate|].
  repeat match goal with
         | |- context [if ?b then _ else _] => destruct b; try discriminate
         end.
  exact IH.
Qed.

(** X14 (validate, lines 251-260, after the refresh of lines 197-209).
    When the number of schedule years is not NaN, [validate] never reports
    "Schedule rows did not initialize correctly" on a refreshed schedule
    table. *)
Theorem refreshed_table_row_count (st : State) :
  Whole.isNaN (parseInt (Str.or_else (scheduleYears st) (js "0"))) = false ->
  validate (withCustomSchedule st (refreshSchedule st)) <> Some ScheduleRowsNotInitialized.
Proof.
  intros Hx Hv.
  assert (Hsome : exists n,
            clampInt (parseInt (Str.or_else (scheduleYears st) (js "0"))) 0 200 = Some n).
  { destruct (parseInt (Str.or_else (scheduleYears st) (js "0"))) as [|[]|x];
      [discriminate | | |]; cbn [clampInt]; eauto. }
  destruct Hsome as [n Hn].
  assert (Hlen : useSchedule st = true -> Z.of_nat (length (refreshSchedule st)) = n).
  { intros Hu. rewrite (refreshSchedule_spec st n Hu Hn).
    pose proof (clampInt_range _ 0 200 n ltac:(lia) Hn).
    rewrite length_fmap, length_seqZ. lia. }
  unfold validate in Hv.
  cbn [plantingYear creditingEndYear rows useSchedule scheduleYears scheduleMode
       constantAreaPerYear customSchedule projectAreaHa withCustomSchedule] in Hv.
  rewrite Hn in Hv.
  destruct (negb (Str.truthy (plantingYear st))); [discriminate|].
  destruct (negb (Str.truthy (creditingEndYear st))); [discriminate|].
  destruct (Whole.isNaN _ || Whole.isNaN _)%bool; [discriminate|].
  destruct (Whole.ltb _ _); [discriminate|].
  destruct (match rows st with [] => true | _ => false end);
    [discriminate|].
  destruct (Num.le _ 0); [discriminate|].
  destruct (Num.gt _ 100); [discriminate|].
  pose proof (validateRows_not_schedule (rows st)) as Hrows.
  destruct (validateRows _); [congruence|].
  destruct (useSchedule st) eqn:Hu;
    [|destruct (negb (Str.truthy (projectAreaHa st))); discriminate].
  destruct (_ <=? 0)%Z; [discriminate|].
  destruct (scheduleMode st);
    [destruct (negb (Str.truthy (constantAreaPerYear st))); discriminate|].
  rewrite (Hlen eq_refl), Z.eqb_refl in Hv. cbn [negb] in Hv.
  destruct (existsb _ (refreshSchedule st)); discriminate.
Qed.

End ScheduleAreaTheorems.

(** ** The species rows *)

Section RowFacts.

Lemma id_eqb_refl (a : jsstring) : Str.eqb a a = true.
Proof. now apply StrFacts.eqb_eq. Qed.

Lemma id_eqb_neq (a b : jsstring) : Str.eqb a b = false <-> a <> b.
Proof.
  pose proof (StrFacts.eqb_eq a b) as He.
  destruct (Str.eqb a b); split; intros Hn; try discriminate; try reflexivity.
  - exfalso. apply Hn. now apply He.
  - intros Hab. apply He in Hab. discriminate.
Qed.

(** No row of [prev] has the id [id]. *)
Lemma fresh_spec (id : jsstring) (prev : list SpeciesRow) :
  existsb (fun r => Str.eqb (row_id r) id) prev = false <->
  ~ List.In id (row_id <$> prev).
Proof.
  induction prev as [|r prev IH]; simpl; [tauto|].
  rewrite orb_false_iff, IH, id_eqb_neq. tauto.
Qed.

Lemma removeRow_fresh (id : jsstring) (prev : list SpeciesRow) :
  existsb (fun r => Str.eqb (row_id r) id) prev = false -> removeRow id prev = prev.
Proof.
  unfold removeRow. induction prev as [|r prev IH]; simpl; [reflexivity|].
  intros Hf. apply orb_false_iff in Hf as [-> Hf]. simpl. now rewrite IH.
Qed.

Lemma patched_twice {A : Type} (p : option A) (old : A) :
  patched p (patched p old) = patched p old.
Proof. now destruct p. Qed.

Lemma patchedOpt_twice {A : Type} (p old : option A) :
  patchedOpt p (patchedOpt p old) = patchedOpt p old.
Proof. now destruct p. Qed.

Lemma applyPatch_twice (r : SpeciesRow) (p : RowPatch) :
  applyPatch (applyPatch r p) p = applyPatch r p.
Proof.
  unfold applyPatch. cbn [row_id row_name row_region row_percent row_inputMode row_spacing
    row_density row_growthRateCmYr row_initialDbhCm row_useCustomEq row_customEquation].
  now rewrite !patched_twice, !patchedOpt_twice.
Qed.

Lemma updateRow_ids (id : jsstring) (p : RowPatch) (prev : list SpeciesRow) :
  patch_id p = None -> row_id <$> updateRow id p prev = row_id <$> prev.
Proof.
  intros Hp. unfold updateRow. induction prev as [|r prev IH]; [reflexivity|].
  cbn [map fmap list_fmap]. f_equal; [|exact IH].
  destruct (Str.eqb (row_id r) id); [|reflexivity].
  unfold applyPatch. cbn [row_id]. now rewrite Hp.
Qed.

Lemma removeRow_ids_NoDup (id : jsstring) (prev : list SpeciesRow) :
  NoDup (row_id <$> prev) -> NoDup (row_id <$> removeRow id prev).
Proof.
  unfold removeRow. induction prev as [|r prev IH]; [intros _; constructor|].
  cbn [fmap list_fmap List.filter]. intros Hnd. apply NoDup_cons in Hnd as [Hr Hnd].
  destruct (negb (Str.eqb (row_id r) id)); [|now apply IH].
  cbn [fmap list_fmap]. apply NoDup_cons. split; [|now apply IH].
  intros Hin. apply Hr. apply list_elem_of_fmap in Hin as (x & Hx & Hin).
  apply list_elem_of_fmap. exists x. split; [exact Hx|].
  apply list_elem_of_In. apply list_elem_of_In, List.filter_In in Hin. tauto.
Qed.

End RowFacts.

Section RowTheorems.

(** X15 (addRow and removeRow, lines 223-227). With an id no row has
    yet, removing that id changes nothing, and removing the row [addRow]
    has just appended under that id gives the previous rows back. *)
Theorem removeRow_undoes_addRow (id : jsstring) (prev : list SpeciesRow) :
  existsb (fun r => Str.eqb (row_id r) id) prev = false ->
  removeRow id (addRow id prev) = prev
  /\ removeRow id prev = prev.
Proof.
  intros Hf. split.
  - unfold removeRow, addRow. rewrite List.filter_app. cbn [List.filter blankRow row_id].
    rewrite id_eqb_refl. cbn [negb]. rewrite app_nil_r. now apply removeRow_fresh.
  - now apply removeRow_fresh.
Qed.

(** X16 (addRow, removeRow and updateRow, lines 223-229). Rows with
    pairwise distinct ids keep pairwise distinct ids: under [removeRow],
    under [updateRow] with a patch that does not set the id (no call of
    the page does), and under [addRow] with an id no row has. *)
Theorem row_ids_stay_distinct (prev : list SpeciesRow) :
  NoDup (row_id <$> prev) ->
  (forall id, NoDup (row_id <$> removeRow id prev))
  /\ (forall id patch, patch_id patch = None -> NoDup (row_id <$> updateRow id patch prev))
  /\ (forall id, existsb (fun r => Str.eqb (row_id r) id) prev = false ->
                 NoDup (row_id <$> addRow id prev)).
Proof.
  intros Hnd. split; [|split].
  - intros id. now apply removeRow_ids_NoDup.
  - intros id patch Hp. now rewrite updateRow_ids.
  - intros id Hf. unfold addRow. rewrite fmap_app. apply NoDup_app.
    split; [exact Hnd|]. split; [|apply NoDup_singleton].
    intros x Hx Hx'. apply list_elem_of_singleton in Hx'. subst x.
    apply fresh_spec in Hf. apply Hf. now apply list_elem_of_In.
Qed.

(** X17 (updateRow, lines 228-229). [updateRow] keeps the number and the
    order of the rows; a row with another id is left as it is; a row with
    the id gets the fields of the patch and keeps its other fields;
    applying the same patch again changes nothing; and with a patch that
    does not set the id, every row keeps its id. *)
Theorem updateRow_patches_target_only (id : jsstring) (patch : RowPatch)
    (prev : list SpeciesRow) :
  length (updateRow id patch prev) = length prev
  /\ (forall i r, prev !! i = Some r ->
        updateRow id patch prev !! i =
          Some (if Str.eqb (row_id r) id then applyPatch r patch else r))
  /\ (forall i r, prev !! i = Some r -> row_id r <> id ->
        updateRow id patch prev !! i = Some r)
  /\ updateRow id patch (updateRow id patch prev) = updateRow id patch prev
  /\ (patch_id patch = None -> row_id <$> updateRow id patch prev = row_id <$> prev).
Proof.
  split; [apply length_map|]. split; [|split; [|split]].
  - intros i r Hi. unfold updateRow. rewrite map_fmap, list_lookup_fmap, Hi. reflexivity.
  - intros i r Hi Hr. unfold updateRow. rewrite map_fmap, list_lookup_fmap, Hi.
    apply id_eqb_neq in Hr. simpl. now rewrite Hr.
  - unfold updateRow. rewrite map_map. apply map_ext. intros r.
    destruct (Str.eqb (row_id r) id) eqn:E; [|now rewrite E].
    destruct (Str.eqb (row_id (applyPatch r patch)) id);
      [apply applyPatch_twice | reflexivity].
  - apply updateRow_ids.
Qed.

End RowTheorems.

(** ** Year records, summary and chart *)

Section RecordTheorems.
Context `{Host}.
Local Open Scope float_scope.

Lemma fold_cohortStep_active force m setup py g (sched : list ScheduleEntry) : forall acc,
  fold_left (cohortStep force m setup py g) sched acc =
  fold_left (cohortStep force m setup py g) (List.filter (active py g) sched) acc.
Proof.
  induction sched as [|sch sched IH]; intros acc; [reflexivity|].
  cbn [fold_left List.filter].
  assert (Ha : active py g sch = negb (g <? Whole.nearest (sch_year sch - py))%Z) by reflexivity.
  destruct (g <? Whole.nearest (sch_year sch - py))%Z eqn:E; rewrite Ha; cbn [negb].
  - unfold cohortStep at 2. rewrite E. apply IH.
  - cbn [fold_left]. apply IH.
Qed.

(** X18 (the year loop of calculate, lines 335-389). A year record is
    made by the cohorts planted by that year only: the record of the
    whole schedule is the record of its planted part; before any
    planting every total is 0; and a species whose clamped percent is
    not above 0 keeps, in every year, the entry the loop started it with:
    its id and name, and 0 credits, biomass, trees and diameter. *)
Theorem yearRecord_counts_planted_only (force : bool) (m : float)
    (sched : list ScheduleEntry) (setup : list SpeciesSetup) (py g : Z) :
  yearRecord force m sched setup py g =
    yearRecord force m (List.filter (active py g) sched) setup py g
  /\ ((forall sch, List.In sch sched -> active py g sch = false) ->
      yearRecord force m sched setup py g =
        {| yr_year := Whole.nearest (py + g); yr_credits := 0; yr_biomassKg := 0;
           yr_survivingTrees := 0; yr_perSpecies := map initAgg setup |})
  /\ (forall i sp, setup !! i = Some sp -> counted sp = false ->
        yr_perSpecies (yearRecord force m sched setup py g) !! i =
          Some {| ps_speciesId := sp_id sp; ps_name := sp_name sp; ps_credits := 0;
                  ps_biomassKg := 0; ps_survivingTrees := 0; ps_dbhCm := 0 |}).
Proof.
  assert (Hf : yearRecord force m sched setup py g =
               yearRecord force m (List.filter (active py g) sched) setup py g).
  { unfold yearRecord. now rewrite fold_cohortStep_active. }
  split; [exact Hf|]. split.
  - intros Hnone. rewrite Hf.
    assert (Hnil : List.filter (active py g) sched = []).
    { clear Hf. induction sched as [|sch sched IH]; [reflexivity|].
      cbn [List.filter]. rewrite (Hnone sch (or_introl eq_refl)).
      apply IH. intros s Hs. apply Hnone. now right. }
    rewrite Hnil. reflexivity.
  - intros i sp Hi Hc. rewrite (yearRecord_species force m sched setup py g i sp Hi), Hc.
    reflexivity.
Qed.

Lemma setup_lookup (st : State) (i : nat) (r : SpeciesRow) :
  rows st !! i = Some r -> speciesSetup st !! i = Some (setupRow st r).
Proof.
  intros Hr. unfold speciesSetup. now rewrite map_fmap, list_lookup_fmap, Hr.
Qed.

Lemma yearRecord_names (st : State) force m sched py g :
  ps_name <$> yr_perSpecies (yearRecord force m sched (speciesSetup st) py g)
  = (fun r => Str.or_else (row_name r) (js "Unnamed")) <$> rows st.
Proof.
  apply list_eq. intros j. rewrite !list_lookup_fmap.
  destruct (rows st !! j) as [r|] eqn:Hr.
  - destruct (yearRecord_species_id force m sched (speciesSetup st) py g j _
                (setup_lookup st j r Hr)) as (p & Hp & _ & Hname).
    rewrite Hp. cbn [fmap option_fmap option_map]. now rewrite Hname.
  - rewrite (lookup_ge_None_2 (yr_perSpecies _) j); [reflexivity|].
    rewrite yearRecord_perSpecies_length. unfold speciesSetup. rewrite length_map.
    now apply lookup_ge_None_1.
Qed.

(** X19 (calculate, lines 319-328, 337-348 and 392-403). In the result
    of the calculation, every year record lists the species in the order
    of the rows, one entry per row, with the row's id and its name
    ('Unnamed' standing in for an empty name); the species summary does
    the same. *)
Theorem breakdown_follows_rows (st : State) :
  let res := calcResult st in
  let shown := fun r => Str.or_else (row_name r) (js "Unnamed") in
  (forall d, List.In d (yearlyBreakdown res) ->
     ps_speciesId <$> yr_perSpecies d = row_id <$> rows st
     /\ ps_name <$> yr_perSpecies d = shown <$> rows st)
  /\ st_speciesId <$> speciesSummary res = row_id <$> rows st
  /\ st_name <$> speciesSummary res = shown <$> rows st.
Proof.
  cbv zeta. split; [|split].
  - intros d Hd. cbn [yearlyBreakdown calcResult resultOf] in Hd.
    destruct (yearly_records st d Hd) as (py & g & _ & ->).
    split; [apply yearRecord_ids | apply yearRecord_names].
  - cbn [speciesSummary calcResult resultOf]. unfold speciesSetup.
    induction (rows st) as [|r l IH]; [reflexivity|].
    cbn [map fmap list_fmap]. f_equal; first [exact IH | reflexivity].
  - cbn [speciesSummary calcResult resultOf]. unfold speciesSetup.
    induction (rows st) as [|r l IH]; [reflexivity|].
    cbn [map fmap list_fmap]. f_equal; first [exact IH | reflexivity].
Qed.

Lemma find_absent (id : jsstring) (l : list PerSpecies) :
  ~ List.In id (ps_speciesId <$> l) ->
  List.find (fun p => Str.eqb (ps_speciesId p) id) l = None.
Proof.
  intros Hid. apply find_none. intros p Hp. apply id_eqb_neq. intros Heq. apply Hid.
  apply list_elem_of_In, list_elem_of_fmap. exists p. split; [now symmetry|].
  now apply list_elem_of_In.
Qed.

Lemma sumSpecies_series (yearly : list YearRecord) (sp : SpeciesSetup) : forall a,
  fold_left
    (fun sum d =>
       match List.find (fun p => Str.eqb (ps_speciesId p) (sp_id sp)) (yr_perSpecies d) with
       | Some ps => sum + ps_credits ps
       | None => sum + 0
       end) yearly a
  = fold_left (fun sum x => sum + x)
      (map (fun d =>
              match List.find (fun p => Str.eqb (ps_speciesId p) (sp_id sp))
                      (yr_perSpecies d) with
              | Some ps => ps_credits ps
              | None => 0
              end) yearly) a.
Proof.
  induction yearly as [|d yearly IH]; intros a; [reflexivity|].
  cbn [fold_left map]. rewrite <- IH. now destruct (List.find _ _).
Qed.

(** X20 (chartData, lines 408-438, against calculate, lines 392-403).
    The chart of a result: every series has one point per label; the
    species total in the summary is the sum, in year order, of the points
    of that species' line; and a row whose id the result does not know (a
    row added after the calculation) gets a line of zeros. *)
Theorem chart_lines_match_summary (st : State) (r : SpeciesRow) :
  let res := calcResult st in
  length (speciesSeries res r) = length (chartLabels res)
  /\ length (totalSeries res) = length (chartLabels res)
  /\ totalCredits res = sumOf (fun x => x) (totalSeries res)
  /\ (forall i, rows st !! i = Some r ->
        exists t, speciesSummary res !! i = Some t
                  /\ st_speciesId t = row_id r
                  /\ st_totalCredits t = sumOf (fun x => x) (speciesSeries res r))
  /\ (~ List.In (row_id r) (row_id <$> rows st) ->
      forall x, List.In x (speciesSeries res r) -> x = 0).
Proof.
  cbv zeta. unfold speciesSeries, totalSeries, chartLabels.
  cbn [yearlyBreakdown totalCredits speciesSummary calcResult resultOf].
  split; [now rewrite !length_map|]. split; [now rewrite !length_map|].
  split; [|split].
  - unfold sumOf. rewrite map_fmap. symmetry. apply (fold_add_fmap (fun x => x) yr_credits).
  - intros i Hi. eexists. split.
    + rewrite map_fmap, list_lookup_fmap, (setup_lookup st i r Hi). reflexivity.
    + split; [reflexivity|]. cbn [st_totalCredits]. unfold sumSpecies, sumOf.
      apply (sumSpecies_series (yearly st) (setupRow st r)).
  - intros Hid x Hx. apply in_map_iff in Hx as (d & <- & Hd).
    destruct (yearly_records st d Hd) as (py & g & _ & ->).
    rewrite find_absent; [reflexivity|]. now rewrite yearRecord_ids.
Qed.

End RecordTheorems.

(** ** The theorems at the sample inputs *)

Import Samples.
#[local] Existing Instance Ref.host.



(** The years of [apart] pass validation and are 2^53 apart: the loop
    fills the array, [push] throws and nothing is stored. *)
Example year_loop_throws :
  validate apart = None
  /\ nYears apart = Whole.Int 9007199254740992
  /\ tooMany (nYears apart) = true
  /\ calculate apart = Thrown.
Proof.
  assert (Hv : validate apart = None) by (vm_compute; reflexivity).
  assert (Ht : tooMany (nYears apart) = true) by (vm_compute; reflexivity).
  split; [exact Hv|]. split; [vm_compute; reflexivity|]. split; [exact Ht|].
  now rewrite (calculate_valid apart Hv), Ht.
Qed.

(** The whole Numbers of [Whole] against those of the machine: rounding
    to 53 bits, the sum of two Numbers, and the reading of digits. *)
Example whole_numbers_of_the_machine :
  map (fun z => Num.of_Z (Whole.nearest z))
    [9007199254740993; 9007199254740995; 1152921504606847977; 36028797018963975; -9007199254740993]%Z
  = map Num.of_Z
      [9007199254740993; 9007199254740995; 1152921504606847977; 36028797018963975; -9007199254740993]%Z
  /\ map Whole.nearest [9007199254740993; 9007199254740995; 2025; -9007199254740993]%Z
     = [9007199254740992; 9007199254740996; 2025; -9007199254740992]%Z
  /\ (Num.of_Z 9007199254740992 + 1)%float = Num.of_Z (Whole.nearest (9007199254740992 + 1))
  /\ (Num.of_Z 9007199254740994 + 1)%float = Num.of_Z (Whole.nearest (9007199254740994 + 1))
  /\ (Num.of_Z 9007199254740994 - Num.of_Z 9007199254740992)%float = Num.of_Z 2
  /\ parseFloat (js "9007199254740993") = Num.of_Z 9007199254740992
  /\ parseInt (js "9007199254740993") = Whole.Int 9007199254740992
  /\ parseInt (js "") = Whole.NaN
  /\ parseInt (js ".5") = Whole.NaN
  /\ parseInt (js "-12.7") = Whole.Int (-12).
Proof. repeat (apply conj); vm_compute; reflexivity. Qed.

(** C8 at [staggered]: in 2027 (model year 2) three cohorts of teak are
    active. *)
Lemma species_entry_over_cohorts_witness :
  speciesSetup staggered !! 0%nat = Some (setupRow staggered teak60)
  /\ counted (setupRow staggered teak60) = true
  /\ length (List.filter (active 2025 2) (scheduled staggered 2025)) = 3%nat
  /\ (let sp := setupRow staggered teak60 in
      let act := List.filter (active 2025 2) (scheduled staggered 2025) in
      let at_ := fun sch => contribution (forceYearZeroZero staggered) (mort staggered) sch sp
                              (cohortAge 2025 2 sch) in
      exists p,
        yr_perSpecies (yearRecord (forceYearZeroZero staggered) (mort staggered)
                         (scheduled staggered 2025) (speciesSetup staggered) 2025 2)
          !! 0%nat = Some p
        /\ ps_credits p = sumOf c_CO2eT (map at_ act)
        /\ ps_biomassKg p = sumOf c_biomassKg (map at_ act)
        /\ ps_survivingTrees p = sumOf c_surviving (map at_ act)
        /\ ps_dbhCm p = match last act with Some sch => c_dbh (at_ sch) | None => 0%float end).
Proof.
  assert (H1 : speciesSetup staggered !! 0%nat
               = Some (setupRow staggered teak60)) by reflexivity.
  assert (H2 : counted (setupRow staggered teak60) = true)
    by (vm_compute; reflexivity).
  split; [exact H1|]. split; [exact H2|]. split; [vm_compute; reflexivity|].
  destruct (species_entry_over_cohorts staggered 2025 2 0
              (setupRow staggered teak60) H1 H2)
    as (p & Hp & Hc & Hb & Ht & Hd & _).
  exists p. repeat split; assumption.
Defined.

(** C10 at [staggered], on the reference host. *)
Lemma outputs_never_negative_witness :
  HostLaws Ref.host
  /\ (let res := calcResult staggered in
      Sign.nonNegOrNaN (totalCredits res)
      /\ (forall t, List.In t (speciesSummary res) -> Sign.nonNegOrNaN (st_totalCredits t))
      /\ (forall d, List.In d (yearlyBreakdown res) ->
            Sign.nonNegOrNaN (yr_credits d) /\ Sign.nonNegOrNaN (yr_biomassKg d)
            /\ Sign.nonNegOrNaN (yr_survivingTrees d))).
Proof.
  split; [exact RefFacts.laws|].
  destruct (outputs_never_negative (HL := RefFacts.laws) staggered)
    as (H1 & H2 & H3).
  split; [exact H1|]. split; [exact H2|].
  intros d Hd. destruct (H3 d Hd) as (D1 & D2 & D3 & _). repeat split; assumption.
Defined.

(** C10 as stated fails. [cramped] passes validation, its density is
    [10000 / 0 = +Infinity], its area is 0, and [0 * Infinity] is NaN: the
    surviving trees of every year and the total credits are NaN, and
    [NaN >= 0] is false. And [receding] passes validation with a growth rate
    of [-1]: the diameters its per-species entries report for 2026 and 2027
    are [-1] and [-2]. *)
Lemma outputs_not_all_nonnegative :
  (validate cramped = None
   /\ map sp_densityHa (speciesSetup cramped) = [infinity]
   /\ map (fun d => Num.ge (yr_survivingTrees d) 0)
        (yearlyBreakdown (calcResult cramped)) = [false; false; false]
   /\ Num.ge (totalCredits (calcResult cramped)) 0 = false
   /\ Num.isNaN (totalCredits (calcResult cramped)) = true)
  /\ (validate receding = None
      /\ map (fun d => map ps_dbhCm (yr_perSpecies d)) (yearlyBreakdown (calcResult receding))
         = [[0]; [-1]; [-2]]%float
      /\ Num.ge (-1) 0 = false /\ Num.ge (-2) 0 = false).
Proof. repeat (apply conj); vm_compute; reflexivity. Qed.

(** The scenario of one hectare of teak at 3 m spacing, 2025-2027: no
    credits in the planting year, and the credits of the two later years
    from the dry formula at diameters 0.2 and 0.4 cm. *)
Example base_scenario :
  let trees := (100 / 100 * 1 * (10000 / (3 * 3)))%float in
  let credits := fun D =>
    (0 + kgBiomassToTonsCO2e (defaultAllometryBiomassKg D dry * trees))%float in
  calculate base = Stored (calcResult base)
  /\ map (fun d => (yr_year d, yr_credits d, map ps_dbhCm (yr_perSpecies d)))
       (yearlyBreakdown (calcResult base))
     = [(2025%Z, 0%float, [0%float]);
        (2026%Z, credits 0.2%float, [0.2%float]);
        (2027%Z, credits 0.4%float, [0.4%float])].
Proof. split; vm_compute; reflexivity. Qed.

(** A custom equation that spells out the dry formula agrees with the
    default allometry. *)
Example custom_equation_round_trip :
  evalBiomassExpr 10 (js "exp(-1.996 + 2.32*ln(D))")
  = defaultAllometryBiomassKg 10 dry.
Proof. vm_compute. reflexivity. Qed.

(** The custom equation of [mahogany] is used where it evaluates, and a
    broken one falls back to the moist allometry. *)
Example custom_equation_or_fallback :
  useCustom mahogany = true
  /\ eq mahogany 2 = Ref.exp (-2 + 2.5 * Ref.log 2)%float
  /\ eq {| row_id := row_id mahogany; row_name := row_name mahogany; row_region := moist;
           row_percent := js "40"; row_inputMode := densityMode;
           row_spacing := None; row_density := Some (js "800");
           row_growthRateCmYr := Some (js ""); row_initialDbhCm := Some (js "1.5");
           row_useCustomEq := Some true; row_customEquation := Some (js "exp(-2 + 2.5*ln(D)") |}
        2
     = defaultAllometryBiomassKg 2 moist.
Proof. repeat (apply conj); vm_compute; reflexivity. Qed.

(** Inputs the blocklist or the whitelist stops. *)
Example blocklist_rejections :
  map (evalBiomassExpr 10)
    [js "D.constructor"; js "D.__proto__"; js "(D) => D"; js "new D"; js "D; 1"; js ""]
  = [nan; nan; nan; nan; nan; nan].
Proof. vm_compute. reflexivity. Qed.

(** ** The helpers, the table and the rows at the sample inputs *)

Import MoreSamples.

(** X2 at the bounds of a percent: 150 is cut to the range, 50 is kept. *)
Lemma clamp_within_bounds_witness :
  (0 <=? 100)%float = true
  /\ Num.le 0 (clamp 150 0 100) = true
  /\ Num.le (clamp 150 0 100) 100 = true
  /\ clamp 50 0 100 = 50%float.
Proof.
  assert (Hb : (0 <=? 100)%float = true) by reflexivity.
  destruct (clamp_within_bounds 150 0 100 Hb) as (_ & H1 & _).
  destruct (clamp_within_bounds 50 0 100 Hb) as (_ & _ & H2).
  split; [exact Hb|].
  destruct (H1 eq_refl) as [Hlo Hhi].
  split; [exact Hlo|]. split; [exact Hhi|].
  apply H2; reflexivity.
Defined.

(** X5 at an equation typed with spaces around it. *)
Lemma evalBiomassExpr_ignores_outer_space_witness :
  Str.truthy (Str.trim (js "  2 * D ")) = true
  /\ functionBody (Str.trim (js "  2 * D ")) = functionBody (js "  2 * D ")
  /\ functionBody (js "  2 * D ") = Some (js "return (2 * (D));").
Proof.
  assert (Ht : Str.truthy (Str.trim (js "  2 * D ")) = true) by reflexivity.
  split; [exact Ht|].
  split; [exact (proj2 (evalBiomassExpr_ignores_outer_space 10 _) Ht)|].
  vm_compute. reflexivity.
Defined.

(** X6 at [extended]: four rows for 2025-2028, the three old rows kept. *)
Lemma refreshSchedule_rows_witness :
  useSchedule extended = true
  /\ clampInt (parseInt (Str.or_else (scheduleYears extended) (js "0"))) 0 200 = Some 4
  /\ refreshSchedule extended = extendedTable
  /\ Z.of_nat (length (refreshSchedule extended)) = 4
  /\ srow_year <$> refreshSchedule extended = Whole.Int <$> seqZ 2025 4.
Proof.
  assert (Hu : useSchedule extended = true) by reflexivity.
  assert (Hn : clampInt (parseInt (Str.or_else (scheduleYears extended) (js "0"))) 0 200
               = Some 4) by (vm_compute; reflexivity).
  pose proof (refreshSchedule_rows extended 4 Hu Hn) as Hw. cbv zeta in Hw.
  destruct Hw as (H1 & _ & H3 & _).
  split; [exact Hu|]. split; [exact Hn|]. split; [vm_compute; reflexivity|].
  split; [exact H1|]. apply (H3 2025); [vm_compute; reflexivity | lia].
Defined.

(** X6 and X8 at [unread], whose planting year is NaN: the refresh builds
    three rows of year NaN and drops every area. *)
Example refresh_without_planting_year :
  parseInt (Str.or_else (plantingYear unread) (js "0")) = Whole.NaN
  /\ map srow_areaHa (customSchedule unread) = [js "1.5"; js "0"; js "2.25"]
  /\ refreshSchedule unread
     = replicate 3 {| srow_year := Whole.NaN; srow_areaHa := js "" |}.
Proof. repeat (apply conj); vm_compute; reflexivity. Qed.

(** X7 at [extended]. *)
Lemma refreshSchedule_idempotent_witness :
  refreshSchedule extended = extendedTable
  /\ refreshSchedule (withCustomSchedule extended extendedTable) = extendedTable.
Proof.
  assert (Hr : refreshSchedule extended = extendedTable) by (vm_compute; reflexivity).
  split; [exact Hr|].
  pose proof (refreshSchedule_idempotent extended) as Hi. rewrite Hr in Hi. exact Hi.
Defined.

(** X8 at [extended]: an area typed into the new row of 2028. *)
Lemma editScheduleArea_survives_refresh_witness :
  refreshSchedule extended = extendedTable
  /\ editScheduleArea 3 (js "4") extendedTable
     = Some (<[3%nat := {| srow_year := Whole.Int 2028; srow_areaHa := js "4" |}]>
               extendedTable)
  /\ refreshSchedule
       (withCustomSchedule extended
          (<[3%nat := {| srow_year := Whole.Int 2028; srow_areaHa := js "4" |}]>
             extendedTable))
     = <[3%nat := {| srow_year := Whole.Int 2028; srow_areaHa := js "4" |}]> extendedTable.
Proof.
  assert (Hr : refreshSchedule extended = extendedTable) by (vm_compute; reflexivity).
  assert (He : editScheduleArea 3 (js "4") extendedTable
               = Some (<[3%nat := {| srow_year := Whole.Int 2028; srow_areaHa := js "4" |}]>
                         extendedTable)) by reflexivity.
  destruct (editScheduleArea_survives_refresh extended extendedTable _ 3 (js "4") Hr He)
    as (_ & _ & _ & H4 & _).
  split; [exact Hr|]. split; [exact He|].
  apply (H4 (Whole.Int 2028)); [reflexivity | reflexivity|].
  intros j Hj Hy.
  destruct j as [|[|[|[|j]]]]; [| | |now apply Hj|]; vm_compute in Hy; discriminate Hy.
Defined.

(** X11 at [staggered]: records from 2025 to 2030, five years modeled. *)
Lemma calculate_terminal_year_witness :
  calculate staggered = Stored (calcResult staggered)
  /\ parseInt (plantingYear staggered) = Whole.Int 2025
  /\ parseInt (creditingEndYear staggered) = Whole.Int 2030
  /\ exists first final,
       head (yearlyBreakdown (calcResult staggered)) = Some first /\ yr_year first = 2025
       /\ last (yearlyBreakdown (calcResult staggered)) = Some final /\ yr_year final = 2030
       /\ Z.of_nat (length (yearlyBreakdown (calcResult staggered))) - 1 = 2030 - 2025.
Proof.
  assert (Hc : calculate staggered = Stored (calcResult staggered))
    by (vm_compute; reflexivity).
  assert (Hpy : parseInt (plantingYear staggered) = Whole.Int 2025) by (vm_compute; reflexivity).
  assert (Hey : parseInt (creditingEndYear staggered) = Whole.Int 2030)
    by (vm_compute; reflexivity).
  destruct (calculate_terminal_year staggered (calcResult staggered) 2025 2030 Hc Hpy Hey)
    as (first & final & _ & H1 & H2 & H3 & H4 & H5 & _).
  split; [exact Hc|]. split; [exact Hpy|]. split; [exact Hey|].
  exists first, final. repeat split; assumption.
Defined.

(** A calculation can store an empty breakdown: with both years
    infinite (a year of 400 digits) the difference of the years is NaN and
    the loop does not run. *)
Example calculate_without_years :
  let huge := repeat (57%N : jschar) 400 in
  let st := {| projectAreaHa := js "1"; plantingYear := huge; creditingEndYear := huge;
               mortalityRate := js "0"; considerMortality := yes;
               defaultGrowthRate := js "0.2"; forceYearZeroZero := true;
               useSchedule := false; scheduleYears := js "5"; scheduleMode := custom;
               constantAreaPerYear := js ""; customSchedule := []; rows := [teak] |} in
  parseInt huge = Whole.Infinity false
  /\ validate st = None
  /\ nYears st = Whole.NaN
  /\ exists res, calculate st = Stored res /\ yearlyBreakdown res = [].
Proof.
  cbv zeta. split; [vm_compute; reflexivity|]. split; [vm_compute; reflexivity|].
  split; [vm_compute; reflexivity|].
  eexists. split; [vm_compute; reflexivity | reflexivity].
Qed.

(** X13 at [tabled]: 1.5 + 0 + 2.25 hectares. *)
Lemma scheduleSum_is_planted_area_witness :
  validate tabled = None
  /\ useSchedule tabled = true
  /\ scheduleMode tabled = custom
  /\ refreshSchedule tabled = customSchedule tabled
  /\ NoDup (srow_year <$> customSchedule tabled)
  /\ parseInt (plantingYear tabled) = Whole.Int 2025
  /\ scheduleSum tabled = sumOf sch_areaHa (scheduled tabled 2025).
Proof.
  assert (Hv : validate tabled = None) by (vm_compute; reflexivity).
  assert (Hr : refreshSchedule tabled = customSchedule tabled)
    by (vm_compute; reflexivity).
  assert (Hnd : NoDup (srow_year <$> customSchedule tabled)).
  { cbn.
    repeat (apply NoDup_cons_2;
            [intros Hin;
             repeat (apply elem_of_cons in Hin as [Hin|Hin]; [discriminate|]);
             inversion Hin|]).
    apply NoDup_nil_2. }
  assert (Hpy : parseInt (plantingYear tabled) = Whole.Int 2025) by (vm_compute; reflexivity).
  split; [exact Hv|]. split; [reflexivity|]. split; [reflexivity|].
  split; [exact Hr|]. split; [exact Hnd|]. split; [exact Hpy|].
  exact (scheduleSum_is_planted_area tabled 2025 Hv eq_refl eq_refl Hr Hnd Hpy).
Defined.

(** X14 at [extended]. *)
Lemma refreshed_table_row_count_witness :
  Whole.isNaN (parseInt (Str.or_else (scheduleYears extended) (js "0"))) = false
  /\ validate (withCustomSchedule extended (refreshSchedule extended))
     <> Some ScheduleRowsNotInitialized.
Proof.
  assert (Hx : Whole.isNaN (parseInt (Str.or_else (scheduleYears extended) (js "0"))) = false)
    by (vm_compute; reflexivity).
  split; [exact Hx|].
  exact (refreshed_table_row_count extended Hx).
Defined.

(** X15 at the rows of [staggered] and a new id. *)
Lemma removeRow_undoes_addRow_witness :
  existsb (fun r => Str.eqb (row_id r) (js "b7t2c5n")) (rows staggered) = false
  /\ removeRow (js "b7t2c5n") (addRow (js "b7t2c5n") (rows staggered)) = rows staggered
  /\ removeRow (js "b7t2c5n") (rows staggered) = rows staggered.
Proof.
  assert (Hf : existsb (fun r => Str.eqb (row_id r) (js "b7t2c5n")) (rows staggered) = false)
    by reflexivity.
  destruct (removeRow_undoes_addRow (js "b7t2c5n") (rows staggered) Hf) as (H1 & H2).
  split; [exact Hf|]. split; [exact H1 | exact H2].
Defined.

(** X16 at the rows of [staggered]. *)
Lemma row_ids_stay_distinct_witness :
  NoDup (row_id <$> rows staggered)
  /\ NoDup (row_id <$> removeRow (row_id teak60) (rows staggered))
  /\ NoDup (row_id <$> updateRow (row_id mahogany) (rename (js "Khaya")) (rows staggered))
  /\ NoDup (row_id <$> addRow (js "b7t2c5n") (rows staggered)).
Proof.
  assert (Hnd : NoDup (row_id <$> rows staggered)).
  { apply NoDup_cons. split; [|apply NoDup_singleton].
    intros Hin. apply list_elem_of_singleton in Hin. vm_compute in Hin. discriminate. }
  destruct (row_ids_stay_distinct (rows staggered) Hnd) as (H1 & H2 & H3).
  split; [exact Hnd|]. split; [apply H1|]. split; [apply H2; reflexivity|].
  apply H3. reflexivity.
Defined.
